(** * T-REX agent core: clock, reactor priorities, factories and XML output

    A shallow embedding of the parts of the T-REX executive that the
    specification talks about:

    - [AgentClock.hh]   : the step clock ([PseudoClock]);
    - [TeleoReactor.cc] : construction, priorities, the priority sort, goal
                          delivery and the factory table;
    - [EuropaXML.cc]    : serialisation of plan-database domains;
    - [Observer.cc]     : serialisation of observations and observations by
                          value;
    - [PerformanceMonitor.hh] : the history of tick timings;
    - [Assembly.cc]     : the include path, the plan writer and the schema.

    Conventions.  A C++ function that can hit a [checkError] returns a
    [result]; code that writes to a [FILE*] or to the agent log threads the
    written text explicitly.  Machine integers are integers of [Z] with the
    conversions written out. *)

From Stdlib Require Import ZArith QArith Lia String Ascii List.
From Stdlib Require Import DecimalString DecimalZ.
From stdpp Require Import base option list gmap strings fin_maps relations sorting.

Local Open Scope string_scope.
Local Open Scope list_scope.
Local Open Scope Z_scope.

(** ** Outcomes of a call *)

(** What a call comes to: it returns a value, or a [checkError] stops it with
    a message.  [Undefined] stands for behaviour the language leaves undefined
    (an index outside a vector, a call through a handle that refers to
    nothing) and [OutOfFuel] for a loop that was cut by the bound of the
    model; neither is a value the program returns. *)
Inductive result (A : Type) : Type :=
| Ok (a : A)
| Fatal (msg : string)
| Undefined
| OutOfFuel.

Arguments Ok {A} a.
Arguments Fatal {A} msg.
Arguments Undefined {A}.
Arguments OutOfFuel {A}.

Definition rbind {A B} (r : result A) (k : A -> result B) : result B :=
  match r with
  | Ok a => k a
  | Fatal msg => Fatal msg
  | Undefined => Undefined
  | OutOfFuel => OutOfFuel
  end.

Global Instance result_eq_dec {A} `{EqDecision A} : EqDecision (result A).
Proof. solve_decision. Defined.

(** Modelled from the spec: the macro [checkError(cond, msg)] comes from
    Error.hh, which is not part of the sources at hand.  The errors it
    guards are fatal: the computation stops with [msg] when [cond] is
    false. *)
Definition checkError (cond : bool) (msg : string) : result unit :=
  if cond then Ok tt else Fatal msg.

Global Instance result_ret : MRet result := fun A a => Ok a.
Global Instance result_bind : MBind result := fun A B k r => rbind r k.

Abbreviation LabelStr := string.
Abbreviation TICK := Z.

(** Text written by [operator<<] for an [int] (and for a [TICK]): the decimal
    digits, with a leading minus sign for a negative number. *)
Definition show_int (z : Z) : string := NilZero.string_of_int (Z.to_int z).

(** ** Decimal numerals *)

Definition is_digit (c : ascii) : bool :=
  (48 <=? Z.of_nat (nat_of_ascii c)) && (Z.of_nat (nat_of_ascii c) <=? 57).

(** A text of one digit or more, and of nothing else: no sign, no point, no
    exponent. *)
Definition digits_only (s : string) : bool :=
  match s with
  | EmptyString => false
  | _ => forallb is_digit (list_ascii_of_string s)
  end.

(** A decimal integer: digits, after a minus sign when it is negative. *)
Definition is_decimal (s : string) : bool :=
  match s with
  | String c rest => if Ascii.eqb c "-"%char then digits_only rest else digits_only s
  | EmptyString => false
  end.

(** ** AgentClock.hh: the step clock *)

Module PseudoClock.

Record t : Type := Build {
  m_sleepSeconds : Q;
  m_tick : TICK;
  m_internalTicks : TICK;
  m_stepsPerTick : TICK
}.

(** Modelled from the spec: the constructor of [PseudoClock] is declared in
    AgentClock.hh and defined in AgentClock.cc, which is not part of the
    sources at hand.  The clock starts at tick 0 with its counter at 0. *)
Definition make (sleepSeconds : Q) (stepsPerTick : Z) : t :=
  {| m_sleepSeconds := sleepSeconds;
     m_tick := 0;
     m_internalTicks := 0;
     m_stepsPerTick := stepsPerTick |}.

(** Modelled from the spec: [PseudoClock::getNextTick] is declared in
    AgentClock.hh and defined in AgentClock.cc, which is not part of the
    sources at hand.  "Each call to next_tick() increments an internal
    counter; the externally visible tick advances every steps_per_tick
    calls": the call answers with the visible tick, counts itself, and
    moves the visible tick on once [m_stepsPerTick] calls were counted. *)
Definition getNextTick (c : t) : TICK * t :=
  let visible := m_tick c in
  let counted := m_internalTicks c + 1 in
  let next := if counted mod m_stepsPerTick c =? 0 then visible + 1 else visible in
  (visible, {| m_sleepSeconds := m_sleepSeconds c;
               m_tick := next;
               m_internalTicks := counted;
               m_stepsPerTick := m_stepsPerTick c |}).

(** The ticks answered by [n] successive calls. *)
Fixpoint poll (n : nat) (c : t) : list TICK :=
  match n with
  | O => []
  | S n' => let '(tick, c') := getNextTick c in tick :: poll n' c'
  end.

End PseudoClock.

(** ** TeleoReactor.cc: the factory table *)

Module Factory.

(** [Id<TeleoReactor::Factory>]: the distinguished [noId()] or the handle of
    a factory object. *)
Inductive Id : Type :=
| noId
| handle (key : positive).

Global Instance Id_eq_dec : EqDecision Id.
Proof. solve_decision. Defined.

(** [std::map<double, Id<Factory> >], keyed by the key of a [LabelStr]; a
    [LabelStr] and its key determine each other, so the text is the key. *)
Abbreviation table := (gmap string Id).

(** The function-local static [sl_instance] starts empty. *)
Definition initial : table := ∅.

Definition getFactory (name : LabelStr) (lookupTable : table) : Id :=
  match lookupTable !! name with
  | Some factory => factory
  | None => noId
  end.

(** [std::map::insert] leaves the map as it is when the key is bound. *)
Definition map_insert (name : LabelStr) (factory : Id) (m : table) : table :=
  match m !! name with
  | Some _ => m
  | None => <[name := factory]> m
  end.

Definition registerFactory (name : LabelStr) (factory : Id) (lookupTable : table)
  : result table :=
  checkError (bool_decide (getFactory name lookupTable = noId))
             ("Already registered " +:+ name) ;;
  Ok (map_insert name factory lookupTable).

(** The factories constructed so far: [Factory::Factory] registers itself
    under its name with its own handle, one constructor after the other. *)
Fixpoint register_all (regs : list (LabelStr * Id)) (lookupTable : table)
  : result table :=
  match regs with
  | [] => Ok lookupTable
  | (name, factory) :: rest =>
      lookupTable' ← registerFactory name factory lookupTable;
      register_all rest lookupTable'
  end.

(** No name is bound to [noId()]: only constructed factories register. *)
Definition proper (lookupTable : table) : Prop :=
  forall name factory, lookupTable !! name = Some factory -> factory <> noId.

End Factory.

(** ** Machine integers *)

(** Conversion of an integer to [int] (32 bits, two's complement) and the
    value of an expression computed in [size_t] (64 bits, unsigned). *)
Definition to_int (z : Z) : Z := (z + 2 ^ 31) mod 2 ^ 32 - 2 ^ 31.
Definition to_size_t (z : Z) : Z := z mod 2 ^ 64.
Definition INT_MAX : Z := 2 ^ 31 - 1.

(** ** TeleoReactor.cc: priorities and the priority sort *)

Module Priority.

(** [TeleoReactorId]: the handle of a reactor object. *)
Abbreviation TeleoReactorId := nat.

Definition cycle_detected : string := "Cycle detected in reactor specification".

Section Agent.

(** What TeleoReactor.cc asks of the agent and of the derived reactor
    classes (Agent.hh and the reactors are used through their interface):
    [queryTimelineModes] fills the external and the internal timelines of
    a reactor, [Agent::getReactorCount] counts the reactors of the agent,
    [Agent::getOwner] answers the reactor owning a timeline, or an id
    that is not valid. *)
Variable queryTimelineModes : TeleoReactorId -> list LabelStr * list LabelStr.
Variable getReactorCount : Z.
Variable getOwner : LabelStr -> option TeleoReactorId.

Definition externals (r : TeleoReactorId) : list LabelStr := (queryTimelineModes r).1.
Definition internals (r : TeleoReactorId) : list LabelStr := (queryTimelineModes r).2.

(** The loop of [getPriority] over the external timelines; [recurse] is
    the call [owner->getPriority(callCount + 1)]. *)
Fixpoint priority_loop (recurse : TeleoReactorId -> result Z)
    (timelines : list LabelStr) (priority : Z) : result Z :=
  match timelines with
  | [] => Ok priority
  | timeline :: rest =>
      match getOwner timeline with
      | None => Fatal ("Invalid id for " +:+ timeline)
      | Some owner =>
          p ← recurse owner;
          priority_loop recurse rest (Z.max priority p)
      end
  end.

(** [TeleoReactor::getPriority(int callCount)].  The recursion is cut by
    [fuel]; [getPriority] below supplies more than the guard on
    [callCount] lets it use. *)
Fixpoint getPriority_fuel (fuel : nat) (r : TeleoReactorId) (callCount : Z)
  : result Z :=
  match fuel with
  | O => OutOfFuel
  | S fuel' =>
      let '(externals, internals) := queryTimelineModes r in
      checkError (callCount <? getReactorCount) cycle_detected ;;
      match externals with
      | [] => Ok 0
      | _ =>
          priority ← priority_loop
            (fun owner => getPriority_fuel fuel' owner (to_int (callCount + 1)))
            externals 0;
          Ok (to_int (1 + priority))
      end
  end.

Definition getPriority (r : TeleoReactorId) (callCount : Z) : result Z :=
  getPriority_fuel (S (Z.to_nat (getReactorCount - callCount))) r callCount.

(** [reactors[i]] of a [std::vector]. *)
Definition at_index (reactors : list TeleoReactorId) (i : nat) : result TeleoReactorId :=
  match reactors !! i with
  | Some r => Ok r
  | None => Undefined
  end.

(** The [for] loop of [sort]: [todo] iterations are left, the next one
    at index [i], which stays below [count] and so within an [int].
    [getPriority()] is the call with [callCount = 0], the recursion depth at
    which the guard lets as many calls nest as the agent has reactors. *)
Fixpoint sort_for (todo : nat) (i : nat) (reactors : list TeleoReactorId)
    (swapped : bool) : result (list TeleoReactorId * bool) :=
  match todo with
  | O => Ok (reactors, swapped)
  | S todo' =>
      a ← at_index reactors i;
      b ← at_index reactors (i + 1);
      pb ← getPriority b 0;
      pa ← getPriority a 0;
      if pb <? pa
      then sort_for todo' (i + 1) (<[(i + 1)%nat := a]> (<[i := b]> reactors)) true
      else sort_for todo' (i + 1) reactors swapped
  end.

(** The [while (swapped)] loop of [sort], cut by [fuel]. *)
Fixpoint sort_while (fuel : nat) (count : Z) (reactors : list TeleoReactorId)
    (swapped : bool) : result (list TeleoReactorId) :=
  if swapped then
    match fuel with
    | O => OutOfFuel
    | S fuel' =>
        '(reactors', swapped') ← sort_for (Z.to_nat count) 0 reactors false;
        sort_while fuel' count reactors' swapped'
    end
  else Ok reactors.

(** [TeleoReactor::sort]: [int count = reactors.size() - 1]. *)
Definition sort_fuel (fuel : nat) (reactors : list TeleoReactorId)
  : result (list TeleoReactorId) :=
  let count := to_int (to_size_t (Z.of_nat (length reactors) - 1)) in
  sort_while fuel count reactors true.

Definition sort (reactors : list TeleoReactorId) : result (list TeleoReactorId) :=
  sort_fuel (S (length reactors * length reactors)) reactors.

(** *** Notions for the statements *)

(** The priority [getPriority()] returns, 0 when it returns none. *)
Definition priority_of (r : nat) : Z :=
  match getPriority r 0 with
  | Ok p => p
  | _ => 0
  end.

(** [getPriority()] returns [prio r] for every reactor [r] of [l]. *)
Definition priorities_of (prio : nat -> Z) (l : list nat) : Prop :=
  forall r, r ∈ l -> getPriority r 0 = Ok (prio r).

(** The owner of [timeline] has the priority [p], as [recurse] answers. *)
Definition owner_priority (recurse : TeleoReactorId -> result Z)
    (timeline : LabelStr) (p : Z) : Prop :=
  exists S, getOwner timeline = Some S /\ recurse S = Ok p.

(** *** The dependency graph *)

(** [R] depends on [S]: the owner of an external timeline of [R] is [S]. *)
Definition depends (R S : TeleoReactorId) : Prop :=
  exists timeline, timeline ∈ externals R /\ getOwner timeline = Some S.

Definition acyclic : Prop := forall R, ~ tc depends R R.

(** [R] reaches a cycle of the graph. *)
Definition reaches_cycle (R : TeleoReactorId) : Prop :=
  exists S, rtc depends R S /\ tc depends S S.

(** The agent holds the reactors [agentReactors]: it counts them, the
    count fits an [int], and every external timeline of one of them has
    an owner among them. *)
Record agent_of (agentReactors : list TeleoReactorId) : Prop := {
  agent_count : getReactorCount = Z.of_nat (length agentReactors);
  agent_count_int : getReactorCount <= INT_MAX;
  agent_owner : forall R timeline,
    R ∈ agentReactors -> timeline ∈ externals R ->
    exists S, getOwner timeline = Some S /\ S ∈ agentReactors
}.

(** A timeline is owned by the reactor to which it is internal. *)
Definition owns_internals (agentReactors : list TeleoReactorId) : Prop :=
  forall S timeline,
    S ∈ agentReactors -> timeline ∈ internals S -> getOwner timeline = Some S.

End Agent.

End Priority.

(** ** Notions used to state what the priority sort achieves *)

Module SortSpec.

Section Pass.

(** The priority of each reactor, as [getPriority()] returns it. *)
Variable prio : nat -> Z.

(** One pass of the [for] loop as it acts on the sequence: [x] is the
    reactor at the current index, [rest] the reactors after it.  The
    flag tells whether the pass swapped. *)
Fixpoint bubble (x : nat) (rest : list nat) : list nat * bool :=
  match rest with
  | [] => ([x], false)
  | y :: rest' =>
      if prio y <? prio x
      then (y :: (bubble x rest').1, true)
      else (x :: (bubble y rest').1, (bubble y rest').2)
  end.

(** The reactors of [l] with a priority below that of [x]. *)
Definition below (x : nat) (l : list nat) : nat :=
  length (filter (fun y => prio y < prio x) l).

(** The pairs of positions that are out of order. *)
Fixpoint inversions (l : list nat) : nat :=
  match l with
  | [] => O
  | x :: l' => (below x l' + inversions l')%nat
  end.

Definition by_priority (a b : nat) : Prop := prio a <= prio b.

End Pass.

End SortSpec.

(** ** TinyXML elements, as the sources use them *)

Module TinyXML.

(** A [TiXmlElement]: its name, its attributes in the order in which they
    were set, and its children in the order in which they were linked. *)
#[warnings="-register-all"]
Inductive TiXmlElement : Type :=
| Element (value : string) (attributes : list (string * string))
          (children : list TiXmlElement).

Definition attributes (e : TiXmlElement) : list (string * string) :=
  match e with Element _ attrs _ => attrs end.

(** [elem.Attribute(name)]: the value of the attribute, or [NULL]. *)
Definition Attribute (name : string) (e : TiXmlElement) : option string :=
  snd <$> List.find (fun a => String.eqb a.1 name) (attributes e).

(** [elem->SetAttribute(name, value)]: the attribute is updated when the
    element has it and added after the others when it has not. *)
Fixpoint set_attribute (name value : string) (attrs : list (string * string))
  : list (string * string) :=
  match attrs with
  | [] => [(name, value)]
  | a :: rest =>
      if String.eqb a.1 name then (name, value) :: rest
      else a :: set_attribute name value rest
  end.

Definition SetAttribute (name value : string) (e : TiXmlElement) : TiXmlElement :=
  match e with
  | Element tag attrs children => Element tag (set_attribute name value attrs) children
  end.

Definition LinkEndChild (child : TiXmlElement) (e : TiXmlElement) : TiXmlElement :=
  match e with
  | Element tag attrs children => Element tag attrs (children ++ [child])
  end.

(** [new TiXmlElement(tag)]. *)
Definition new_element (tag : string) : TiXmlElement := Element tag [] [].

End TinyXML.

(** ** TeleoReactor.cc: the reactor object *)

Module Reactor.
Import TinyXML.

Definition latency_message : string :=
  "Makes no sense to lookahead more than you can deliberate. Biting off more than you can chew.".

Definition endl : string := String "010"%char EmptyString.

(** The members of a [TeleoReactor] that TeleoReactor.cc reads or assigns.
    The two counters are not set by the constructors: [None] stands for a
    member that was not assigned yet.  [RStat] usage is a CPU time. *)
Record TeleoReactor : Type := Build {
  m_name : LabelStr;
  m_agentName : LabelStr;
  m_lookAhead : TICK;
  m_latency : TICK;
  m_syncCount : option Z;
  m_searchCount : option Z;
  m_syncUsage : Z;
  m_searchUsage : Z;
  m_shouldLog : bool
}.

Definition getLatency (this : TeleoReactor) : TICK := m_latency this.
Definition getLookAhead (this : TeleoReactor) : TICK := m_lookAhead this.
Definition getName (this : TeleoReactor) : LabelStr := m_name this.

(** [TeleoReactor(agentName, name, lookAhead, latency, log)]. *)
Definition make (agentName name : LabelStr) (lookAhead latency : TICK) (log : bool)
  : result TeleoReactor :=
  let this := {| m_name := name; m_agentName := agentName;
                 m_lookAhead := lookAhead; m_latency := latency;
                 m_syncCount := None; m_searchCount := None;
                 m_syncUsage := 0; m_searchUsage := 0;
                 m_shouldLog := log |} in
  checkError (m_latency this <=? m_lookAhead this) latency_message ;;
  Ok this.

(** Modelled from the spec: [extractData] is declared in XMLUtils.hh, which
    is not part of the sources at hand.  It answers the text of a required
    attribute, and "missing required field" is a configuration error. *)
Definition extractData (configData : TiXmlElement) (field : string) : result string :=
  match Attribute field configData with
  | Some text => Ok text
  | None => Fatal ("Missing attribute " +:+ field)
  end.

Section Construction.

(** [atoi] of the C library, the conversion of an [int] to the type [TICK]
    of TREXDefs.hh, and [string_cast<bool>] of Utils.hh applied to the [log]
    attribute. *)
Variable atoi : string -> Z.
Variable TICK_of_int : Z -> TICK.
Variable string_cast_bool : bool -> option string -> bool.

(** [Agent::instance()->getFinalTick()], when the agent exists. *)
Variable agentFinalTick : option TICK.

Definition getLookAheadFromXML (configData : TiXmlElement) : result TICK :=
  match Attribute "lookAhead" configData with
  | None =>
      match agentFinalTick with
      | Some finalTick => Ok finalTick
      | None => Undefined
      end
  | Some _ =>
      text ← extractData configData "lookAhead";
      Ok (TICK_of_int (atoi text))
  end.

(** [TeleoReactor(agentName, configData, logDefault)]. *)
Definition make_from_xml (agentName : LabelStr) (configData : TiXmlElement)
    (logDefault : bool) : result TeleoReactor :=
  name ← extractData configData "name";
  lookAhead ← getLookAheadFromXML configData;
  latency ← extractData configData "latency";
  let this := {| m_name := name; m_agentName := agentName;
                 m_lookAhead := lookAhead;
                 m_latency := TICK_of_int (atoi latency);
                 m_syncCount := None; m_searchCount := None;
                 m_syncUsage := 0; m_searchUsage := 0;
                 m_shouldLog := string_cast_bool logDefault (Attribute "log" configData) |} in
  checkError (m_latency this <=? m_lookAhead this) latency_message ;;
  Ok this.

End Construction.

Section Lifetime.

(** Tokens, observations and the connectors handed to [handleInit] come from
    other parts of the system; [Derived] is the state of the derived reactor
    class and of everything else the virtual methods can reach. *)
Variables TokenId Observation Servers ObserverId Derived : Type.
Variable Token_toString : TokenId -> string.

(** What the calls leave behind, in order: the goals handed to
    [Agent::logRequest] and [Agent::logRecall], the lines written to
    [TREXLog()], the fields added to the tick log. *)
Inductive event : Type :=
| LogRequest (goal : TokenId)
| LogRecall (goal : TokenId)
| TREXLog (text : string)
| AddField (name : string).

(** [agentTick] is [Agent::instance()->getCurrentTick()] when the agent
    exists; [cpu] is the CPU time the process has used. *)
Record World : Type := BuildWorld {
  agentTick : option TICK;
  journal : list event;
  cpu : Z;
  derived : Derived
}.

Definition record (e : event) (w : World) : World :=
  {| agentTick := agentTick w; journal := journal w ++ [e];
     cpu := cpu w; derived := derived w |}.

(** The virtual methods that derived classes provide. *)
Variable synchronize : TeleoReactor -> World -> result (bool * World).
Variable resume : TeleoReactor -> World -> result World.
Variable handleInit : TeleoReactor -> TICK -> Servers -> ObserverId -> World -> result World.
Variable handleTickStart : TeleoReactor -> World -> result World.
Variable handleNotify : TeleoReactor -> Observation -> World -> result World.
Variable handleRequest : TeleoReactor -> TokenId -> World -> result World.
Variable handleRecall : TeleoReactor -> TokenId -> World -> result World.

Definition set_sync (count : option Z) (usage : Z) (this : TeleoReactor) : TeleoReactor :=
  {| m_name := m_name this; m_agentName := m_agentName this;
     m_lookAhead := m_lookAhead this; m_latency := m_latency this;
     m_syncCount := count; m_searchCount := m_searchCount this;
     m_syncUsage := usage; m_searchUsage := m_searchUsage this;
     m_shouldLog := m_shouldLog this |}.

Definition set_search (count : option Z) (usage : Z) (this : TeleoReactor) : TeleoReactor :=
  {| m_name := m_name this; m_agentName := m_agentName this;
     m_lookAhead := m_lookAhead this; m_latency := m_latency this;
     m_syncCount := m_syncCount this; m_searchCount := count;
     m_syncUsage := m_syncUsage this; m_searchUsage := usage;
     m_shouldLog := m_shouldLog this |}.

Definition getCurrentTick (w : World) : TICK :=
  match agentTick w with
  | None => 0
  | Some tick => tick
  end.

Definition nameString (this : TeleoReactor) (w : World) : string :=
  "[" +:+ getName this +:+ "][" +:+ show_int (getCurrentTick w) +:+ "]".

(** [RStatLap chrono(usage, RStat::self)] adds to [usage] the CPU time that
    passes until the block is left. *)
Definition doSynchronize (this : TeleoReactor) (w : World)
  : result (bool * TeleoReactor * World) :=
  let this := set_sync (Z.succ <$> m_syncCount this) (m_syncUsage this) this in
  '(consistent, w') ← synchronize this w;
  Ok (consistent, set_sync (m_syncCount this) (m_syncUsage this + (cpu w' - cpu w)) this, w').

Definition doResume (this : TeleoReactor) (w : World) : result (TeleoReactor * World) :=
  let this := set_search (Z.succ <$> m_searchCount this) (m_searchUsage this) this in
  w' ← resume this w;
  Ok (set_search (m_searchCount this) (m_searchUsage this + (cpu w' - cpu w)) this, w').

Definition reset_counters (this : TeleoReactor) : TeleoReactor :=
  set_search (Some 0) 0 (set_sync (Some 0) 0 this).

Definition doHandleInit (this : TeleoReactor) (initialTick : TICK)
    (serversByTimeline : Servers) (observer : ObserverId) (w : World)
  : result (TeleoReactor * World) :=
  let this := reset_counters this in
  let w := record (AddField (getName this +:+ ".sync.nSyncs")) w in
  let w := record (AddField (getName this +:+ ".sync.userTime")) w in
  let w := record (AddField (getName this +:+ ".search.nResume")) w in
  let w := record (AddField (getName this +:+ ".search.userTime")) w in
  w' ← handleInit this initialTick serversByTimeline observer w;
  Ok (this, w').

Definition doHandleTickStart (this : TeleoReactor) (w : World)
  : result (TeleoReactor * World) :=
  let this := reset_counters this in
  w' ← handleTickStart this w;
  Ok (this, w').

(** [Agent::instance()->logRequest(goal)]: there must be an agent. *)
Definition agent_log (e : event) (w : World) : result World :=
  match agentTick w with
  | None => Undefined
  | Some _ => Ok (record e w)
  end.

Definition request (this : TeleoReactor) (goal : TokenId) (w : World) : result World :=
  w ← agent_log (LogRequest goal) w;
  let w := record (TREXLog (nameString this w +:+ "Request received: "
                            +:+ Token_toString goal +:+ endl)) w in
  handleRequest this goal w.

Definition recall (this : TeleoReactor) (goal : TokenId) (w : World) : result World :=
  w ← agent_log (LogRecall goal) w;
  let w := record (TREXLog (nameString this w +:+ "Recall received: "
                            +:+ Token_toString goal +:+ endl)) w in
  handleRecall this goal w.

(** [TeleoServer] and [TeleoObserver]: the connectors hold the handle of
    their reactor, which stands here for the reactor it refers to. *)
Record TeleoServer : Type := BuildServer { server_reactor : TeleoReactor }.
Record TeleoObserver : Type := BuildObserver { observer_reactor : TeleoReactor }.

Definition TeleoServer_request (server : TeleoServer) (goal : TokenId) (w : World)
  : result World := request (server_reactor server) goal w.

Definition TeleoServer_recall (server : TeleoServer) (goal : TokenId) (w : World)
  : result World := recall (server_reactor server) goal w.

Definition TeleoServer_getLatency (server : TeleoServer) : TICK :=
  getLatency (server_reactor server).

Definition TeleoServer_getLookAhead (server : TeleoServer) : TICK :=
  getLookAhead (server_reactor server).

Definition TeleoObserver_notify (observer : TeleoObserver) (observation : Observation)
    (w : World) : result World := handleNotify (observer_reactor observer) observation w.

(** The calls a reactor receives between its construction and its end. *)
Inductive call : Type :=
| CallSynchronize
| CallResume
| CallHandleInit (initialTick : TICK) (serversByTimeline : Servers) (observer : ObserverId)
| CallHandleTickStart
| CallNotify (observation : Observation)
| CallRequest (goal : TokenId)
| CallRecall (goal : TokenId).

Definition step (c : call) (this : TeleoReactor) (w : World)
  : result (TeleoReactor * World) :=
  match c with
  | CallSynchronize => '(_, this', w') ← doSynchronize this w; Ok (this', w')
  | CallResume => doResume this w
  | CallHandleInit initialTick servers observer =>
      doHandleInit this initialTick servers observer w
  | CallHandleTickStart => doHandleTickStart this w
  | CallNotify observation => w' ← handleNotify this observation w; Ok (this, w')
  | CallRequest goal => w' ← request this goal w; Ok (this, w')
  | CallRecall goal => w' ← recall this goal w; Ok (this, w')
  end.

Fixpoint run (calls : list call) (this : TeleoReactor) (w : World)
  : result (TeleoReactor * World) :=
  match calls with
  | [] => Ok (this, w)
  | c :: rest => '(this', w') ← step c this w; run rest this' w'
  end.

End Lifetime.

End Reactor.

(** ** Notions used to state what the counters of a reactor hold *)

Module ReactorSpec.
Import Reactor.

Section Calls.

Variables TokenId Observation Servers ObserverId : Type.

Local Abbreviation call := (call TokenId Observation Servers ObserverId).

Definition is_synchronize (c : call) : bool :=
  match c with
  | CallSynchronize _ _ _ _ => true
  | _ => false
  end.

Definition is_resume (c : call) : bool :=
  match c with
  | CallResume _ _ _ _ => true
  | _ => false
  end.

(** The calls that set the counters back: [doHandleInit] and
    [doHandleTickStart]. *)
Definition is_reset (c : call) : bool :=
  match c with
  | CallHandleInit _ _ _ _ _ _ _ => true
  | CallHandleTickStart _ _ _ _ => true
  | _ => false
  end.

Definition count_calls (p : call -> bool) (calls : list call) : Z :=
  Z.of_nat (length (List.filter p calls)).

End Calls.

Section Journal.

Variables TokenId Observation Servers ObserverId Derived : Type.

(** The goals of the agent's log: what [logRequest] and [logRecall] were
    handed, in the order of the calls. *)
Definition is_goal_event (e : event TokenId) : bool :=
  match e with
  | LogRequest _ _ => true
  | LogRecall _ _ => true
  | _ => false
  end.

Definition goal_log (w : World TokenId Derived) : list (event TokenId) :=
  List.filter is_goal_event (journal _ _ w).

(** What a call is expected to leave in the log of the agent. *)
Definition goal_events (c : call TokenId Observation Servers ObserverId)
  : list (event TokenId) :=
  match c with
  | CallRequest _ _ _ _ goal => [LogRequest _ goal]
  | CallRecall _ _ _ _ goal => [LogRecall _ goal]
  | _ => []
  end.

End Journal.

End ReactorSpec.

(** ** Writing to a [FILE*] *)

(** The text written so far.  A call answers with its outcome and with the
    text as it then stands; a call that stops keeps what was written. *)
Abbreviation FILE := string.

Definition io (A : Type) : Type := FILE -> result A * FILE.

Global Instance io_ret : MRet io := fun A a out => (Ok a, out).

Global Instance io_bind : MBind io := fun A B k m out =>
  match m out with
  | (Ok a, out') => k a out'
  | (Fatal msg, out') => (Fatal msg, out')
  | (Undefined, out') => (Undefined, out')
  | (OutOfFuel, out') => (OutOfFuel, out')
  end.

(** [fprintf(out, ...)] once the format is filled in. *)
Definition fprintf (text : string) : io unit := fun out => (Ok tt, out +:+ text).

(** [checkError] in a function that writes. *)
Definition io_checkError (cond : bool) (msg : string) : io unit :=
  fun out => (checkError cond msg, out).

(** The double quote. *)
Definition dq : string := String "034"%char EmptyString.

(** ** EuropaXML.cc: domains as XML *)

Module EuropaXML.
Import TinyXML.

(** The values of the plan database are [double]s that stand for numbers,
    for the key of a [LabelStr] or for the key of an object.  What the
    sources do with one: test it ([value ? ... : ...]), cast it to [int],
    write it with [std::ios::fixed] set, read it as a [LabelStr] and take its
    text, read it as an [ObjectId] and take the name of the object, ask
    [LabelStr::isString], compare it with the two infinities.  With them
    come [BoolDomain::getDefaultTypeName()],
    [IntervalIntDomain::getDefaultTypeName()] and the default of the
    parameter [symbolic] of [domain_val_to_str] (EuropaXML.hh). *)
Class Europa : Type := BuildEuropa {
  double : Type;
  double_nonzero : double -> bool;
  double_to_int : double -> Z;
  show_fixed : double -> string;
  LabelStr_toString : double -> string;
  Object_getName : double -> string;
  LabelStr_isString : double -> bool;
  double_eqb : double -> double -> bool;
  PLUS_INFINITY : double;
  MINUS_INFINITY : double;
  BoolDomain_typeName : string;
  IntervalIntDomain_typeName : string;
  symbolic_default : bool
}.

Section Domains.

Context {europa : Europa}.

(** What EuropaXML.cc asks of an [AbstractDomain]. *)
Record AbstractDomain : Type := BuildDomain {
  getTypeName : LabelStr;
  isEntity : bool;
  isNumeric : bool;
  isEmpty : bool;
  isSingleton : bool;
  isEnumerated : bool;
  isInterval : bool;
  getSingletonValue : double;
  getValues : list double;
  getLowerBound : double;
  getUpperBound : double
}.

Definition is_bool (typeName : string) : bool :=
  String.eqb typeName "bool" || String.eqb typeName "BOOL"
  || String.eqb typeName BoolDomain_typeName.

Definition is_int (typeName : string) : bool :=
  String.eqb typeName "int" || String.eqb typeName "INT_INTERVAL"
  || String.eqb typeName IntervalIntDomain_typeName.

Definition bool_val_to_str (value : double) : string :=
  if double_nonzero value then "true" else "false".

Definition int_val_to_str (value : double) : string := show_int (double_to_int value).

Definition double_val_to_str (value : double) : string := show_fixed value.

Definition string_val_to_str (value : double) : string := LabelStr_toString value.

Definition object_val_to_str (value : double) : string := Object_getName value.

Definition domain_val_to_xml (domain : AbstractDomain) (value : double) : TiXmlElement :=
  let typeName := getTypeName domain in
  if isEntity domain then
    SetAttribute "value" (object_val_to_str value) (new_element "object")
  else
    let strName := typeName in
    if is_bool strName then
      SetAttribute "name" (bool_val_to_str value)
        (SetAttribute "type" "bool" (new_element "value"))
    else if isNumeric domain then
      let elem := SetAttribute "type" strName (new_element "value") in
      if is_int strName
      then SetAttribute "name" (int_val_to_str value) elem
      else SetAttribute "name" (double_val_to_str value) elem
    else
      SetAttribute "value" (string_val_to_str value)
        (SetAttribute "type" strName (new_element "symbol")).

Definition domain_val_print_xml (domain : AbstractDomain) (value : double) : io unit :=
  let typeName := getTypeName domain in
  if isEntity domain then
    fprintf ("<object value=" +:+ dq +:+ object_val_to_str value +:+ dq +:+ " />")
  else
    let strName := typeName in
    if is_bool strName then
      fprintf ("<value type=" +:+ dq +:+ "bool" +:+ dq +:+ " name=" +:+ dq
               +:+ bool_val_to_str value +:+ dq +:+ " />")
    else if isNumeric domain then
      fprintf ("<value type=" +:+ dq +:+ strName +:+ dq +:+ " name=" +:+ dq) ;;
      if is_int strName
      then fprintf (int_val_to_str value +:+ dq +:+ " />")
      else fprintf (double_val_to_str value +:+ dq +:+ " />")
    else
      fprintf ("<symbol type=" +:+ dq +:+ strName +:+ dq +:+ " value=" +:+ dq
               +:+ string_val_to_str value +:+ dq +:+ " />").

Definition domain_val_to_str (domain : AbstractDomain) (value : double) (symbolic : bool)
  : string :=
  let typeName := getTypeName domain in
  if is_bool typeName then bool_val_to_str value
  else if isNumeric domain then
    if symbolic && double_eqb PLUS_INFINITY value then "+inf"
    else if symbolic && double_eqb MINUS_INFINITY value then "-inf"
    else if is_int typeName then int_val_to_str value
    else double_val_to_str value
  else if LabelStr_isString (getUpperBound domain) then string_val_to_str value
  else object_val_to_str value.

(** [to_xml]: [None] is the [NULL] pointer. *)
Definition to_xml (domain : AbstractDomain) : option TiXmlElement :=
  if negb (isEmpty domain) then
    if isSingleton domain then
      Some (domain_val_to_xml domain (getSingletonValue domain))
    else if isEnumerated domain then
      let elem := new_element "set" in
      let typeName := getTypeName domain in
      let values := getValues domain in
      let elem := SetAttribute "type" typeName elem in
      Some (foldl (fun elem i => LinkEndChild (domain_val_to_xml domain i) elem) elem values)
    else if isInterval domain then
      let elem := new_element "interval" in
      let typeName := getTypeName domain in
      let elem := SetAttribute "type" typeName elem in
      let elem := SetAttribute "min"
        (domain_val_to_str domain (getLowerBound domain) symbolic_default) elem in
      let elem := SetAttribute "max"
        (domain_val_to_str domain (getUpperBound domain) symbolic_default) elem in
      Some elem
    else None
  else None.

(** The loop [for ( ; endi != i; ++i) domain_val_print_xml(out, domain, *i)]. *)
Fixpoint print_values (domain : AbstractDomain) (values : list double) : io unit :=
  match values with
  | [] => mret tt
  | i :: rest => domain_val_print_xml domain i ;; print_values domain rest
  end.

Definition print_xml (domain : AbstractDomain) : io unit :=
  io_checkError (negb (isEmpty domain)) "print_xml<AbstractDomain>: Unknown domain type." ;;
  if isSingleton domain then
    domain_val_print_xml domain (getSingletonValue domain)
  else if isEnumerated domain then
    let values := getValues domain in
    match values with
    | _ :: _ =>
        fprintf ("<set type=" +:+ dq +:+ getTypeName domain +:+ dq +:+ ">") ;;
        print_values domain values ;;
        fprintf "</set>"
    | [] => fprintf ("<set type=" +:+ dq +:+ getTypeName domain +:+ dq +:+ "/>")
    end
  else if isInterval domain then
    fprintf ("<interval type=" +:+ dq +:+ getTypeName domain +:+ dq
             +:+ " min=" +:+ dq
             +:+ domain_val_to_str domain (getLowerBound domain) symbolic_default +:+ dq
             +:+ " max=" +:+ dq
             +:+ domain_val_to_str domain (getUpperBound domain) symbolic_default +:+ dq
             +:+ "/>")
  else mret tt.

End Domains.

End EuropaXML.

(** ** Observer.cc: observations as XML *)

Module Observer.
Import EuropaXML.

Section Observations.

Context {europa : Europa}.

(** An [Observation]: the count of its parameters, the names of its object
    and predicate, and [operator[]], which the two kinds of observation
    provide. *)
Record Observation : Type := BuildObservation {
  m_parameterCount : nat;
  m_objectName : LabelStr;
  m_predicateName : LabelStr;
  parameter : nat -> LabelStr * AbstractDomain
}.

Definition countParameters (o : Observation) : nat := m_parameterCount o.
Definition getObjectName (o : Observation) : LabelStr := m_objectName o.
Definition getPredicate (o : Observation) : LabelStr := m_predicateName o.

(** The loop [for (i = 0; i < cnt; ++i)] of [printXML], with [todo]
    iterations left and the next one at index [i]. *)
Fixpoint print_asserts (o : Observation) (todo : nat) (i : nat) : io unit :=
  match todo with
  | O => mret tt
  | S todo' =>
      let nameValuePair := parameter o i in
      fprintf ("<Assert name=" +:+ dq +:+ nameValuePair.1 +:+ dq +:+ ">") ;;
      print_xml nameValuePair.2 ;;
      fprintf "</Assert>" ;;
      print_asserts o todo' (S i)
  end.

Definition printXML (o : Observation) : io unit :=
  let cnt := countParameters o in
  if Nat.eqb cnt 0 then
    fprintf ("<Observation on=" +:+ dq +:+ getObjectName o +:+ dq
             +:+ " predicate=" +:+ dq +:+ getPredicate o +:+ dq +:+ " />")
  else
    fprintf ("<Observation on=" +:+ dq +:+ getObjectName o +:+ dq
             +:+ " predicate=" +:+ dq +:+ getPredicate o +:+ dq +:+ ">") ;;
    print_asserts o cnt 0 ;;
    fprintf "</Observation>".

(** What [print_xml] writes for a domain, and what [domain_val_print_xml]
    writes for a value of a domain, on a stream that is empty. *)
Definition domain_text (domain : AbstractDomain) : string := (print_xml domain "").2.

Definition value_text (domain : AbstractDomain) (value : double) : string :=
  (domain_val_print_xml domain value "").2.

(** The [Assert] element of the parameter at index [i]. *)
Definition assert_text (o : Observation) (i : nat) : string :=
  "<Assert name=" +:+ dq +:+ (parameter o i).1 +:+ dq +:+ ">"
  +:+ domain_text (parameter o i).2 +:+ "</Assert>".

(** The texts of a list, one after the other. *)
Definition concat_text (texts : list string) : string := foldr String.append "" texts.

End Observations.

End Observer.

(** ** Machine integers without sign *)

(** Conversion to [unsigned int] (32 bits). *)
Definition to_unsigned (z : Z) : Z := z mod 2 ^ 32.

(** ** Notions used to state what the XML functions write *)

Module XMLSpec.
Import TinyXML.

(** A call that only adds to the stream, and whose outcome and added text
    do not depend on what the stream holds. *)
Definition appends {A} (m : io A) : Prop :=
  forall out, m out = ((m "").1, out +:+ (m "").2).

(** The text of one attribute inside a tag. *)
Definition attribute_text (a : string * string) : string :=
  " " +:+ a.1 +:+ "=" +:+ dq +:+ a.2 +:+ dq.

(** The tag of an element without children, closed in place. *)
Definition childless_text (e : TiXmlElement) : string :=
  match e with
  | Element tag attrs _ =>
      "<" +:+ tag +:+ foldr (fun a rest => attribute_text a +:+ rest) " />" attrs
  end.

Section Kinds.

Context {europa : EuropaXML.Europa}.

(** A domain is boolean, or of an integer type, by the name of its type. *)
Definition boolean_type (typeName : string) : Prop :=
  typeName = "bool" \/ typeName = "BOOL" \/ typeName = EuropaXML.BoolDomain_typeName.

Definition integer_type (typeName : string) : Prop :=
  typeName = "int" \/ typeName = "INT_INTERVAL"
  \/ typeName = EuropaXML.IntervalIntDomain_typeName.

End Kinds.

End XMLSpec.

(** ** Observer.cc: observations that carry their parameters *)

Module ObservationByValue.
Import EuropaXML.

Section ByValue.

Context {europa : Europa}.

(** [m_parameterCount] is an [unsigned int] that [push_back] increments;
    [m_parameters] is the vector of the pairs. *)
Record t : Type := Build {
  m_parameterCount : Z;
  m_objectName : LabelStr;
  m_predicateName : LabelStr;
  m_parameters : list (LabelStr * AbstractDomain)
}.

(** [ObservationByValue(objectName, predicateName)]. *)
Definition make (objectName predicateName : LabelStr) : t :=
  {| m_parameterCount := 0; m_objectName := objectName;
     m_predicateName := predicateName; m_parameters := [] |}.

Definition countParameters (o : t) : Z := m_parameterCount o.

Definition push_back (name : LabelStr) (dom : AbstractDomain) (o : t) : t :=
  {| m_parameterCount := to_unsigned (m_parameterCount o + 1);
     m_objectName := m_objectName o;
     m_predicateName := m_predicateName o;
     m_parameters := m_parameters o ++ [(name, dom)] |}.

(** [operator[](index)]: the check, then [m_parameters[index]]. *)
Definition operator_index (o : t) (index : nat) : result (LabelStr * AbstractDomain) :=
  checkError (countParameters o =? Z.of_nat (length (m_parameters o)))
             ("Count: " +:+ show_int (countParameters o) +:+ ", Size: "
              +:+ show_int (Z.of_nat (length (m_parameters o)))) ;;
  match m_parameters o !! index with
  | Some nameValuePair => Ok nameValuePair
  | None => Undefined
  end.

(** The pairs pushed one after the other on a new observation. *)
Definition pushed (objectName predicateName : LabelStr)
    (pairs : list (LabelStr * AbstractDomain)) : t :=
  foldl (fun o nameValuePair => push_back nameValuePair.1 nameValuePair.2 o)
        (make objectName predicateName) pairs.

(** The observation as [Observation::printXML] sees it through
    [countParameters] and [operator[]]; [spare] stands where [operator[]]
    returns nothing. *)
Definition as_Observation (spare : LabelStr * AbstractDomain) (o : t)
  : Observer.Observation :=
  {| Observer.m_parameterCount := Z.to_nat (countParameters o);
     Observer.m_objectName := m_objectName o;
     Observer.m_predicateName := m_predicateName o;
     Observer.parameter := fun index =>
       match operator_index o index with
       | Ok nameValuePair => nameValuePair
       | _ => spare
       end |}.

End ByValue.

End ObservationByValue.

(** ** TeleoReactor.cc: using and purging the factory table *)

Module FactoryUse.
Import Factory.


Section Factories.

(** [factory->createInstance(agentName, configData)], the virtual method of
    the factory object behind a handle; it answers the id of the reactor it
    allocated. *)
Variable Factory_createInstance :
  positive -> LabelStr -> TinyXML.TiXmlElement -> result nat.

(** [TeleoReactor::createInstance]. *)
Definition createInstance (agentName component : LabelStr)
    (configData : TinyXML.TiXmlElement) (lookupTable : table) : result nat :=
  let factory := getFactory component lookupTable in
  checkError (negb (bool_decide (factory = noId)))
             (component +:+ " has not been registered.") ;;
  match factory with
  | handle key => Factory_createInstance key agentName configData
  | noId => Undefined
  end.

(** [m.begin()] of the [std::map]: the entry with the least key, in the
    order of the keys of the [LabelStr]s, which the text does not show.  The
    text written for an id by [operator<<], the message of the check in
    [purgeAll]. *)
Variable map_begin : table -> option (LabelStr * Id).
Variable show_Id : Id -> string.




End Factories.

End FactoryUse.

(** ** PerformanceMonitor.hh: the history of tick timings *)

Module Monitor.

(** A [timeval]: seconds and microseconds. *)
Abbreviation timeval := (Z * Z)%type.

(** A monitor is a [PerformanceMonitor] or a [StatisticsCollector], which
    overrides [addTickData]; both hold [m_tickData]. *)
Inductive monitor : Type :=
| PerformanceMonitor (m_tickData : list (timeval * timeval))
| StatisticsCollector (m_tickData : list (timeval * timeval)).

Definition getData (m : monitor) : list (timeval * timeval) :=
  match m with
  | PerformanceMonitor data => data
  | StatisticsCollector data => data
  end.

(** The virtual [addTickData]: each class pushes the pair at the back. *)
Definition addTickData (synchTime deliberationTime : timeval) (m : monitor) : monitor :=
  match m with
  | PerformanceMonitor data =>
      PerformanceMonitor (data ++ [(synchTime, deliberationTime)])
  | StatisticsCollector data =>
      StatisticsCollector (data ++ [(synchTime, deliberationTime)])
  end.

(** The ticks of a run, reported one after the other. *)
Definition report (ticks : list (timeval * timeval)) (m : monitor) : monitor :=
  foldl (fun m tick => addTickData tick.1 tick.2 m) m ticks.

End Monitor.

(** ** Assembly.cc: the include path, the plan writer and the schema *)

Module Assembly.

(** The loop of [playTransactions] over the characters of the include path,
    with its [unsigned int] index; it is cut by [fuel]. *)
Fixpoint include_path_loop (fuel : nat) (i : Z) (path : list ascii)
  : result (list ascii) :=
  if i <? Z.of_nat (length path) then
    match fuel with
    | O => OutOfFuel
    | S fuel' =>
        match path !! Z.to_nat i with
        | None => Undefined
        | Some c =>
            let path := if Ascii.eqb c ";"%char
                        then <[Z.to_nat i := ":"%char]> path else path in
            include_path_loop fuel' (to_unsigned (i + 1)) path
        end
    end
  else Ok path.

(** The path that is handed to the interpreter as [nddl.includePath]. *)
Definition include_path (path : list ascii) : result (list ascii) :=
  include_path_loop (S (length path)) 0 path.

(** The writer of an assembly: [m_ppw] is the null pointer or the handle of
    a [DbWriter].  [created] counts the writers that [new] allocated,
    [written] lists what they were asked to write and [deleted] the writers
    that [delete] reached. *)
Record state : Type := Build {
  m_ppw : option nat;
  created : nat;
  written : list (nat * TICK * Z);
  deleted : list nat
}.

(** After the constructor: [m_ppw = NULL]. *)
Definition constructed : state :=
  {| m_ppw := None; created := O; written := []; deleted := [] |}.

Definition getPPW (s : state) : nat * state :=
  match m_ppw s with
  | None =>
      let writer := created s in
      (writer, {| m_ppw := Some writer; created := S (created s);
                  written := written s; deleted := deleted s |})
  | Some writer => (writer, s)
  end.

(** [exportToPlanWorks(tick, attempt)]: the reply and the state. *)
Definition exportToPlanWorks (tick : TICK) (attempt : Z) (s : state) : string * state :=
  let '(writer, s) := getPPW s in
  ("DONE", {| m_ppw := m_ppw s; created := created s;
              written := written s ++ [(writer, tick, attempt)];
              deleted := deleted s |}).

(** The part of [~Assembly] that concerns the writer:
    [if (m_ppw == NULL) delete m_ppw;], where [delete] of the null pointer
    does nothing. *)
Definition destroy (s : state) : state :=
  match m_ppw s with
  | None => s
  | Some _ => s
  end.

(** A run of exports: the replies and the state. *)
Fixpoint exports (requests : list (TICK * Z)) (s : state) : list string * state :=
  match requests with
  | [] => ([], s)
  | (tick, attempt) :: rest =>
      let '(reply, s) := exportToPlanWorks tick attempt s in
      let '(replies, s) := exports rest s in
      (reply :: replies, s)
  end.

(** The schema of the assemblies: [s_instance] is the null pointer or the
    handle of a [Schema]; [live] lists the [Schema] objects that exist and
    [allocated] counts those that [new] has made. *)
Record schemas : Type := BuildSchemas {
  s_instance : option nat;
  live : list nat;
  allocated : nat
}.

Definition no_schema : schemas := {| s_instance := None; live := []; allocated := O |}.

(** [~Schema()] of the object [this]. *)
Definition Schema_destroy (this : nat) (s : schemas) : schemas :=
  {| s_instance := None;
     live := List.filter (fun x => negb (Nat.eqb x this)) (live s);
     allocated := allocated s |}.

(** [new Assembly::Schema()]: the constructor deletes the instance there is
    and puts the new object in its place. *)
Definition Schema_new (s : schemas) : nat * schemas :=
  let this := allocated s in
  let s := {| s_instance := s_instance s; live := live s ++ [this];
              allocated := S (allocated s) |} in
  let s := match s_instance s with
           | Some old => Schema_destroy old s
           | None => s
           end in
  (this, {| s_instance := Some this; live := live s; allocated := allocated s |}).

(** [Assembly::Schema::instance()]: the instance, or the null pointer. *)
Definition Schema_instance (s : schemas) : option nat * schemas :=
  let s := match s_instance s with
           | None => (Schema_new s).2
           | Some _ => s
           end in
  (s_instance s, s).

Inductive schema_call : Type :=
| CallInstance
| CallNew.

Definition schema_step (c : schema_call) (s : schemas) : schemas :=
  match c with
  | CallInstance => (Schema_instance s).2
  | CallNew => (Schema_new s).2
  end.

End Assembly.

(** What the assembly is expected to do, to be compared with [Assembly]. *)
Module AssemblySpec.

(** The separator of the operating system for the one of the configuration. *)
Definition colon_for_semicolon (c : ascii) : ascii :=
  if Ascii.eqb c ";"%char then ":"%char else c.

(** One [Schema] lives at most, the instance, and its handle is below the
    count of the allocations. *)
Definition one_schema (s : Assembly.schemas) : Prop :=
  Assembly.live s = option_list (Assembly.s_instance s)
  /\ forall x, Assembly.s_instance s = Some x -> (x < Assembly.allocated s)%nat.

(** The state after the calls [calls], the first one first. *)
Definition schema_run (calls : list Assembly.schema_call) (s : Assembly.schemas)
  : Assembly.schemas :=
  foldl (fun s c => Assembly.schema_step c s) s calls.

End AssemblySpec.

(** ** Example configurations *)

Module Examples.

(** A pipeline: reactor 0 owns [clock]; reactor 1 observes [clock] and owns
    [nav]; reactor 2 observes [clock] and [nav] and owns [out]. *)
Definition pipeline_modes (r : nat) : list LabelStr * list LabelStr :=
  match r with
  | O => ([], ["clock"])
  | S O => (["clock"], ["nav"])
  | S (S O) => (["clock"; "nav"], ["out"])
  | _ => ([], [])
  end.

Definition pipeline_owner (timeline : LabelStr) : option nat :=
  if String.eqb timeline "clock" then Some 0%nat
  else if String.eqb timeline "nav" then Some 1%nat
  else if String.eqb timeline "out" then Some 2%nat
  else None.

Definition pipeline_reactors : list nat := [0%nat; 1%nat; 2%nat].

(** Two reactors that observe each other: reactor 0 owns [x_tl] and
    observes [y_tl], reactor 1 owns [y_tl] and observes [x_tl]. *)
Definition loop_modes (r : nat) : list LabelStr * list LabelStr :=
  match r with
  | O => (["y_tl"], ["x_tl"])
  | S O => (["x_tl"], ["y_tl"])
  | _ => ([], [])
  end.

Definition loop_owner (timeline : LabelStr) : option nat :=
  if String.eqb timeline "x_tl" then Some 0%nat
  else if String.eqb timeline "y_tl" then Some 1%nat
  else None.

Definition loop_reactors : list nat := [0%nat; 1%nat].

(** Two factories, registered in this order. *)
Definition two_factories : list (LabelStr * Factory.Id) :=
  [("DbCore", Factory.handle 1); ("Simulator", Factory.handle 2)].

Definition two_factories_table : gmap string Factory.Id :=
  <["Simulator" := Factory.handle 2]> (<["DbCore" := Factory.handle 1]> ∅).

(** A reactor class whose goals are numbers: it keeps the goals it was
    asked for, newest first, and drops a goal that is recalled. *)
Definition goal_world : Type := Reactor.World nat (list nat).

Definition keep_goal (this : Reactor.TeleoReactor) (goal : nat) (w : goal_world)
  : result goal_world :=
  Ok {| Reactor.agentTick := Reactor.agentTick _ _ w;
        Reactor.journal := Reactor.journal _ _ w;
        Reactor.cpu := Reactor.cpu _ _ w;
        Reactor.derived := goal :: Reactor.derived _ _ w |}.

Definition drop_goal (this : Reactor.TeleoReactor) (goal : nat) (w : goal_world)
  : result goal_world :=
  Ok {| Reactor.agentTick := Reactor.agentTick _ _ w;
        Reactor.journal := Reactor.journal _ _ w;
        Reactor.cpu := Reactor.cpu _ _ w;
        Reactor.derived := List.filter (fun g => negb (Nat.eqb g goal)) (Reactor.derived _ _ w) |}.

Definition idle_synchronize (this : Reactor.TeleoReactor) (w : goal_world)
  : result (bool * goal_world) := Ok (true, w).

Definition idle (this : Reactor.TeleoReactor) (w : goal_world) : result goal_world := Ok w.

Definition idle_init (this : Reactor.TeleoReactor) (initialTick : TICK) (servers observer : unit)
    (w : goal_world) : result goal_world := Ok w.

Definition idle_notify (this : Reactor.TeleoReactor) (observation : unit) (w : goal_world)
  : result goal_world := Ok w.

Definition show_goal (goal : nat) : string := show_int (Z.of_nat goal).

(** A reading of decimal numbers in the place of [atoi]. *)
Definition read_int (text : string) : Z :=
  match NilZero.int_of_string text with
  | Some d => Z.of_int d
  | None => 0
  end.

Definition nav_reactor : Reactor.TeleoReactor :=
  {| Reactor.m_name := "nav"; Reactor.m_agentName := "agent";
     Reactor.m_lookAhead := 5; Reactor.m_latency := 2;
     Reactor.m_syncCount := None; Reactor.m_searchCount := None;
     Reactor.m_syncUsage := 0; Reactor.m_searchUsage := 0;
     Reactor.m_shouldLog := true |}.

Definition hasty_config : TinyXML.TiXmlElement :=
  TinyXML.Element "TeleoReactor" [("name", "nav"); ("latency", "5"); ("lookAhead", "2")] [].

Definition tick3_world : goal_world :=
  {| Reactor.agentTick := Some 3; Reactor.journal := [];
     Reactor.cpu := 0; Reactor.derived := [] |}.

(** A plan database whose values are integers: a value is non-zero as the
    integer is, its text as a [LabelStr] or as the name of an object is read
    from a small table, and a number is written in fixed notation with six
    zeros after the point. *)
Definition label_of (key : Z) : string :=
  if key =? 1 then "Red" else if key =? 2 then "Green" else "Blue".

Definition small_europa : EuropaXML.Europa :=
  {| EuropaXML.double := Z;
     EuropaXML.double_nonzero := fun v => negb (v =? 0);
     EuropaXML.double_to_int := fun v => v;
     EuropaXML.show_fixed := fun v => show_int v +:+ ".000000";
     EuropaXML.LabelStr_toString := label_of;
     EuropaXML.Object_getName := label_of;
     EuropaXML.LabelStr_isString := fun _ => true;
     EuropaXML.double_eqb := Z.eqb;
     EuropaXML.PLUS_INFINITY := 1000000;
     EuropaXML.MINUS_INFINITY := -1000000;
     EuropaXML.BoolDomain_typeName := "bool";
     EuropaXML.IntervalIntDomain_typeName := "int";
     EuropaXML.symbolic_default := true |}.

#[local] Existing Instance small_europa.

(** The enumerated domain of type [Color] that holds no value. *)
Definition empty_color : @EuropaXML.AbstractDomain small_europa :=
  {| EuropaXML.getTypeName := "Color";
     EuropaXML.isEntity := false; EuropaXML.isNumeric := false;
     EuropaXML.isEmpty := true; EuropaXML.isSingleton := false;
     EuropaXML.isEnumerated := true; EuropaXML.isInterval := false;
     EuropaXML.getSingletonValue := 0; EuropaXML.getValues := [];
     EuropaXML.getLowerBound := 0; EuropaXML.getUpperBound := 0 |}.

(** An enumerated domain of type [Color] that is open: it is not empty
    though no value is listed yet. *)
Definition open_color : @EuropaXML.AbstractDomain small_europa :=
  {| EuropaXML.getTypeName := "Color";
     EuropaXML.isEntity := false; EuropaXML.isNumeric := false;
     EuropaXML.isEmpty := false; EuropaXML.isSingleton := false;
     EuropaXML.isEnumerated := true; EuropaXML.isInterval := false;
     EuropaXML.getSingletonValue := 0; EuropaXML.getValues := [];
     EuropaXML.getLowerBound := 0; EuropaXML.getUpperBound := 0 |}.

(** The enumerated domain of type [Color] with the values [Red] and [Green]. *)
Definition two_colors : @EuropaXML.AbstractDomain small_europa :=
  {| EuropaXML.getTypeName := "Color";
     EuropaXML.isEntity := false; EuropaXML.isNumeric := false;
     EuropaXML.isEmpty := false; EuropaXML.isSingleton := false;
     EuropaXML.isEnumerated := true; EuropaXML.isInterval := false;
     EuropaXML.getSingletonValue := 0; EuropaXML.getValues := [1; 2];
     EuropaXML.getLowerBound := 1; EuropaXML.getUpperBound := 2 |}.

(** The singleton domain of type [int] that holds 42. *)
Definition forty_two : @EuropaXML.AbstractDomain small_europa :=
  {| EuropaXML.getTypeName := "int";
     EuropaXML.isEntity := false; EuropaXML.isNumeric := true;
     EuropaXML.isEmpty := false; EuropaXML.isSingleton := true;
     EuropaXML.isEnumerated := false; EuropaXML.isInterval := true;
     EuropaXML.getSingletonValue := 42; EuropaXML.getValues := [42];
     EuropaXML.getLowerBound := 42; EuropaXML.getUpperBound := 42 |}.

(** An observation with one parameter, whose domain is empty. *)
Definition void_observation : @Observer.Observation small_europa :=
  {| Observer.m_parameterCount := 1;
     Observer.m_objectName := "camera";
     Observer.m_predicateName := "Seen";
     Observer.parameter := fun _ => ("color", empty_color) |}.

(** An observation with two parameters. *)
Definition seen_observation : @Observer.Observation small_europa :=
  {| Observer.m_parameterCount := 2;
     Observer.m_objectName := "camera";
     Observer.m_predicateName := "Seen";
     Observer.parameter := fun i =>
       match i with
       | O => ("count", forty_two)
       | _ => ("color", two_colors)
       end |}.

(** A single reactor that observes a timeline nobody owns. *)
Definition orphan_modes (r : nat) : list LabelStr * list LabelStr :=
  match r with
  | O => (["ghost"], ["x_tl"])
  | _ => ([], [])
  end.

Definition orphan_owner (timeline : LabelStr) : option nat :=
  if String.eqb timeline "x_tl" then Some 0%nat else None.

(** Factories that allocate the reactor whose id is their own key, and a
    map whose first entry is the first of its list of entries. *)
Definition numbered_factory (key : positive) (agentName : LabelStr)
    (configData : TinyXML.TiXmlElement) : result nat := Ok (Pos.to_nat key).



(** A configuration without [lookAhead]. *)
Definition patient_config : TinyXML.TiXmlElement :=
  TinyXML.Element "TeleoReactor" [("name", "nav"); ("latency", "5")] [].

(** The interval from 0 to 10 of type [int]. *)
Definition zero_to_ten : @EuropaXML.AbstractDomain small_europa :=
  {| EuropaXML.getTypeName := "int";
     EuropaXML.isEntity := false; EuropaXML.isNumeric := true;
     EuropaXML.isEmpty := false; EuropaXML.isSingleton := false;
     EuropaXML.isEnumerated := false; EuropaXML.isInterval := true;
     EuropaXML.getSingletonValue := 0; EuropaXML.getValues := [];
     EuropaXML.getLowerBound := 0; EuropaXML.getUpperBound := 10 |}.

(** The singleton domain of type [bool] that holds [true]. *)
Definition truth : @EuropaXML.AbstractDomain small_europa :=
  {| EuropaXML.getTypeName := "bool";
     EuropaXML.isEntity := false; EuropaXML.isNumeric := true;
     EuropaXML.isEmpty := false; EuropaXML.isSingleton := true;
     EuropaXML.isEnumerated := false; EuropaXML.isInterval := true;
     EuropaXML.getSingletonValue := 1; EuropaXML.getValues := [1];
     EuropaXML.getLowerBound := 1; EuropaXML.getUpperBound := 1 |}.

(** The singleton domain of type [Color] that holds [Green]. *)
Definition green : @EuropaXML.AbstractDomain small_europa :=
  {| EuropaXML.getTypeName := "Color";
     EuropaXML.isEntity := false; EuropaXML.isNumeric := false;
     EuropaXML.isEmpty := false; EuropaXML.isSingleton := true;
     EuropaXML.isEnumerated := true; EuropaXML.isInterval := false;
     EuropaXML.getSingletonValue := 2; EuropaXML.getValues := [2];
     EuropaXML.getLowerBound := 2; EuropaXML.getUpperBound := 2 |}.

(** The singleton domain of type [INT_INTERVAL] that holds -7. *)
Definition minus_seven : @EuropaXML.AbstractDomain small_europa :=
  {| EuropaXML.getTypeName := "INT_INTERVAL";
     EuropaXML.isEntity := false; EuropaXML.isNumeric := true;
     EuropaXML.isEmpty := false; EuropaXML.isSingleton := true;
     EuropaXML.isEnumerated := false; EuropaXML.isInterval := true;
     EuropaXML.getSingletonValue := -7; EuropaXML.getValues := [-7];
     EuropaXML.getLowerBound := -7; EuropaXML.getUpperBound := -7 |}.

End Examples.

(** * Properties *)

(** ** The step clock *)

Module PseudoClockFacts.
Import PseudoClock.

Lemma tick_advance (k j : Z) :
  1 <= k -> 0 <= j ->
  (if (j + 1) mod k =? 0 then j / k + 1 else j / k) = (j + 1) / k.
Proof.
  intros Hk Hj. destruct (Z.eqb_spec ((j + 1) mod k) 0) as [E | E];
    Z.div_mod_to_equations; nia.
Qed.

(** From a state in which [j] calls were counted and the visible tick is
    [j / k], the next calls answer [j / k], [(j + 1) / k], ... *)
Lemma poll_from (n : nat) (c : t) (i : nat) :
  1 <= m_stepsPerTick c -> 0 <= m_internalTicks c ->
  m_tick c = m_internalTicks c / m_stepsPerTick c ->
  (i < n)%nat ->
  poll n c !! i = Some ((m_internalTicks c + Z.of_nat i) / m_stepsPerTick c).
Proof.
  revert c i. induction n as [| n IH]; intros c i Hk Hj Ht Hi; [lia |].
  cbn [poll getNextTick]. destruct i as [| i]; cbn [lookup list_lookup].
  - rewrite Ht. do 2 f_equal. lia.
  - rewrite IH; cbn [m_stepsPerTick m_internalTicks m_tick]; try lia.
    + do 2 f_equal. lia.
    + rewrite Ht. apply tick_advance; lia.
Qed.

End PseudoClockFacts.

(** C4.  The step clock built with [steps_per_tick = k >= 1] answers its
    [i]-th call (counting from 1) with [floor ((i - 1) / k)], whatever the
    sleep time it was given: the call of index [i] (counting from 0) answers
    [i / k].  With [k = 3] twelve calls answer 0,0,0,1,1,1,2,2,2,3,3,3 and
    with [k = 2] six calls answer 0,0,1,1,2,2. *)
Theorem pseudo_clock_tick_sequence (sleepSeconds : Q) (k : Z) (n i : nat) :
  1 <= k -> (i < n)%nat ->
  PseudoClock.poll n (PseudoClock.make sleepSeconds k) !! i = Some (Z.of_nat i / k)
  /\ PseudoClock.poll 12 (PseudoClock.make sleepSeconds 3)
     = [0; 0; 0; 1; 1; 1; 2; 2; 2; 3; 3; 3]
  /\ PseudoClock.poll 6 (PseudoClock.make sleepSeconds 2) = [0; 0; 1; 1; 2; 2].
Proof.
  intros Hk Hi. split; [| split; reflexivity].
  rewrite PseudoClockFacts.poll_from; cbn; try lia; [reflexivity |].
  symmetry. apply Z.div_0_l. lia.
Qed.

Lemma pseudo_clock_tick_sequence_witness :
  PseudoClock.poll 9 (PseudoClock.make (1 # 2) 4) !! 7%nat = Some (Z.of_nat 7 / 4)
  /\ PseudoClock.poll 12 (PseudoClock.make (1 # 2) 3)
     = [0; 0; 0; 1; 1; 1; 2; 2; 2; 3; 3; 3]
  /\ PseudoClock.poll 6 (PseudoClock.make (1 # 2) 2) = [0; 0; 1; 1; 2; 2].
Proof. apply (pseudo_clock_tick_sequence (1 # 2) 4 9 7); lia. Defined.

(** ** The factory table *)

Module FactoryFacts.
Import Factory.

Lemma registerFactory_taken name factory (lookupTable : table) :
  getFactory name lookupTable <> noId ->
  registerFactory name factory lookupTable = Fatal ("Already registered " +:+ name).
Proof.
  intros H. unfold registerFactory.
  rewrite bool_decide_eq_false_2 by exact H. reflexivity.
Qed.

Lemma registerFactory_fresh name factory (lookupTable : table) :
  lookupTable !! name = None ->
  registerFactory name factory lookupTable = Ok (<[name := factory]> lookupTable).
Proof.
  intros H. unfold registerFactory, getFactory, map_insert. rewrite H.
  rewrite bool_decide_eq_true_2 by reflexivity. reflexivity.
Qed.

Lemma registerFactory_Ok name factory (lookupTable lookupTable' : table) :
  proper lookupTable ->
  registerFactory name factory lookupTable = Ok lookupTable' ->
  lookupTable !! name = None /\ lookupTable' = <[name := factory]> lookupTable.
Proof.
  intros Hp H. destruct (lookupTable !! name) as [g |] eqn:E.
  - rewrite registerFactory_taken in H; [discriminate |].
    unfold getFactory. rewrite E. eauto.
  - rewrite registerFactory_fresh in H by exact E. split; congruence.
Qed.

Lemma register_all_bindings regs : forall (t0 t1 : table),
  Forall (fun p => p.2 <> noId) regs -> proper t0 ->
  register_all regs t0 = Ok t1 ->
  proper t1 /\
  forall name factory,
    t1 !! name = Some factory <-> t0 !! name = Some factory \/ (name, factory) ∈ regs.
Proof.
  induction regs as [| [n f] regs IH]; intros t0 t1 Hv Hp H; cbn in H.
  - injection H as <-. split; [exact Hp |]. intros name factory.
    rewrite elem_of_nil. tauto.
  - destruct (registerFactory n f t0) as [t' | | |] eqn:E; try discriminate.
    apply registerFactory_Ok in E as [Hfree ->]; [| exact Hp].
    apply Forall_cons in Hv as [Hf Hv]. cbn in Hf.
    apply IH in H as [Hp1 Hb]; [| exact Hv |].
    + split; [exact Hp1 |]. intros name factory. rewrite Hb, elem_of_cons.
      destruct (decide (n = name)) as [-> | Hne].
      * rewrite lookup_insert_eq, Hfree. split.
        -- intros [[= ->] | ?]; auto.
        -- intros [? | [[= <-] | ?]]; [discriminate | auto | auto].
      * rewrite lookup_insert_ne by exact Hne. split.
        -- intros [? | ?]; auto.
        -- intros [? | [[= ? ?] | ?]]; [auto | congruence | auto].
    + intros name factory. destruct (decide (n = name)) as [-> | Hne].
      * rewrite lookup_insert_eq. congruence.
      * rewrite lookup_insert_ne by exact Hne. apply Hp.
Qed.

End FactoryFacts.

(** C9.  Let [lookupTable] be the table after the factories [regs] were
    registered, each under its name with its handle.  [registerFactory] stops
    with "Already registered" and the name when a factory is registered under
    the name, and otherwise adds the binding of the name to the factory;
    [getFactory] answers [noId()] for a name under which nothing was
    registered and the registered factory for a name that was registered. *)
Theorem factory_table_lookup
    (regs : list (LabelStr * Factory.Id)) (lookupTable : gmap string Factory.Id)
    (name : LabelStr) (factory : Factory.Id) :
  Forall (fun p => p.2 <> Factory.noId) regs ->
  Factory.register_all regs Factory.initial = Ok lookupTable ->
  (name ∈ regs.*1 ->
     Factory.registerFactory name factory lookupTable
     = Fatal ("Already registered " +:+ name))
  /\ (name ∉ regs.*1 ->
     Factory.registerFactory name factory lookupTable
     = Ok (<[name := factory]> lookupTable)
     /\ Factory.getFactory name (<[name := factory]> lookupTable) = factory)
  /\ (name ∉ regs.*1 -> Factory.getFactory name lookupTable = Factory.noId)
  /\ (forall registered, (name, registered) ∈ regs ->
        Factory.getFactory name lookupTable = registered).
Proof.
  intros Hv H.
  apply FactoryFacts.register_all_bindings in H as [Hp Hb]; [| exact Hv |].
  2: { intros n f. unfold Factory.initial. rewrite lookup_empty. discriminate. }
  assert (Hnone : name ∉ regs.*1 -> lookupTable !! name = None).
  { intros Hn. destruct (lookupTable !! name) as [g |] eqn:E; [| reflexivity].
    apply Hb in E as [E | E].
    - unfold Factory.initial in E. rewrite lookup_empty in E. discriminate.
    - exfalso. apply Hn. apply list_elem_of_fmap. exists (name, g). auto. }
  assert (Hsome : forall g, (name, g) ∈ regs -> lookupTable !! name = Some g).
  { intros g Hg. apply Hb. auto. }
  repeat split.
  - intros Hin. apply list_elem_of_fmap in Hin as [[n g] [-> Hg]]. cbn in *.
    apply FactoryFacts.registerFactory_taken. unfold Factory.getFactory.
    rewrite (Hsome g Hg). apply (Hp n g). auto.
  - apply FactoryFacts.registerFactory_fresh. auto.
  - unfold Factory.getFactory. rewrite lookup_insert_eq. reflexivity.
  - intros Hn. unfold Factory.getFactory. rewrite Hnone by exact Hn. reflexivity.
  - intros g Hg. unfold Factory.getFactory. rewrite (Hsome g Hg). reflexivity.
Qed.

Lemma factory_table_lookup_witness :
  ("DbCore" ∈ Examples.two_factories.*1 ->
     Factory.registerFactory "DbCore" (Factory.handle 3) Examples.two_factories_table
     = Fatal ("Already registered " +:+ "DbCore"))
  /\ ("DbCore" ∉ Examples.two_factories.*1 ->
     Factory.registerFactory "DbCore" (Factory.handle 3) Examples.two_factories_table
     = Ok (<["DbCore" := Factory.handle 3]> Examples.two_factories_table)
     /\ Factory.getFactory "DbCore"
          (<["DbCore" := Factory.handle 3]> Examples.two_factories_table)
        = Factory.handle 3)
  /\ ("DbCore" ∉ Examples.two_factories.*1 ->
      Factory.getFactory "DbCore" Examples.two_factories_table = Factory.noId)
  /\ (forall registered, ("DbCore", registered) ∈ Examples.two_factories ->
        Factory.getFactory "DbCore" Examples.two_factories_table = registered).
Proof.
  apply (factory_table_lookup Examples.two_factories Examples.two_factories_table
           "DbCore" (Factory.handle 3)).
  - repeat constructor; discriminate.
  - reflexivity.
Defined.

(** ** Machine integers *)

Lemma to_int_small (z : Z) : - 2 ^ 31 <= z <= INT_MAX -> to_int z = z.
Proof.
  unfold to_int, INT_MAX. intros H. rewrite Z.mod_small by lia. lia.
Qed.

(** ** Reactor priorities *)

Module PriorityFacts.
Import Priority.

Section Agent.

Variable queryTimelineModes : TeleoReactorId -> list LabelStr * list LabelStr.
Variable getReactorCount : Z.
Variable getOwner : LabelStr -> option TeleoReactorId.

Local Abbreviation externals := (externals queryTimelineModes).
Local Abbreviation depends := (depends queryTimelineModes getOwner).
Local Abbreviation priority_loop := (priority_loop getOwner).
Local Abbreviation getPriority_fuel := (getPriority_fuel queryTimelineModes getReactorCount getOwner).
Local Abbreviation getPriority := (getPriority queryTimelineModes getReactorCount getOwner).
Local Abbreviation agent_of := (agent_of queryTimelineModes getReactorCount getOwner).
Local Abbreviation owner_priority := (owner_priority getOwner).

(** *** The loop over the external timelines *)

Lemma priority_loop_Ok recurse timelines : forall priority m,
  priority_loop recurse timelines priority = Ok m <->
  exists ps, Forall2 (owner_priority recurse) timelines ps
             /\ m = foldl Z.max priority ps.
Proof.
  induction timelines as [| t ts IH]; intros priority m; cbn.
  - split.
    + intros [= <-]. exists []. split; [constructor | reflexivity].
    + intros (ps & Hps & ->). inversion Hps. reflexivity.
  - split.
    + destruct (getOwner t) as [S |] eqn:Eo; [| discriminate].
      destruct (recurse S) as [p | | |] eqn:Er; cbn; try discriminate.
      intros H. apply IH in H as (ps & Hps & ->).
      exists (p :: ps). split; [| reflexivity].
      constructor; [exists S; auto | exact Hps].
    + intros (ps & Hps & ->). inversion Hps as [| ? p ? ps' (S & Eo & Er) Hps']; subst.
      rewrite Eo, Er. cbn. apply IH. exists ps'. auto.
Qed.

(** A loop that does not complete stops at the first timeline without
    owner, or with what the call on an owner answered. *)
Lemma priority_loop_stops recurse timelines : forall priority r,
  priority_loop recurse timelines priority = r ->
  (forall m, r <> Ok m) ->
  (exists timeline, timeline ∈ timelines /\ getOwner timeline = None
                    /\ r = Fatal ("Invalid id for " +:+ timeline))
  \/ (exists timeline S, timeline ∈ timelines /\ getOwner timeline = Some S
                         /\ recurse S = r).
Proof.
  induction timelines as [| t ts IH]; intros priority r H Hr; cbn in H.
  - exfalso. apply (Hr priority). auto.
  - destruct (getOwner t) as [S |] eqn:Eo.
    + destruct (recurse S) as [p | msg | |] eqn:Er; cbn in H.
      * apply IH in H as [(t' & Hin & Ho & Hm) | (t' & S' & Hin & Ho & Hc)]; [| | exact Hr].
        -- left. exists t'. split; [apply elem_of_cons; auto | auto].
        -- right. exists t', S'. split; [apply elem_of_cons; auto | auto].
      * right. exists t, S. split; [apply elem_of_cons; auto | split; congruence].
      * right. exists t, S. split; [apply elem_of_cons; auto | split; congruence].
      * right. exists t, S. split; [apply elem_of_cons; auto | split; congruence].
    + left. exists t. split; [apply elem_of_cons; auto | auto].
Qed.

Lemma foldl_max_ge (ps : list Z) : forall a, a <= foldl Z.max a ps.
Proof.
  induction ps as [| p ps IH]; intros a; cbn; [lia |].
  specialize (IH (Z.max a p)). lia.
Qed.

Lemma foldl_max_le (ps : list Z) : forall a b,
  a <= b -> Forall (fun p => p <= b) ps -> foldl Z.max a ps <= b.
Proof.
  induction ps as [| p ps IH]; intros a b Ha Hps; cbn; [lia |].
  apply Forall_cons in Hps as [Hp Hps]. apply IH; [lia | exact Hps].
Qed.

(** The value of [priority] after the loop is the greatest of the
    priorities met, when there is one and none is negative. *)
Lemma foldl_max_greatest (ps : list Z) :
  ps <> [] -> Forall (fun p => 0 <= p) ps ->
  foldl Z.max 0 ps ∈ ps /\ forall p, p ∈ ps -> p <= foldl Z.max 0 ps.
Proof.
  intros Hne Hpos.
  assert (G : forall (l : list Z) a,
             (foldl Z.max a l = a \/ foldl Z.max a l ∈ l)
             /\ forall p, p ∈ l -> p <= foldl Z.max a l).
  { induction l as [| p l IH]; intros a; cbn.
    - split; [auto | intros p Hp; inversion Hp].
    - destruct (IH (Z.max a p)) as [[E | E] Hub].
      + split.
        * rewrite E. destruct (Z.max_spec a p) as [[_ ->] | [_ ->]];
            [right; apply elem_of_cons; auto | auto].
        * intros q [E' | Hq]%elem_of_cons; [| auto].
          pose proof (foldl_max_ge l (Z.max a p)). lia.
      + split.
        * right. apply elem_of_cons. auto.
        * intros q [E' | Hq]%elem_of_cons; [| auto].
          pose proof (foldl_max_ge l (Z.max a p)). lia. }
  destruct (G ps 0) as [[E | E] Hub]; split; auto.
  destruct ps as [| p ps]; [congruence |].
  apply Forall_cons in Hpos as [Hp _].
  assert (p <= foldl Z.max 0 (p :: ps)) by (apply Hub, elem_of_cons; auto).
  assert (p = 0) as -> by lia. rewrite E. apply elem_of_cons. auto.
Qed.

(** *** The recursion *)

Lemma getPriority_fuel_unfold fuel R callCount :
  getPriority_fuel (S fuel) R callCount =
  (checkError (callCount <? getReactorCount) cycle_detected ;;
   match externals R with
   | [] => Ok 0
   | _ => priority ← priority_loop
            (fun owner => getPriority_fuel fuel owner (to_int (callCount + 1)))
            (externals R) 0;
          Ok (to_int (1 + priority))
   end).
Proof.
  cbn [Priority.getPriority_fuel]. unfold Priority.externals.
  destruct (queryTimelineModes R) as [ext int]. reflexivity.
Qed.

(** The cases of one call: the guard stops it, the reactor is a leaf, or
    the loop ran. *)
Lemma getPriority_fuel_cases fuel R callCount :
  (getReactorCount <= callCount
   /\ getPriority_fuel (S fuel) R callCount = Fatal cycle_detected)
  \/ (callCount < getReactorCount /\ externals R = []
      /\ getPriority_fuel (S fuel) R callCount = Ok 0)
  \/ (callCount < getReactorCount /\ externals R <> []
      /\ getPriority_fuel (S fuel) R callCount =
         (priority ← priority_loop
            (fun owner => getPriority_fuel fuel owner (to_int (callCount + 1)))
            (externals R) 0;
          Ok (to_int (1 + priority)))).
Proof.
  rewrite getPriority_fuel_unfold.
  destruct (Z.ltb_spec callCount getReactorCount) as [Hlt | Hge]; cbn.
  - right. destruct (externals R) as [| t ts] eqn:E.
    + left. auto.
    + right. repeat split; [exact Hlt | discriminate].
  - left. auto.
Qed.

(** A priority that is returned lies between 0 and the depth left. *)
Lemma getPriority_fuel_bounds fuel : forall R callCount p,
  0 <= callCount -> getReactorCount <= INT_MAX ->
  getPriority_fuel fuel R callCount = Ok p ->
  0 <= p <= getReactorCount - 1 - callCount.
Proof.
  induction fuel as [| fuel IH]; intros R c p Hc Hn H; [discriminate |].
  destruct (getPriority_fuel_cases fuel R c)
    as [[_ E] | [(Hlt & _ & E) | (Hlt & Hne & E)]]; rewrite E in H.
  - discriminate.
  - injection H as <-. lia.
  - destruct (priority_loop _ (externals R) 0) as [m | | |] eqn:El; try discriminate.
    cbn in H. injection H as <-.
    apply priority_loop_Ok in El as (ps & Hps & ->).
    rewrite to_int_small in Hps by (unfold INT_MAX in *; lia).
    assert (Hb : Forall (fun q => q <= getReactorCount - 2 - c) ps).
    { clear -Hps IH Hc Hn. induction Hps as [| t q ts qs (S & _ & Hq) _ IHps];
        constructor; [| exact IHps].
      apply IH in Hq; lia. }
    pose proof (foldl_max_ge ps 0).
    pose proof (foldl_max_le ps 0 (getReactorCount - 2 - c)) as Hub.
    destruct ps as [| q qs].
    { inversion Hps; subst. congruence. }
    assert (0 <= getReactorCount - 2 - c).
    { inversion Hps as [| ? ? ? ? (S & _ & Hq) _]; subst.
      apply IH in Hq; lia. }
    specialize (Hub ltac:(lia) Hb).
    rewrite to_int_small by (unfold INT_MAX in *; lia). lia.
Qed.

(** More fuel and a smaller call count do not change a priority that is
    returned. *)
Lemma getPriority_fuel_mono fuel : forall fuel' R callCount callCount' p,
  (fuel <= fuel')%nat -> 0 <= callCount' <= callCount ->
  getReactorCount <= INT_MAX ->
  getPriority_fuel fuel R callCount = Ok p ->
  getPriority_fuel fuel' R callCount' = Ok p.
Proof.
  induction fuel as [| fuel IH]; intros fuel' R c c' p Hf Hc Hn H; [discriminate |].
  destruct fuel' as [| fuel']; [lia |].
  destruct (getPriority_fuel_cases fuel R c)
    as [[_ E] | [(Hlt & Hnil & E) | (Hlt & Hne & E)]]; rewrite E in H.
  - discriminate.
  - injection H as <-.
    destruct (getPriority_fuel_cases fuel' R c')
      as [[G _] | [(_ & _ & E') | (_ & Hne' & _)]]; [| exact E' | congruence].
    lia.
  - destruct (getPriority_fuel_cases fuel' R c')
      as [[G _] | [(_ & Hnil' & _) | (_ & _ & E')]]; [| congruence |].
    { lia. }
    rewrite E'.
    destruct (priority_loop _ (externals R) 0) as [m | | |] eqn:El; try discriminate.
    cbn in H. injection H as <-.
    apply priority_loop_Ok in El as (ps & Hps & ->).
    rewrite to_int_small in Hps by (unfold INT_MAX in *; lia).
    assert (El' : priority_loop
              (fun owner => getPriority_fuel fuel' owner (to_int (c' + 1)))
              (externals R) 0 = Ok (foldl Z.max 0 ps)).
    { apply priority_loop_Ok. exists ps. split; [| reflexivity].
      rewrite to_int_small by (unfold INT_MAX in *; lia).
      eapply Forall2_impl; [exact Hps |].
      intros t q (S & Eo & Hq). exists S. split; [exact Eo |].
      eapply IH; [| | exact Hn | exact Hq]; lia. }
    rewrite El'. reflexivity.
Qed.

(** The fuel that [getPriority] supplies is never used up. *)
Lemma getPriority_fuel_enough fuel : forall R callCount,
  0 <= callCount -> getReactorCount <= INT_MAX ->
  (Z.to_nat (getReactorCount - callCount) < fuel)%nat ->
  getPriority_fuel fuel R callCount <> OutOfFuel.
Proof.
  induction fuel as [| fuel IH]; intros R c Hc Hn Hf; [lia |].
  destruct (getPriority_fuel_cases fuel R c)
    as [[_ E] | [(Hlt & _ & E) | (Hlt & Hne & E)]]; rewrite E; try discriminate.
  destruct (priority_loop _ (externals R) 0) as [m | msg | |] eqn:El; try discriminate.
  exfalso.
  apply priority_loop_stops in El as [(t & _ & _ & ?) | (t & S & _ & _ & Hr)];
    [discriminate | | discriminate].
  rewrite to_int_small in Hr by (unfold INT_MAX in *; lia).
  apply IH in Hr; [exact Hr | lia | exact Hn | lia].
Qed.

(** *** Failures and the dependency graph *)

Lemma invalid_id_not_cycle (timeline : LabelStr) :
  Fatal (A := Z) ("Invalid id for " +:+ timeline) <> Fatal cycle_detected.
Proof. cbn. discriminate. Qed.

(** Among the reactors of an agent the only failure is the guard. *)
Lemma getPriority_fuel_Fatal agentReactors fuel : forall R callCount msg,
  agent_of agentReactors -> R ∈ agentReactors -> 0 <= callCount ->
  getPriority_fuel fuel R callCount = Fatal msg -> msg = cycle_detected.
Proof.
  intros R c msg Hag. revert R c msg.
  induction fuel as [| fuel IH]; intros R c msg HR Hc H; [discriminate |].
  destruct (getPriority_fuel_cases fuel R c)
    as [[_ E] | [(Hlt & _ & E) | (Hlt & Hne & E)]]; rewrite E in H;
    [congruence | discriminate |].
  destruct (priority_loop _ (externals R) 0) as [m | msg' | |] eqn:El; try discriminate.
  cbn in H. injection H as <-.
  apply priority_loop_stops in El as [(t & Hin & Ho & _) | (t & S & Hin & Ho & Hr)];
    [| | discriminate].
  - destruct (agent_owner _ _ _ _ Hag R t HR Hin) as (S & Ho' & _). congruence.
  - destruct (agent_owner _ _ _ _ Hag R t HR Hin) as (S' & Ho' & HS).
    assert (S' = S) as -> by congruence.
    pose proof (agent_count_int _ _ _ _ Hag).
    rewrite to_int_small in Hr by (unfold INT_MAX in *; lia).
    eapply IH; [exact HS | | exact Hr]. lia.
Qed.

(** When the guard stops the recursion entered with [callCount], a chain
    of [getReactorCount - callCount] dependencies starts at the reactor. *)
Lemma getPriority_fuel_cycle_chain fuel : forall R callCount,
  0 <= callCount -> getReactorCount <= INT_MAX ->
  getPriority_fuel fuel R callCount = Fatal cycle_detected ->
  exists S, nsteps depends (Z.to_nat (getReactorCount - callCount)) R S.
Proof.
  induction fuel as [| fuel IH]; intros R c Hc Hn H; [discriminate |].
  destruct (getPriority_fuel_cases fuel R c)
    as [[Hge E] | [(Hlt & _ & E) | (Hlt & Hne & E)]]; rewrite E in H.
  - exists R. replace (Z.to_nat (getReactorCount - c)) with O by lia. constructor.
  - discriminate.
  - destruct (priority_loop _ (externals R) 0) as [m | msg' | |] eqn:El; try discriminate.
    cbn in H. injection H as ->.
    apply priority_loop_stops in El as [(t & _ & _ & Hm) | (t & S & Hin & Ho & Hr)];
      [| | discriminate].
    + exfalso. exact (invalid_id_not_cycle t (eq_sym Hm)).
    + rewrite to_int_small in Hr by (unfold INT_MAX in *; lia).
      apply IH in Hr as [S' Hchain]; [| lia | exact Hn].
      exists S'.
      replace (Z.to_nat (getReactorCount - c))
        with (Datatypes.S (Z.to_nat (getReactorCount - (c + 1)))) by lia.
      econstructor; [| exact Hchain]. exists t. auto.
Qed.

(** In an acyclic graph a chain of [k] dependencies visits [k + 1]
    different reactors of the agent. *)
Lemma chain_distinct agentReactors k : forall R S,
  agent_of agentReactors -> Priority.acyclic queryTimelineModes getOwner ->
  R ∈ agentReactors -> nsteps depends k R S ->
  exists visited : list TeleoReactorId,
    length visited = Datatypes.S k /\ NoDup visited
    /\ forall x, x ∈ visited -> x ∈ agentReactors /\ rtc depends R x.
Proof.
  intros R S Hag Hac. revert R S.
  induction k as [| k IH]; intros R S HR Hch.
  - exists [R]. repeat split.
    + apply NoDup_singleton.
    + apply list_elem_of_singleton in H. congruence.
    + apply list_elem_of_singleton in H. subst. constructor.
  - inversion Hch as [| ? ? R' ? Hd Hch']; subst.
    destruct Hd as (t & Hin & Ho).
    destruct (agent_owner _ _ _ _ Hag R t HR Hin) as (S' & Ho' & HS').
    assert (S' = R') as -> by congruence.
    destruct (IH R' S HS' Hch') as (visited & Hlen & Hnd & Hv).
    assert (Hd : depends R R') by (exists t; auto).
    exists (R :: visited). repeat split.
    + cbn. lia.
    + constructor; [| exact Hnd]. intros HRv.
      apply (Hac R). eapply tc_rtc_r; [apply tc_once, Hd | apply Hv, HRv].
    + apply elem_of_cons in H as [-> | H]; [exact HR | apply Hv, H].
    + apply elem_of_cons in H as [-> | H]; [constructor |].
      eapply rtc_l; [exact Hd | apply Hv, H].
Qed.

(** No chain of dependencies is as long as the agent has reactors. *)
Lemma chain_short agentReactors k R S :
  agent_of agentReactors -> Priority.acyclic queryTimelineModes getOwner ->
  R ∈ agentReactors -> nsteps depends k R S ->
  (k < length agentReactors)%nat.
Proof.
  intros Hag Hac HR Hch.
  destruct (chain_distinct agentReactors k R S Hag Hac HR Hch)
    as (visited & Hlen & Hnd & Hv).
  assert (Hsub : visited ⊆+ agentReactors).
  { apply NoDup_submseteq; [exact Hnd | intros x Hx; apply Hv, Hx]. }
  apply submseteq_length in Hsub. lia.
Qed.

(** A reactor that reaches a cycle depends on one that reaches a cycle. *)
Lemma reaches_cycle_step R :
  reaches_cycle queryTimelineModes getOwner R ->
  exists R', depends R R' /\ reaches_cycle queryTimelineModes getOwner R'.
Proof.
  intros (S & Hreach & Hcyc). destruct Hreach as [C | R R' S Hd Hreach].
  - inversion Hcyc as [? ? Hd | ? C' ? Hd Hrest]; subst.
    + exists C. split; [exact Hd |]. exists C. split; [constructor | exact Hcyc].
    + exists C'. split; [exact Hd |]. exists C.
      split; [apply tc_rtc, Hrest | exact Hcyc].
  - exists R'. split; [exact Hd |]. exists S. auto.
Qed.

(** No priority is returned for a reactor that reaches a cycle. *)
Lemma getPriority_fuel_cycle_not_Ok fuel : forall R callCount p,
  reaches_cycle queryTimelineModes getOwner R ->
  getPriority_fuel fuel R callCount <> Ok p.
Proof.
  induction fuel as [| fuel IH]; intros R c p Hcyc H; [discriminate |].
  apply reaches_cycle_step in Hcyc as (R' & (t & Hin & Ho) & Hcyc').
  destruct (getPriority_fuel_cases fuel R c)
    as [[_ E] | [(_ & Hnil & _) | (_ & _ & E)]]; try rewrite E in H.
  - discriminate.
  - rewrite Hnil in Hin. inversion Hin.
  - destruct (priority_loop _ (externals R) 0) as [m | | |] eqn:El; try discriminate.
    apply priority_loop_Ok in El as (ps & Hps & _).
    apply list_elem_of_lookup in Hin as [i Hi].
    destruct (Forall2_lookup_l _ _ _ _ _ Hps Hi) as (q & _ & S & Ho' & Hq).
    assert (S = R') as -> by congruence.
    exact (IH R' _ q Hcyc' Hq).
Qed.

Lemma getPriority_fuel_defined fuel : forall R callCount,
  getPriority_fuel fuel R callCount <> Undefined.
Proof.
  induction fuel as [| fuel IH]; intros R c; [discriminate |].
  destruct (getPriority_fuel_cases fuel R c)
    as [[_ E] | [(_ & _ & E) | (_ & _ & E)]]; rewrite E; try discriminate.
  destruct (priority_loop _ (externals R) 0) as [m | msg | |] eqn:El; try discriminate.
  exfalso.
  apply priority_loop_stops in El as [(t & _ & _ & ?) | (t & S & _ & _ & Hr)];
    [discriminate | | discriminate].
  exact (IH _ _ Hr).
Qed.

(** *** [getPriority()] on the reactors of an agent *)

(** A dependency that leads to a smaller handle each time has no cycle. *)
Lemma acyclic_by_rank :
  (forall R S, depends R S -> (S < R)%nat) ->
  Priority.acyclic queryTimelineModes getOwner.
Proof.
  intros Hrank R Hcyc.
  assert (G : forall A B, tc depends A B -> (B < A)%nat).
  { intros A B HAB. induction HAB as [A B Hd | A B C Hd _ IH].
    - apply Hrank, Hd.
    - apply Hrank in Hd. lia. }
  apply G in Hcyc. lia.
Qed.

Lemma getPriority_acyclic agentReactors R :
  agent_of agentReactors -> Priority.acyclic queryTimelineModes getOwner ->
  R ∈ agentReactors ->
  exists p, getPriority R 0 = Ok p.
Proof.
  intros Hag Hac HR.
  pose proof (agent_count_int _ _ _ _ Hag) as Hn.
  unfold Priority.getPriority.
  destruct (getPriority_fuel _ R 0) as [p | msg | |] eqn:E.
  - exists p. reflexivity.
  - exfalso.
    assert (msg = cycle_detected) as ->
      by (eapply getPriority_fuel_Fatal; [exact Hag | exact HR | | exact E]; lia).
    apply getPriority_fuel_cycle_chain in E as [S Hch]; [| lia | exact Hn].
    apply (chain_short agentReactors) in Hch; [| exact Hag | exact Hac | exact HR].
    rewrite (agent_count _ _ _ _ Hag) in Hch. lia.
  - exfalso. exact (getPriority_fuel_defined _ _ _ E).
  - exfalso. apply getPriority_fuel_enough in E; [exact E | lia | exact Hn | lia].
Qed.

(** The recursion of the data model: 0 for a leaf, otherwise one more
    than the greatest priority of the owners of the external timelines. *)
Lemma getPriority_value agentReactors R p :
  agent_of agentReactors -> R ∈ agentReactors ->
  getPriority R 0 = Ok p ->
  match externals R with
  | [] => p = 0
  | _ => exists (ps : list Z) (m : Z),
           Forall2 (owner_priority (fun S => getPriority S 0)) (externals R) ps
           /\ m ∈ ps /\ (forall q, q ∈ ps -> q <= m) /\ p = 1 + m
  end.
Proof.
  intros Hag HR H.
  pose proof (agent_count_int _ _ _ _ Hag) as Hn.
  unfold Priority.getPriority in H.
  replace (getReactorCount - 0) with getReactorCount in H by lia.
  destruct (getPriority_fuel_cases (Z.to_nat getReactorCount) R 0)
    as [[_ E] | [(_ & Hnil & E) | (Hlt & Hne & E)]]; rewrite E in H.
  - discriminate.
  - rewrite Hnil. congruence.
  - destruct (priority_loop _ (externals R) 0) as [m | | |] eqn:El; try discriminate.
    cbn in H. injection H as <-.
    apply priority_loop_Ok in El as (ps & Hps & ->).
    destruct (externals R) as [| t ts] eqn:Eext; [congruence |].
    rewrite to_int_small in Hps by (unfold INT_MAX; lia).
    assert (Hb : Forall (fun q => 0 <= q <= getReactorCount - 2) ps).
    { clear -Hps Hn. induction Hps as [| t' q ts' qs (S & _ & Hq) _ IHps];
        constructor; [| exact IHps].
      apply getPriority_fuel_bounds in Hq; lia. }
    destruct (foldl_max_greatest ps) as [Hin Hub].
    { inversion Hps; subst. discriminate. }
    { eapply Forall_impl; [exact Hb | cbn; lia]. }
    exists ps, (foldl Z.max 0 ps). repeat split; [| exact Hin | exact Hub |].
    + eapply Forall2_impl; [exact Hps |].
      intros t' q (S & Eo & Hq). exists S. split; [exact Eo |].
      unfold Priority.getPriority.
      eapply getPriority_fuel_mono; [| | exact Hn | exact Hq]; lia.
    + apply to_int_small.
      rewrite Forall_forall in Hb. apply Hb in Hin. unfold INT_MAX in *. lia.
Qed.

Lemma getPriority_cycle agentReactors R :
  agent_of agentReactors -> R ∈ agentReactors ->
  reaches_cycle queryTimelineModes getOwner R ->
  getPriority R 0 = Fatal cycle_detected.
Proof.
  intros Hag HR Hcyc.
  pose proof (agent_count_int _ _ _ _ Hag) as Hn.
  unfold Priority.getPriority.
  destruct (getPriority_fuel _ R 0) as [p | msg | |] eqn:E.
  - exfalso. exact (getPriority_fuel_cycle_not_Ok _ _ _ _ Hcyc E).
  - f_equal. eapply getPriority_fuel_Fatal; [exact Hag | exact HR | | exact E]. lia.
  - exfalso. exact (getPriority_fuel_defined _ _ _ E).
  - exfalso. apply getPriority_fuel_enough in E; [exact E | lia | exact Hn | lia].
Qed.

End Agent.

End PriorityFacts.

Module ExampleFacts.
Import Priority Examples.

Lemma pipeline_depends R S :
  depends pipeline_modes pipeline_owner R S -> (S < R)%nat.
Proof.
  intros (t & Hin & Ho). unfold externals in Hin.
  destruct R as [| [| [| R]]]; cbn in Hin.
  - inversion Hin.
  - apply list_elem_of_singleton in Hin as ->. cbn in Ho. injection Ho as <-. lia.
  - apply elem_of_cons in Hin as [-> | Hin].
    + cbn in Ho. injection Ho as <-. lia.
    + apply list_elem_of_singleton in Hin as ->. cbn in Ho. injection Ho as <-. lia.
  - inversion Hin.
Qed.

Lemma pipeline_acyclic : acyclic pipeline_modes pipeline_owner.
Proof. apply PriorityFacts.acyclic_by_rank, pipeline_depends. Qed.

Lemma pipeline_agent : agent_of pipeline_modes 3 pipeline_owner pipeline_reactors.
Proof.
  split; [reflexivity | unfold INT_MAX; lia |].
  intros R t HR Hin. unfold externals in Hin.
  assert (G : forall x, x ∈ pipeline_reactors <-> x = 0%nat \/ x = 1%nat \/ x = 2%nat).
  { intros x. unfold pipeline_reactors.
    rewrite !elem_of_cons, elem_of_nil. tauto. }
  apply G in HR as [-> | [-> | ->]]; cbn in Hin.
  - inversion Hin.
  - apply list_elem_of_singleton in Hin as ->. exists 0%nat. rewrite G. auto.
  - apply elem_of_cons in Hin as [-> | Hin].
    + exists 0%nat. rewrite G. auto.
    + apply list_elem_of_singleton in Hin as ->. exists 1%nat. rewrite G. auto.
Qed.

Lemma pipeline_internals : owns_internals pipeline_modes pipeline_owner pipeline_reactors.
Proof.
  intros S t HS Hin. unfold internals in Hin. unfold pipeline_reactors in HS.
  rewrite !elem_of_cons, elem_of_nil in HS.
  destruct HS as [-> | [-> | [-> | []]]]; cbn in Hin;
    apply list_elem_of_singleton in Hin as ->; reflexivity.
Qed.

Lemma loop_agent : agent_of loop_modes 2 loop_owner loop_reactors.
Proof.
  split; [reflexivity | unfold INT_MAX; lia |].
  intros R t HR Hin. unfold externals in Hin. unfold loop_reactors in *.
  rewrite !elem_of_cons, elem_of_nil in HR.
  destruct HR as [-> | [-> | []]]; cbn in Hin;
    apply list_elem_of_singleton in Hin as ->.
  - exists 1%nat. rewrite !elem_of_cons. auto.
  - exists 0%nat. rewrite !elem_of_cons. auto.
Qed.

Lemma loop_cycle : reaches_cycle loop_modes loop_owner 0%nat.
Proof.
  exists 0%nat. split; [constructor |].
  apply tc_l with 1%nat; [| apply tc_once].
  - exists "y_tl". split; [apply list_elem_of_singleton |]; reflexivity.
  - exists "x_tl". split; [apply list_elem_of_singleton |]; reflexivity.
Qed.

End ExampleFacts.

(** C2.  Let [R] be a reactor of an agent in which every external timeline
    has an owner.  When the dependency graph is acyclic, [getPriority()]
    returns 0 if [R] has no external timeline, and otherwise one more than
    the greatest of the priorities that [getPriority()] returns for the
    owners of the external timelines of [R].  When [R] leads to a cycle of
    the graph, the guard on the recursion depth stops the call with "Cycle
    detected in reactor specification" and no value is returned. *)
Theorem getPriority_recursion
    (queryTimelineModes : nat -> list LabelStr * list LabelStr)
    (getReactorCount : Z) (getOwner : LabelStr -> option nat)
    (agentReactors : list nat) (R : nat) :
  Priority.agent_of queryTimelineModes getReactorCount getOwner agentReactors ->
  R ∈ agentReactors ->
  (Priority.acyclic queryTimelineModes getOwner ->
     match Priority.externals queryTimelineModes R with
     | [] => Priority.getPriority queryTimelineModes getReactorCount getOwner R 0 = Ok 0
     | timelines =>
         exists (ps : list Z) (m : Z),
           Forall2 (fun timeline p => exists S,
                      getOwner timeline = Some S /\
                      Priority.getPriority queryTimelineModes getReactorCount getOwner S 0
                      = Ok p)
                   timelines ps
           /\ m ∈ ps /\ (forall q, q ∈ ps -> q <= m)
           /\ Priority.getPriority queryTimelineModes getReactorCount getOwner R 0
              = Ok (1 + m)
     end)
  /\ (Priority.reaches_cycle queryTimelineModes getOwner R ->
      Priority.getPriority queryTimelineModes getReactorCount getOwner R 0
      = Fatal Priority.cycle_detected).
Proof.
  intros Hag HR. split.
  - intros Hac.
    destruct (PriorityFacts.getPriority_acyclic _ _ _ _ R Hag Hac HR) as [p Hp].
    pose proof (PriorityFacts.getPriority_value _ _ _ _ R p Hag HR Hp) as Hv.
    destruct (Priority.externals queryTimelineModes R) as [| t ts].
    + congruence.
    + destruct Hv as (ps & m & Hps & Hin & Hub & ->). exists ps, m. auto.
  - apply PriorityFacts.getPriority_cycle with agentReactors; assumption.
Qed.

Lemma getPriority_recursion_witness :
  (exists (ps : list Z) (m : Z),
      Forall2 (fun timeline p => exists S,
                 Examples.pipeline_owner timeline = Some S /\
                 Priority.getPriority Examples.pipeline_modes 3 Examples.pipeline_owner S 0
                 = Ok p)
              ["clock"; "nav"] ps
      /\ m ∈ ps /\ (forall q, q ∈ ps -> q <= m)
      /\ Priority.getPriority Examples.pipeline_modes 3 Examples.pipeline_owner 2%nat 0
         = Ok (1 + m))
  /\ Priority.getPriority Examples.loop_modes 2 Examples.loop_owner 0%nat 0
     = Fatal Priority.cycle_detected.
Proof.
  split.
  - apply (proj1 (getPriority_recursion Examples.pipeline_modes 3 Examples.pipeline_owner
                    Examples.pipeline_reactors 2%nat ExampleFacts.pipeline_agent
                    ltac:(unfold Examples.pipeline_reactors; rewrite !elem_of_cons; auto))).
    exact ExampleFacts.pipeline_acyclic.
  - apply (proj2 (getPriority_recursion Examples.loop_modes 2 Examples.loop_owner
                    Examples.loop_reactors 0%nat ExampleFacts.loop_agent
                    ltac:(unfold Examples.loop_reactors; rewrite !elem_of_cons; auto))).
    exact ExampleFacts.loop_cycle.
Defined.

(** ** The priority sort *)

Module SortFacts.
Import Priority SortSpec.

Lemma filter_agree (P Q : nat -> Prop)
    `{forall x, Decision (P x)} `{forall x, Decision (Q x)} (l : list nat) :
  (forall x, x ∈ l -> P x <-> Q x) -> filter P l = filter Q l.
Proof.
  induction l as [| x l IH]; intros HPQ; [reflexivity |].
  rewrite !filter_cons, IH.
  - assert (P x <-> Q x) by (apply HPQ, elem_of_cons; auto).
    repeat case_decide; tauto.
  - intros y Hy. apply HPQ, elem_of_cons. auto.
Qed.

Section Pass.

Variable prio : nat -> Z.

Local Abbreviation bubble := (bubble prio).
Local Abbreviation below := (below prio).
Local Abbreviation inversions := (inversions prio).
Local Abbreviation by_priority := (by_priority prio).

Lemma bubble_length rest : forall x, length (bubble x rest).1 = S (length rest).
Proof.
  induction rest as [| y rest IH]; intros x; cbn; [reflexivity |].
  destruct (prio y <? prio x); cbn; rewrite IH; reflexivity.
Qed.

Lemma bubble_Permutation rest : forall x, (bubble x rest).1 ≡ₚ x :: rest.
Proof.
  induction rest as [| y rest IH]; intros x; cbn; [reflexivity |].
  destruct (prio y <? prio x); cbn.
  - rewrite IH. apply Permutation_swap.
  - rewrite IH. reflexivity.
Qed.

(** A pass keeps the reactors of each priority in their order. *)
Lemma bubble_stable rest : forall x p,
  filter (fun r => prio r = p) (bubble x rest).1
  = filter (fun r => prio r = p) (x :: rest).
Proof.
  induction rest as [| y rest IH]; intros x p; cbn [SortSpec.bubble fst];
    [reflexivity |].
  destruct (Z.ltb_spec (prio y) (prio x)) as [Hlt | Hge]; cbn [fst snd].
  - rewrite (filter_cons _ y), IH, !filter_cons.
    repeat case_decide; try reflexivity. lia.
  - rewrite (filter_cons _ x), IH. rewrite (filter_cons _ x). reflexivity.
Qed.

(** A pass that does not swap found the sequence in order. *)
Lemma bubble_no_swap rest : forall x,
  (bubble x rest).2 = false ->
  (bubble x rest).1 = x :: rest /\ Sorted by_priority (x :: rest).
Proof.
  induction rest as [| y rest IH]; intros x; cbn.
  - intros _. split; [reflexivity | repeat constructor].
  - destruct (Z.ltb_spec (prio y) (prio x)) as [Hlt | Hge]; cbn; [discriminate |].
    intros H. apply IH in H as [-> Hs]. split; [reflexivity |].
    constructor; [exact Hs |]. constructor. exact Hge.
Qed.

Lemma below_Permutation x l l' : l ≡ₚ l' -> below x l = below x l'.
Proof. intros H. unfold SortSpec.below. rewrite H. reflexivity. Qed.

Lemma below_cons x y l :
  below x (y :: l) = ((if decide (prio y < prio x)%Z then 1 else 0) + below x l)%nat.
Proof.
  unfold SortSpec.below. rewrite filter_cons. case_decide; reflexivity.
Qed.

(** A pass does not add inversions, and a pass that swaps removes one. *)
Lemma bubble_inversions rest : forall x,
  (inversions (bubble x rest).1 + (if (bubble x rest).2 then 1 else 0)
   <= inversions (x :: rest))%nat.
Proof.
  induction rest as [| y rest IH]; intros x; cbn [SortSpec.bubble].
  - cbn. lia.
  - destruct (Z.ltb_spec (prio y) (prio x)) as [Hlt | Hge]; cbn [fst snd].
    + specialize (IH x). cbn [SortSpec.inversions] in *.
      rewrite (below_Permutation y _ _ (bubble_Permutation rest x)).
      rewrite !below_cons. repeat case_decide; lia.
    + specialize (IH y). cbn [SortSpec.inversions] in *.
      rewrite (below_Permutation x _ _ (bubble_Permutation rest y)).
      lia.
Qed.

Lemma inversions_bound l : (inversions l <= length l * length l)%nat.
Proof.
  induction l as [| x l IH]; cbn [SortSpec.inversions length]; [lia |].
  assert (below x l <= length l)%nat by apply length_filter. nia.
Qed.

Lemma by_priority_trans : Transitive by_priority.
Proof. intros a b c. unfold SortSpec.by_priority. lia. Qed.

(** In a sorted sequence the priorities grow with the index. *)
Lemma Sorted_lookup l i j a b :
  Sorted by_priority l -> (i <= j)%nat ->
  l !! i = Some a -> l !! j = Some b -> prio a <= prio b.
Proof.
  intros Hs. apply Sorted_StronglySorted in Hs; [| apply by_priority_trans].
  revert i j. induction Hs as [| x l Hs IH Hx]; intros i j Hij Hi Hj.
  - rewrite lookup_nil in Hi. discriminate.
  - destruct i as [| i], j as [| j]; cbn in Hi, Hj.
    + assert (a = b) by congruence. subst. lia.
    + injection Hi as <-. rewrite Forall_forall in Hx.
      apply Hx. apply list_elem_of_lookup. eauto.
    + lia.
    + apply (IH i j); [lia | assumption | assumption].
Qed.

End Pass.

Section Sort.

Variable queryTimelineModes : TeleoReactorId -> list LabelStr * list LabelStr.
Variable getReactorCount : Z.
Variable getOwner : LabelStr -> option TeleoReactorId.
Variable prio : nat -> Z.

Local Abbreviation getPriority := (getPriority queryTimelineModes getReactorCount getOwner).
Local Abbreviation sort_for := (sort_for queryTimelineModes getReactorCount getOwner).
Local Abbreviation sort_while := (sort_while queryTimelineModes getReactorCount getOwner).
Local Abbreviation sort_fuel := (sort_fuel queryTimelineModes getReactorCount getOwner).
Local Abbreviation bubble := (bubble prio).
Local Abbreviation inversions := (inversions prio).
Local Abbreviation priorities_of :=
  (priorities_of queryTimelineModes getReactorCount getOwner prio).

(** The [for] loop, entered at the index of [x], performs the pass. *)
Lemma sort_for_bubble rest : forall pre x swapped,
  priorities_of (x :: rest) ->
  sort_for (length rest) (length pre) (pre ++ x :: rest) swapped
  = Ok (pre ++ (bubble x rest).1, swapped || (bubble x rest).2).
Proof.
  induction rest as [| y rest IH]; intros pre x swapped Hp.
  - cbn. rewrite orb_false_r. reflexivity.
  - cbn [length Priority.sort_for SortSpec.bubble]. unfold at_index.
    rewrite (list_lookup_middle pre (y :: rest) x (length pre)) by reflexivity.
    cbn [mbind result_bind rbind].
    replace (pre ++ x :: y :: rest) with ((pre ++ [x]) ++ y :: rest)
      by (rewrite <- app_assoc; reflexivity).
    rewrite (list_lookup_middle (pre ++ [x]) rest y (length pre + 1))
      by (rewrite length_app; reflexivity).
    cbn [mbind result_bind rbind].
    rewrite (Hp y) by (rewrite !elem_of_cons; auto).
    rewrite (Hp x) by (rewrite !elem_of_cons; auto).
    cbn [mbind result_bind rbind].
    destruct (Z.ltb_spec (prio y) (prio x)) as [Hlt | Hge]; cbn [fst snd].
    + assert (E : <[(length pre + 1)%nat := x]> (<[length pre := y]> ((pre ++ [x]) ++ y :: rest))
                  = (pre ++ [y]) ++ x :: rest).
      { rewrite <- !app_assoc. cbn [app].
        replace (length pre) with (length pre + 0)%nat at 2 by lia.
        rewrite insert_app_r. cbn [insert list_insert].
        rewrite insert_app_r. reflexivity. }
      rewrite E.
      replace (length pre + 1)%nat with (length (pre ++ [y]))
        by (rewrite length_app; reflexivity).
      rewrite IH.
      * rewrite <- app_assoc. rewrite orb_true_r. reflexivity.
      * intros r Hr. apply Hp. rewrite !elem_of_cons in *. tauto.
    + replace (length pre + 1)%nat with (length (pre ++ [x]))
        by (rewrite length_app; reflexivity).
      rewrite IH.
      * rewrite <- app_assoc. reflexivity.
      * intros r Hr. apply Hp. rewrite !elem_of_cons in *. tauto.
Qed.

Lemma sort_while_done fuel count l : sort_while fuel count l false = Ok l.
Proof. destruct fuel; reflexivity. Qed.

Lemma priorities_of_Permutation l l' :
  l ≡ₚ l' -> priorities_of l -> priorities_of l'.
Proof. intros H Hp r Hr. apply Hp. rewrite H. exact Hr. Qed.

(** The [while] loop stops, with the reactors in order, after fewer
    passes than the sequence has inversions, and one more. *)
Lemma sort_while_sorted bound : forall l,
  (inversions l < bound)%nat -> priorities_of l ->
  exists sorted,
    (forall fuel, (bound <= fuel)%nat ->
       sort_while fuel (Z.of_nat (length l) - 1) l true = Ok sorted)
    /\ l ≡ₚ sorted /\ Sorted (by_priority prio) sorted
    /\ forall p, filter (fun r => prio r = p) sorted = filter (fun r => prio r = p) l.
Proof.
  induction bound as [| bound IH]; intros l Hinv Hp; [lia |].
  destruct l as [| x rest].
  - exists []. split; [| repeat split; constructor].
    intros [| fuel] Hfuel; [lia |]. cbn [Priority.sort_while].
    change (Z.to_nat (Z.of_nat (length (@nil nat)) - 1)) with O.
    cbn [Priority.sort_for mbind result_bind rbind]. apply sort_while_done.
  - assert (Hpass : forall fuel,
              sort_while (S fuel) (Z.of_nat (length (x :: rest)) - 1) (x :: rest) true
              = sort_while fuel (Z.of_nat (length (x :: rest)) - 1)
                  (bubble x rest).1 (bubble x rest).2).
    { intros fuel. cbn [Priority.sort_while].
      replace (Z.to_nat (Z.of_nat (length (x :: rest)) - 1)) with (length rest)
        by (cbn [length]; lia).
      pose proof (sort_for_bubble rest [] x false Hp) as E.
      cbn [length app] in E. rewrite E. reflexivity. }
    pose proof (bubble_inversions prio rest x) as Hdec.
    pose proof (bubble_Permutation prio rest x) as Hperm.
    destruct (bubble x rest).2 eqn:Esw.
    + destruct (IH (bubble x rest).1) as (sorted & Hs & Hperm' & Hsorted & Hst).
      * lia.
      * eapply priorities_of_Permutation; [symmetry; exact Hperm | exact Hp].
      * exists sorted. split; [| split; [| split]].
        -- intros [| fuel] Hfuel; [lia |]. rewrite Hpass.
           rewrite <- (Hs fuel) by lia. rewrite bubble_length. reflexivity.
        -- rewrite <- Hperm'. symmetry. exact Hperm.
        -- exact Hsorted.
        -- intros p. rewrite Hst. apply bubble_stable.
    + apply bubble_no_swap in Esw as [E Hsorted].
      exists (x :: rest). split; [| repeat split; [reflexivity | exact Hsorted]].
      intros [| fuel] Hfuel; [lia |]. rewrite Hpass, E. apply sort_while_done.
Qed.

Lemma count_of_size (l : list nat) :
  Z.of_nat (length l) <= INT_MAX + 1 ->
  to_int (to_size_t (Z.of_nat (length l) - 1)) = Z.of_nat (length l) - 1.
Proof.
  unfold INT_MAX, to_size_t. intros H.
  destruct (length l) as [| n].
  - reflexivity.
  - rewrite Z.mod_small by lia. apply to_int_small. unfold INT_MAX. lia.
Qed.

End Sort.

End SortFacts.

(** C1.  Let the agent hold reactors with acyclic dependencies, every
    timeline owned by the reactor to which it is internal, and let [reactors]
    be a vector of some of them that an [int] can index.  [sort] returns: it
    permutes the vector, the priorities of the result do not decrease along
    the indices, the reactors of one priority keep their relative order, and
    a reactor [R] with an external timeline that is internal to a reactor [S]
    stands at a strictly greater index than [S]. *)
Theorem sort_topological_order
    (queryTimelineModes : nat -> list LabelStr * list LabelStr)
    (getReactorCount : Z) (getOwner : LabelStr -> option nat)
    (agentReactors reactors : list nat) :
  Priority.agent_of queryTimelineModes getReactorCount getOwner agentReactors ->
  Priority.owns_internals queryTimelineModes getOwner agentReactors ->
  Priority.acyclic queryTimelineModes getOwner ->
  (forall r, r ∈ reactors -> r ∈ agentReactors) ->
  Z.of_nat (length reactors) <= INT_MAX + 1 ->
  let getPriority := Priority.getPriority queryTimelineModes getReactorCount getOwner in
  exists sorted,
    Priority.sort queryTimelineModes getReactorCount getOwner reactors = Ok sorted
    /\ (forall fuel, (length reactors * length reactors < fuel)%nat ->
          Priority.sort_fuel queryTimelineModes getReactorCount getOwner fuel reactors
          = Ok sorted)
    /\ reactors ≡ₚ sorted
    /\ (forall i j a b, (i <= j)%nat -> sorted !! i = Some a -> sorted !! j = Some b ->
          exists pa pb, getPriority a 0 = Ok pa /\ getPriority b 0 = Ok pb /\ pa <= pb)
    /\ (forall p, filter (fun r => getPriority r 0 = Ok p) sorted
                  = filter (fun r => getPriority r 0 = Ok p) reactors)
    /\ (forall i j R S timeline,
          sorted !! i = Some S -> sorted !! j = Some R ->
          timeline ∈ Priority.externals queryTimelineModes R ->
          timeline ∈ Priority.internals queryTimelineModes S ->
          (i < j)%nat).
Proof.
  intros Hag Hown Hac Hsub Hlen getPriority.
  set (prio := Priority.priority_of queryTimelineModes getReactorCount getOwner).
  assert (Hprio : forall r, r ∈ agentReactors -> getPriority r 0 = Ok (prio r)).
  { intros r Hr.
    destruct (PriorityFacts.getPriority_acyclic _ _ _ _ r Hag Hac Hr) as [p Hp].
    unfold prio, Priority.priority_of. fold getPriority in Hp |- *.
    rewrite Hp. reflexivity. }
  assert (Hp : Priority.priorities_of queryTimelineModes getReactorCount getOwner
                 prio reactors).
  { intros r Hr. apply Hprio, Hsub, Hr. }
  destruct (SortFacts.sort_while_sorted queryTimelineModes getReactorCount getOwner prio
              (S (SortSpec.inversions prio reactors)) reactors ltac:(lia) Hp)
    as (sorted & Hs & Hperm & Hsorted & Hstable).
  assert (Hfuel : forall fuel, (length reactors * length reactors < fuel)%nat ->
            Priority.sort_fuel queryTimelineModes getReactorCount getOwner fuel reactors
            = Ok sorted).
  { intros fuel Hf. unfold Priority.sort_fuel.
    rewrite SortFacts.count_of_size by exact Hlen. apply Hs.
    pose proof (SortFacts.inversions_bound prio reactors). lia. }
  assert (Hin : forall r, r ∈ sorted -> r ∈ agentReactors).
  { intros r Hr. apply Hsub. rewrite Hperm. exact Hr. }
  exists sorted. split; [apply Hfuel; lia |]. split; [exact Hfuel |].
  split; [exact Hperm |]. split; [| split].
  - intros i j a b Hij Hi Hj. exists (prio a), (prio b).
    split; [apply Hprio, Hin, list_elem_of_lookup; eauto |].
    split; [apply Hprio, Hin, list_elem_of_lookup; eauto |].
    exact (SortFacts.Sorted_lookup prio sorted i j a b Hsorted Hij Hi Hj).
  - intros p.
    rewrite (SortFacts.filter_agree (fun r => getPriority r 0 = Ok p)
               (fun r => prio r = p) sorted)
      by (intros r Hr; rewrite (Hprio r (Hin r Hr)); split; congruence).
    rewrite (SortFacts.filter_agree (fun r => getPriority r 0 = Ok p)
               (fun r => prio r = p) reactors)
      by (intros r Hr; rewrite (Hprio r (Hsub r Hr)); split; congruence).
    apply Hstable.
  - intros i j R S t Hi Hj Hext Hint.
    assert (HS : S ∈ agentReactors) by (apply Hin, list_elem_of_lookup; eauto).
    assert (HR : R ∈ agentReactors) by (apply Hin, list_elem_of_lookup; eauto).
    pose proof (Hown S t HS Hint) as Ho.
    pose proof (PriorityFacts.getPriority_value _ _ _ _ R (prio R) Hag HR (Hprio R HR)) as Hv.
    destruct (Priority.externals queryTimelineModes R) as [| t0 ts] eqn:Eext;
      [inversion Hext |].
    destruct Hv as (ps & m & Hps & _ & Hub & HpR).
    apply list_elem_of_lookup in Hext as [k Hk].
    destruct (Forall2_lookup_l _ _ _ _ _ Hps Hk) as (q & Hq & S' & Ho' & HqS).
    assert (S' = S) as -> by congruence.
    fold getPriority in HqS. rewrite (Hprio S HS) in HqS. injection HqS as <-.
    assert (prio S <= m) by (apply Hub, list_elem_of_lookup; eauto).
    destruct (Nat.lt_ge_cases i j) as [Hlt | Hge]; [exact Hlt | exfalso].
    pose proof (SortFacts.Sorted_lookup prio sorted j i R S Hsorted Hge Hj Hi). lia.
Qed.

Lemma sort_topological_order_witness :
  let getPriority := Priority.getPriority Examples.pipeline_modes 3 Examples.pipeline_owner in
  exists sorted,
    Priority.sort Examples.pipeline_modes 3 Examples.pipeline_owner [2; 1; 0; 1]%nat
    = Ok sorted
    /\ (forall fuel, (4 * 4 < fuel)%nat ->
          Priority.sort_fuel Examples.pipeline_modes 3 Examples.pipeline_owner fuel
            [2; 1; 0; 1]%nat = Ok sorted)
    /\ [2; 1; 0; 1]%nat ≡ₚ sorted
    /\ (forall i j a b, (i <= j)%nat -> sorted !! i = Some a -> sorted !! j = Some b ->
          exists pa pb, getPriority a 0 = Ok pa /\ getPriority b 0 = Ok pb /\ pa <= pb)
    /\ (forall p, filter (fun r => getPriority r 0 = Ok p) sorted
                  = filter (fun r => getPriority r 0 = Ok p) [2; 1; 0; 1]%nat)
    /\ (forall i j R S timeline,
          sorted !! i = Some S -> sorted !! j = Some R ->
          timeline ∈ Priority.externals Examples.pipeline_modes R ->
          timeline ∈ Priority.internals Examples.pipeline_modes S ->
          (i < j)%nat).
Proof.
  apply (sort_topological_order Examples.pipeline_modes 3 Examples.pipeline_owner
           Examples.pipeline_reactors [2; 1; 0; 1]%nat).
  - exact ExampleFacts.pipeline_agent.
  - exact ExampleFacts.pipeline_internals.
  - exact ExampleFacts.pipeline_acyclic.
  - intros r Hr. unfold Examples.pipeline_reactors.
    rewrite !elem_of_cons, elem_of_nil in *. lia.
  - vm_compute. discriminate.
Defined.

(** ** The reactor object *)

Module ReactorFacts.
Import Reactor.

Lemma make_Ok agentName name lookAhead latency log this :
  make agentName name lookAhead latency log = Ok this ->
  m_latency this = latency /\ m_lookAhead this = lookAhead /\ latency <= lookAhead.
Proof.
  unfold make. cbn [m_latency m_lookAhead].
  destruct (Z.leb_spec latency lookAhead) as [Hle | Hgt]; cbn; [| discriminate].
  intros [= <-]. cbn. auto.
Qed.

Lemma make_from_xml_Ok atoi TICK_of_int string_cast_bool agentFinalTick
    agentName configData logDefault this :
  make_from_xml atoi TICK_of_int string_cast_bool agentFinalTick
    agentName configData logDefault = Ok this ->
  m_latency this <= m_lookAhead this.
Proof.
  unfold make_from_xml.
  destruct (extractData configData "name") as [name | | |]; try discriminate.
  destruct (getLookAheadFromXML _ _ _ _) as [la | | |]; try discriminate.
  destruct (extractData configData "latency") as [text | | |]; try discriminate.
  cbn [mbind result_bind rbind m_latency m_lookAhead].
  destruct (Z.leb_spec (TICK_of_int (atoi text)) la) as [Hle | Hgt]; cbn; [| discriminate].
  intros [= <-]. cbn. exact Hle.
Qed.

Section Lifetime.

Variables TokenId Observation Servers ObserverId Derived : Type.
Variable Token_toString : TokenId -> string.
Variable synchronize : TeleoReactor -> World TokenId Derived -> result (bool * World TokenId Derived).
Variable resume : TeleoReactor -> World TokenId Derived -> result (World TokenId Derived).
Variable handleInit :
  TeleoReactor -> TICK -> Servers -> ObserverId -> World TokenId Derived ->
  result (World TokenId Derived).
Variable handleTickStart : TeleoReactor -> World TokenId Derived -> result (World TokenId Derived).
Variable handleNotify :
  TeleoReactor -> Observation -> World TokenId Derived -> result (World TokenId Derived).
Variable handleRequest :
  TeleoReactor -> TokenId -> World TokenId Derived -> result (World TokenId Derived).
Variable handleRecall :
  TeleoReactor -> TokenId -> World TokenId Derived -> result (World TokenId Derived).

Local Abbreviation step :=
  (step TokenId Observation Servers ObserverId Derived Token_toString synchronize resume
        handleInit handleTickStart handleNotify handleRequest handleRecall).
Local Abbreviation run :=
  (run TokenId Observation Servers ObserverId Derived Token_toString synchronize resume
       handleInit handleTickStart handleNotify handleRequest handleRecall).

(** No call assigns [m_latency] or [m_lookAhead]. *)
Lemma step_frame c this w this' w' :
  step c this w = Ok (this', w') ->
  m_latency this' = m_latency this /\ m_lookAhead this' = m_lookAhead this.
Proof.
  destruct c; cbn [Reactor.step].
  - unfold doSynchronize. destruct (synchronize _ w) as [[b w1] | | |]; try discriminate.
    cbn. intros [= <- _]. cbn. auto.
  - unfold doResume. destruct (resume _ w) as [w1 | | |]; try discriminate.
    cbn. intros [= <- _]. cbn. auto.
  - unfold doHandleInit. destruct (handleInit _ _ _ _ _) as [w1 | | |]; try discriminate.
    cbn. intros [= <- _]. cbn. auto.
  - unfold doHandleTickStart. destruct (handleTickStart _ _) as [w1 | | |]; try discriminate.
    cbn. intros [= <- _]. cbn. auto.
  - destruct (handleNotify _ _ _) as [w1 | | |]; try discriminate.
    cbn. intros [= <- _]. auto.
  - destruct (request _ _ _ _ _ _ _) as [w1 | | |]; try discriminate.
    cbn. intros [= <- _]. auto.
  - destruct (recall _ _ _ _ _ _ _) as [w1 | | |]; try discriminate.
    cbn. intros [= <- _]. auto.
Qed.

Lemma run_frame calls : forall this w this' w',
  run calls this w = Ok (this', w') ->
  m_latency this' = m_latency this /\ m_lookAhead this' = m_lookAhead this.
Proof.
  induction calls as [| c calls IH]; intros this w this' w'; cbn [Reactor.run].
  - intros [= <- _]. auto.
  - destruct (step c this w) as [[this1 w1] | | |] eqn:E; try discriminate.
    cbn. intros H. apply IH in H as [H1 H2]. apply step_frame in E as [E1 E2].
    split; congruence.
Qed.

End Lifetime.

End ReactorFacts.

Section ReactorClaims.

Variables TokenId Observation Servers ObserverId Derived : Type.
Variable Token_toString : TokenId -> string.
Variable synchronize :
  Reactor.TeleoReactor -> Reactor.World TokenId Derived ->
  result (bool * Reactor.World TokenId Derived).
Variable resume :
  Reactor.TeleoReactor -> Reactor.World TokenId Derived ->
  result (Reactor.World TokenId Derived).
Variable handleInit :
  Reactor.TeleoReactor -> TICK -> Servers -> ObserverId ->
  Reactor.World TokenId Derived -> result (Reactor.World TokenId Derived).
Variable handleTickStart :
  Reactor.TeleoReactor -> Reactor.World TokenId Derived ->
  result (Reactor.World TokenId Derived).
Variable handleNotify :
  Reactor.TeleoReactor -> Observation -> Reactor.World TokenId Derived ->
  result (Reactor.World TokenId Derived).
Variable handleRequest :
  Reactor.TeleoReactor -> TokenId -> Reactor.World TokenId Derived ->
  result (Reactor.World TokenId Derived).
Variable handleRecall :
  Reactor.TeleoReactor -> TokenId -> Reactor.World TokenId Derived ->
  result (Reactor.World TokenId Derived).
Variable atoi : string -> Z.
Variable TICK_of_int : Z -> TICK.
Variable string_cast_bool : bool -> option string -> bool.
Variable agentFinalTick : option TICK.

Local Abbreviation run :=
  (Reactor.run TokenId Observation Servers ObserverId Derived Token_toString synchronize
     resume handleInit handleTickStart handleNotify handleRequest handleRecall).
Local Abbreviation make_from_xml :=
  (Reactor.make_from_xml atoi TICK_of_int string_cast_bool agentFinalTick).
Local Abbreviation getLookAheadFromXML :=
  (Reactor.getLookAheadFromXML atoi TICK_of_int agentFinalTick).

(** C3.  Either constructor stops with a fatal error when the latency it is
    to store exceeds the look-ahead, so no reactor exists and no call on it
    can run.  A reactor that was constructed has [getLatency() <=
    getLookAhead()], and after any sequence of calls on it both accessors
    return what they returned after construction. *)
Theorem latency_within_lookAhead
    (agentName name : LabelStr) (lookAhead latency : TICK) (log : bool)
    (configData : TinyXML.TiXmlElement) (logDefault : bool) :
  (lookAhead < latency ->
     Reactor.make agentName name lookAhead latency log = Fatal Reactor.latency_message)
  /\ (forall name' lookAhead' text,
        Reactor.extractData configData "name" = Ok name' ->
        getLookAheadFromXML configData = Ok lookAhead' ->
        Reactor.extractData configData "latency" = Ok text ->
        lookAhead' < TICK_of_int (atoi text) ->
        make_from_xml agentName configData logDefault = Fatal Reactor.latency_message)
  /\ (forall this,
        Reactor.make agentName name lookAhead latency log = Ok this
        \/ make_from_xml agentName configData logDefault = Ok this ->
        Reactor.getLatency this <= Reactor.getLookAhead this
        /\ forall calls w this' w',
             run calls this w = Ok (this', w') ->
             Reactor.getLatency this' = Reactor.getLatency this
             /\ Reactor.getLookAhead this' = Reactor.getLookAhead this
             /\ Reactor.getLatency this' <= Reactor.getLookAhead this').
Proof.
  split; [| split].
  - intros Hgt. unfold Reactor.make. cbn [Reactor.m_latency Reactor.m_lookAhead].
    rewrite (proj2 (Z.leb_gt latency lookAhead)) by exact Hgt. reflexivity.
  - intros name' lookAhead' text Hname Hla Hlat Hgt. unfold Reactor.make_from_xml.
    rewrite Hname, Hla, Hlat. cbn [mbind result_bind rbind Reactor.m_latency Reactor.m_lookAhead].
    rewrite (proj2 (Z.leb_gt _ _)) by exact Hgt. reflexivity.
  - intros this Hmade.
    assert (Hle : Reactor.getLatency this <= Reactor.getLookAhead this).
    { destruct Hmade as [H | H].
      - apply ReactorFacts.make_Ok in H as (H1 & H2 & Hle).
        unfold Reactor.getLatency, Reactor.getLookAhead. lia.
      - apply ReactorFacts.make_from_xml_Ok in H. exact H. }
    split; [exact Hle |]. intros calls w this' w' Hrun.
    apply ReactorFacts.run_frame in Hrun as [H1 H2].
    unfold Reactor.getLatency, Reactor.getLookAhead in *. lia.
Qed.

End ReactorClaims.

Lemma latency_within_lookAhead_witness :
  Reactor.make "agent" "nav" 2 5 true = Fatal Reactor.latency_message
  /\ Reactor.make_from_xml Examples.read_int id (fun b _ => b) (Some 100)
       "agent" Examples.hasty_config false = Fatal Reactor.latency_message
  /\ (Reactor.getLatency Examples.nav_reactor <= Reactor.getLookAhead Examples.nav_reactor
      /\ forall calls w this' w',
           Reactor.run nat unit unit unit (list nat) Examples.show_goal
             Examples.idle_synchronize Examples.idle Examples.idle_init Examples.idle
             Examples.idle_notify Examples.keep_goal Examples.drop_goal calls
             Examples.nav_reactor w = Ok (this', w') ->
           Reactor.getLatency this' = Reactor.getLatency Examples.nav_reactor
           /\ Reactor.getLookAhead this' = Reactor.getLookAhead Examples.nav_reactor
           /\ Reactor.getLatency this' <= Reactor.getLookAhead this').
Proof.
  split; [| split].
  - apply (proj1 (latency_within_lookAhead nat unit unit unit (list nat) Examples.show_goal
                    Examples.idle_synchronize Examples.idle Examples.idle_init Examples.idle
                    Examples.idle_notify Examples.keep_goal Examples.drop_goal
                    Examples.read_int id (fun b _ => b) (Some 100)
                    "agent" "nav" 2 5 true Examples.hasty_config false)).
    lia.
  - apply (proj1 (proj2 (latency_within_lookAhead nat unit unit unit (list nat)
                    Examples.show_goal
                    Examples.idle_synchronize Examples.idle Examples.idle_init Examples.idle
                    Examples.idle_notify Examples.keep_goal Examples.drop_goal
                    Examples.read_int id (fun b _ => b) (Some 100)
                    "agent" "nav" 2 5 true Examples.hasty_config false))
             "nav" 2 "5"); [reflexivity | reflexivity | reflexivity | vm_compute; reflexivity].
  - apply (proj2 (proj2 (latency_within_lookAhead nat unit unit unit (list nat)
                    Examples.show_goal
                    Examples.idle_synchronize Examples.idle Examples.idle_init Examples.idle
                    Examples.idle_notify Examples.keep_goal Examples.drop_goal
                    Examples.read_int id (fun b _ => b) (Some 100)
                    "agent" "nav" 5 2 true Examples.hasty_config false))
             Examples.nav_reactor).
    left. reflexivity.
Defined.

(** ** Text *)

Lemma append_empty_l (a : string) : "" +:+ a = a.
Proof. reflexivity. Qed.

Lemma append_String (x : ascii) (a b : string) : String x a +:+ b = String x (a +:+ b).
Proof. reflexivity. Qed.

Lemma append_assoc (a b c : string) : (a +:+ b) +:+ c = a +:+ (b +:+ c).
Proof.
  induction a as [| x a IH]; [reflexivity |].
  rewrite !append_String, IH. reflexivity.
Qed.

Lemma append_empty_r (a : string) : a +:+ "" = a.
Proof.
  induction a as [| x a IH]; [reflexivity |].
  rewrite append_String, IH. reflexivity.
Qed.

Lemma uint_digits (d : Decimal.uint) :
  forallb is_digit (list_ascii_of_string (NilEmpty.string_of_uint d)) = true.
Proof. induction d; cbn; try rewrite IHd; reflexivity. Qed.

Lemma uint_digits_only (d : Decimal.uint) :
  digits_only (NilZero.string_of_uint d) = true.
Proof.
  pose proof (uint_digits d) as H.
  destruct d; cbn in *; try reflexivity; exact H.
Qed.

Lemma uint_first_digit (d : Decimal.uint) :
  match NilZero.string_of_uint d with
  | String c _ => Ascii.eqb c "-"%char = false
  | EmptyString => False
  end.
Proof. destruct d; reflexivity. Qed.

(** An [int] is written as a decimal integer, and reading the text gives the
    number back. *)
Lemma show_int_decimal (z : Z) :
  is_decimal (show_int z) = true
  /\ Z.of_int <$> NilZero.int_of_string (show_int z) = Some z.
Proof.
  split.
  - unfold show_int, NilZero.string_of_int.
    destruct (Z.to_int z) as [d | d].
    + pose proof (uint_first_digit d) as Hc. pose proof (uint_digits_only d) as Hd.
      unfold is_decimal. destruct (NilZero.string_of_uint d) as [| c rest]; [contradiction |].
      rewrite Hc. exact Hd.
    + cbn. apply uint_digits_only.
  - unfold show_int. rewrite NilZero.isi.
    + cbn. f_equal. apply DecimalZ.of_to.
    + destruct z; cbn; try discriminate.
      all: intros H; injection H as H; revert H; apply DecimalPos.Unsigned.to_uint_nonnil.
    + destruct z; cbn; try discriminate.
      all: intros H; injection H as H; revert H; apply DecimalPos.Unsigned.to_uint_nonnil.
Qed.

(** ** Domains and observations as XML *)

Module XMLFacts.
Import TinyXML EuropaXML Observer.

Lemma fprintf_then {A} (text : string) (k : io A) (out : FILE) :
  (fprintf text ;; k) out = k (out +:+ text).
Proof. reflexivity. Qed.

Lemma fprintf_last (text : string) (out : FILE) : fprintf text out = (Ok tt, out +:+ text).
Proof. reflexivity. Qed.

Lemma fprintf_then_last (a b : string) (out : FILE) :
  (fprintf a ;; fprintf b) out = (Ok tt, out +:+ a +:+ b).
Proof. rewrite fprintf_then, fprintf_last, append_assoc. reflexivity. Qed.

Section Domains.

Context {europa : Europa}.

(** What [is_bool] and [is_int] accept. *)
Lemma is_bool_iff (typeName : string) :
  is_bool typeName = true <-> XMLSpec.boolean_type typeName.
Proof.
  unfold is_bool, XMLSpec.boolean_type.
  rewrite !orb_true_iff, !String.eqb_eq. tauto.
Qed.

Lemma is_bool_false (typeName : string) :
  ~ XMLSpec.boolean_type typeName -> is_bool typeName = false.
Proof.
  intros H. destruct (is_bool typeName) eqn:E; [| reflexivity].
  apply is_bool_iff in E. contradiction.
Qed.

Lemma is_int_iff (typeName : string) :
  is_int typeName = true <-> XMLSpec.integer_type typeName.
Proof.
  unfold is_int, XMLSpec.integer_type.
  rewrite !orb_true_iff, !String.eqb_eq. tauto.
Qed.

Lemma is_int_false (typeName : string) :
  ~ XMLSpec.integer_type typeName -> is_int typeName = false.
Proof.
  intros H. destruct (is_int typeName) eqn:E; [| reflexivity].
  apply is_int_iff in E. contradiction.
Qed.

(** A value is written whatever the stream holds, after what it holds. *)
Lemma domain_val_print_xml_text (domain : AbstractDomain) (value : double) (out : FILE) :
  domain_val_print_xml domain value out = (Ok tt, out +:+ value_text domain value).
Proof.
  unfold value_text, domain_val_print_xml.
  destruct (isEntity domain); [reflexivity |].
  destruct (is_bool (getTypeName domain)); [reflexivity |].
  destruct (isNumeric domain); [| reflexivity].
  rewrite !fprintf_then.
  destruct (is_int (getTypeName domain)); rewrite !fprintf_last; cbn [snd];
    rewrite append_empty_l, !append_assoc; reflexivity.
Qed.

Lemma print_values_text (domain : AbstractDomain) (values : list double) : forall out,
  print_values domain values out
  = (Ok tt, out +:+ concat_text (value_text domain <$> values)).
Proof.
  induction values as [| v values IH]; intros out.
  - cbn. rewrite append_empty_r. reflexivity.
  - cbn [print_values]. unfold mbind, io_bind.
    rewrite domain_val_print_xml_text, IH. cbn [fmap list_fmap concat_text foldr].
    rewrite append_assoc. reflexivity.
Qed.

Lemma print_xml_frame (domain : AbstractDomain) :
  isEmpty domain = false ->
  exists text, forall out, print_xml domain out = (Ok tt, out +:+ text).
Proof.
  intros Hne. unfold print_xml, io_checkError. rewrite Hne.
  unfold mbind at 1, io_bind at 1. cbn [negb checkError].
  destruct (isSingleton domain).
  { eexists. intros out. apply domain_val_print_xml_text. }
  destruct (isEnumerated domain).
  { destruct (getValues domain) as [| v values].
    - eexists. intros out. apply fprintf_last.
    - exists (("<set type=" +:+ dq +:+ getTypeName domain +:+ dq +:+ ">")
              +:+ concat_text (value_text domain <$> v :: values) +:+ "</set>").
      intros out. rewrite fprintf_then. unfold mbind, io_bind.
      rewrite print_values_text, fprintf_last, !append_assoc. reflexivity. }
  destruct (isInterval domain).
  { eexists. intros out. apply fprintf_last. }
  exists "". intros out. cbn. rewrite append_empty_r. reflexivity.
Qed.

(** A domain that is not empty is written whatever the stream holds, after
    what it holds. *)
Lemma print_xml_text (domain : AbstractDomain) (out : FILE) :
  isEmpty domain = false ->
  print_xml domain out = (Ok tt, out +:+ domain_text domain).
Proof.
  intros Hne. destruct (print_xml_frame domain Hne) as [text H].
  unfold domain_text. rewrite !H. cbn [snd]. rewrite append_empty_l. reflexivity.
Qed.

Lemma print_xml_empty (domain : AbstractDomain) (out : FILE) :
  isEmpty domain = true ->
  print_xml domain out = (Fatal "print_xml<AbstractDomain>: Unknown domain type.", out).
Proof. intros He. unfold print_xml, io_checkError. rewrite He. reflexivity. Qed.

(** The loop over the parameters writes their [Assert] elements in the order
    of the indices. *)
Lemma print_asserts_text (o : Observation) (todo : nat) : forall i out,
  (forall j, (i <= j < i + todo)%nat -> isEmpty (parameter o j).2 = false) ->
  print_asserts o todo i out
  = (Ok tt, out +:+ concat_text (assert_text o <$> seq i todo)).
Proof.
  induction todo as [| todo IH]; intros i out Hne.
  - cbn. rewrite append_empty_r. reflexivity.
  - cbn [print_asserts]. rewrite fprintf_then. unfold mbind at 1, io_bind at 1.
    rewrite print_xml_text by (apply Hne; lia).
    rewrite fprintf_then, IH by (intros j Hj; apply Hne; lia).
    cbn [seq fmap list_fmap concat_text foldr]. unfold assert_text at 2.
    rewrite !append_assoc. reflexivity.
Qed.

End Domains.

End XMLFacts.

(** C6, as the sources have it.  A domain that is not empty and holds one
    value is serialised as one element, which its kind determines: [to_xml]
    builds the element and [print_xml] writes its tag, closed in place with
    a space before the slash.  An entity domain gives [object] with the name of the object as
    [value]; a domain whose type is named as a boolean type gives [value] of
    type [bool] named [true] or [false] as the value is; a numeric domain
    whose type is named as an integer type gives [value] of its type named by
    the value as a decimal integer, which has digits only and reads back as
    the integer; another numeric domain gives [value] named by the value in
    fixed notation; any other domain gives [symbol] of its type with the text
    of the value as [value]. *)
Theorem singleton_domain_element {europa : EuropaXML.Europa}
    (domain : EuropaXML.AbstractDomain) (out : FILE) :
  EuropaXML.isEmpty domain = false ->
  EuropaXML.isSingleton domain = true ->
  let value := EuropaXML.getSingletonValue domain in
  let type := EuropaXML.getTypeName domain in
  (EuropaXML.isEntity domain = true ->
     EuropaXML.to_xml domain
     = Some (TinyXML.Element "object" [("value", EuropaXML.Object_getName value)] [])
     /\ EuropaXML.print_xml domain out
        = (Ok tt, out +:+ "<object value=" +:+ dq +:+ EuropaXML.Object_getName value
                  +:+ dq +:+ " />"))
  /\ (EuropaXML.isEntity domain = false -> XMLSpec.boolean_type type ->
      let name := if EuropaXML.double_nonzero value then "true" else "false" in
      EuropaXML.to_xml domain
      = Some (TinyXML.Element "value" [("type", "bool"); ("name", name)] [])
      /\ EuropaXML.print_xml domain out
         = (Ok tt, out +:+ "<value type=" +:+ dq +:+ "bool" +:+ dq +:+ " name=" +:+ dq
                   +:+ name +:+ dq +:+ " />"))
  /\ (EuropaXML.isEntity domain = false -> ~ XMLSpec.boolean_type type ->
      EuropaXML.isNumeric domain = true -> XMLSpec.integer_type type ->
      forall n : Z, EuropaXML.double_to_int value = n ->
      let name := show_int n in
      EuropaXML.to_xml domain
      = Some (TinyXML.Element "value" [("type", type); ("name", name)] [])
      /\ EuropaXML.print_xml domain out
         = (Ok tt, out +:+ "<value type=" +:+ dq +:+ type +:+ dq +:+ " name=" +:+ dq
                   +:+ name +:+ dq +:+ " />")
      /\ is_decimal name = true
      /\ Z.of_int <$> NilZero.int_of_string name = Some n)
  /\ (EuropaXML.isEntity domain = false -> ~ XMLSpec.boolean_type type ->
      EuropaXML.isNumeric domain = true -> ~ XMLSpec.integer_type type ->
      let name := EuropaXML.show_fixed value in
      EuropaXML.to_xml domain
      = Some (TinyXML.Element "value" [("type", type); ("name", name)] [])
      /\ EuropaXML.print_xml domain out
         = (Ok tt, out +:+ "<value type=" +:+ dq +:+ type +:+ dq +:+ " name=" +:+ dq
                   +:+ name +:+ dq +:+ " />"))
  /\ (EuropaXML.isEntity domain = false -> ~ XMLSpec.boolean_type type ->
      EuropaXML.isNumeric domain = false ->
      EuropaXML.to_xml domain
      = Some (TinyXML.Element "symbol"
                [("type", type); ("value", EuropaXML.LabelStr_toString value)] [])
      /\ EuropaXML.print_xml domain out
         = (Ok tt, out +:+ "<symbol type=" +:+ dq +:+ type +:+ dq +:+ " value=" +:+ dq
                   +:+ EuropaXML.LabelStr_toString value +:+ dq +:+ " />")).
Proof.
  intros Hne Hs value type.
  assert (Hxml : EuropaXML.to_xml domain = Some (EuropaXML.domain_val_to_xml domain value)).
  { unfold EuropaXML.to_xml. rewrite Hne, Hs. reflexivity. }
  assert (Hprint : EuropaXML.print_xml domain out
                   = EuropaXML.domain_val_print_xml domain value out).
  { unfold EuropaXML.print_xml, io_checkError. rewrite Hne, Hs. reflexivity. }
  rewrite Hxml, Hprint.
  unfold EuropaXML.domain_val_to_xml, EuropaXML.domain_val_print_xml. fold type.
  split; [| split; [| split; [| split]]].
  - intros He. rewrite He. split; reflexivity.
  - intros He Hb. apply XMLFacts.is_bool_iff in Hb. rewrite He, Hb. split; reflexivity.
  - intros He Hb Hn Hi n Hcast.
    apply XMLFacts.is_bool_false in Hb. apply XMLFacts.is_int_iff in Hi.
    rewrite He, Hb, Hn, Hi. unfold EuropaXML.int_val_to_str. rewrite Hcast.
    split; [reflexivity |]. split.
    + rewrite XMLFacts.fprintf_then_last, !append_assoc. reflexivity.
    + apply show_int_decimal.
  - intros He Hb Hn Hi.
    apply XMLFacts.is_bool_false in Hb. apply XMLFacts.is_int_false in Hi.
    rewrite He, Hb, Hn, Hi. split; [reflexivity |].
    rewrite XMLFacts.fprintf_then_last, !append_assoc. reflexivity.
  - intros He Hb Hn. apply XMLFacts.is_bool_false in Hb.
    rewrite He, Hb, Hn. split; reflexivity.
Qed.

Lemma singleton_domain_element_witness :
  (EuropaXML.to_xml Examples.truth
   = Some (TinyXML.Element "value" [("type", "bool"); ("name", "true")] [])
   /\ EuropaXML.print_xml Examples.truth ""
      = (Ok tt, "<value type=" +:+ dq +:+ "bool" +:+ dq +:+ " name=" +:+ dq
                +:+ "true" +:+ dq +:+ " />"))
  /\ (EuropaXML.to_xml Examples.minus_seven
      = Some (TinyXML.Element "value" [("type", "INT_INTERVAL"); ("name", "-7")] [])
      /\ EuropaXML.print_xml Examples.minus_seven ""
         = (Ok tt, "<value type=" +:+ dq +:+ "INT_INTERVAL" +:+ dq +:+ " name=" +:+ dq
                   +:+ "-7" +:+ dq +:+ " />")
      /\ is_decimal "-7" = true
      /\ Z.of_int <$> NilZero.int_of_string "-7" = Some (-7))
  /\ (EuropaXML.to_xml Examples.green
      = Some (TinyXML.Element "symbol" [("type", "Color"); ("value", "Green")] [])
      /\ EuropaXML.print_xml Examples.green ""
         = (Ok tt, "<symbol type=" +:+ dq +:+ "Color" +:+ dq +:+ " value=" +:+ dq
                   +:+ "Green" +:+ dq +:+ " />")).
Proof.
  split; [| split].
  - apply (proj1 (proj2
             (singleton_domain_element (europa := Examples.small_europa)
                Examples.truth "" eq_refl eq_refl))).
    + reflexivity.
    + left. reflexivity.
  - refine (proj1 (proj2 (proj2
              (singleton_domain_element (europa := Examples.small_europa)
                 Examples.minus_seven "" eq_refl eq_refl))) _ _ _ _ (-7) eq_refl).
    + reflexivity.
    + intros [H | [H | H]]; discriminate H.
    + reflexivity.
    + right. left. reflexivity.
  - apply (proj2 (proj2 (proj2 (proj2
             (singleton_domain_element (europa := Examples.small_europa)
                Examples.green "" eq_refl eq_refl))))).
    + reflexivity.
    + intros [H | [H | H]]; discriminate H.
    + reflexivity.
Defined.

(** C6, as it is stated, fails on the boolean domain that holds [true]: it
    is not empty, it holds one value, its type is [bool], and what
    [print_xml] writes is not the text [<value type="bool" name="true"/>]: a
    space stands before the slash. *)
Lemma bool_singleton_written_with_space :
  EuropaXML.isEmpty Examples.truth = false
  /\ EuropaXML.isSingleton Examples.truth = true
  /\ EuropaXML.getTypeName Examples.truth = "bool"
  /\ EuropaXML.print_xml Examples.truth ""
     = (Ok tt, "<value type=" +:+ dq +:+ "bool" +:+ dq +:+ " name=" +:+ dq
               +:+ "true" +:+ dq +:+ " />")
  /\ EuropaXML.print_xml Examples.truth ""
     <> (Ok tt, "<value type=" +:+ dq +:+ "bool" +:+ dq +:+ " name=" +:+ dq
                +:+ "true" +:+ dq +:+ "/>").
Proof.
  repeat split; try reflexivity. vm_compute. discriminate.
Qed.

(** C7.  No element is emitted for an empty domain: [to_xml] answers the
    null pointer, and [print_xml] stops at its check and leaves the stream as
    it was. *)
Theorem empty_domain_no_element {europa : EuropaXML.Europa}
    (domain : EuropaXML.AbstractDomain) (out : FILE) :
  EuropaXML.isEmpty domain = true ->
  EuropaXML.to_xml domain = None
  /\ EuropaXML.print_xml domain out
     = (Fatal "print_xml<AbstractDomain>: Unknown domain type.", out).
Proof.
  intros He. split.
  - unfold EuropaXML.to_xml. rewrite He. reflexivity.
  - apply XMLFacts.print_xml_empty, He.
Qed.

Lemma empty_domain_no_element_witness :
  EuropaXML.to_xml Examples.empty_color = None
  /\ EuropaXML.print_xml Examples.empty_color "<Assert>"
     = (Fatal "print_xml<AbstractDomain>: Unknown domain type.", "<Assert>").
Proof.
  apply (empty_domain_no_element (europa := Examples.small_europa)
           Examples.empty_color "<Assert>").
  reflexivity.
Defined.

(** C8, as the sources have it.  [print_xml] of an enumerated domain that is
    not empty and does not hold exactly one value writes [<set type="TYPE"/>]
    when the list of its values is empty, and otherwise [<set type="TYPE">],
    the element of each value in the order of the list, and [</set>]. *)
Theorem enumerated_domain_set {europa : EuropaXML.Europa}
    (domain : EuropaXML.AbstractDomain) (out : FILE) :
  EuropaXML.isEmpty domain = false ->
  EuropaXML.isSingleton domain = false ->
  EuropaXML.isEnumerated domain = true ->
  let type := EuropaXML.getTypeName domain in
  (EuropaXML.getValues domain = [] ->
     EuropaXML.print_xml domain out
     = (Ok tt, out +:+ "<set type=" +:+ dq +:+ type +:+ dq +:+ "/>"))
  /\ (EuropaXML.getValues domain <> [] ->
      EuropaXML.print_xml domain out
      = (Ok tt, out +:+ "<set type=" +:+ dq +:+ type +:+ dq +:+ ">"
                +:+ Observer.concat_text
                      (Observer.value_text domain <$> EuropaXML.getValues domain)
                +:+ "</set>"))
  /\ (forall value out',
        EuropaXML.domain_val_print_xml domain value out'
        = (Ok tt, out' +:+ Observer.value_text domain value)).
Proof.
  intros Hne Hs He type. split; [| split].
  - intros Hv. unfold EuropaXML.print_xml, io_checkError. rewrite Hne, Hs, He, Hv.
    reflexivity.
  - intros Hv. unfold EuropaXML.print_xml, io_checkError. rewrite Hne, Hs, He.
    destruct (EuropaXML.getValues domain) as [| v values]; [congruence |].
    unfold mbind at 1, io_bind at 1. cbn [negb checkError].
    rewrite XMLFacts.fprintf_then. unfold mbind, io_bind.
    rewrite XMLFacts.print_values_text, XMLFacts.fprintf_last, !append_assoc.
    reflexivity.
  - intros value out'. apply XMLFacts.domain_val_print_xml_text.
Qed.

Lemma enumerated_domain_set_witness :
  EuropaXML.print_xml Examples.open_color ""
  = (Ok tt, "<set type=" +:+ dq +:+ "Color" +:+ dq +:+ "/>")
  /\ EuropaXML.print_xml Examples.two_colors ""
     = (Ok tt, "<set type=" +:+ dq +:+ "Color" +:+ dq +:+ ">"
               +:+ Observer.concat_text
                     (Observer.value_text Examples.two_colors <$> [1; 2])
               +:+ "</set>").
Proof.
  split.
  - apply (proj1 (enumerated_domain_set (europa := Examples.small_europa)
                    Examples.open_color "" eq_refl eq_refl eq_refl)).
    reflexivity.
  - apply (proj1 (proj2 (enumerated_domain_set (europa := Examples.small_europa)
                           Examples.two_colors "" eq_refl eq_refl eq_refl))).
    discriminate.
Defined.

(** C8, as it is stated, fails on the empty enumerated domain of type
    [Color]: it is enumerated, it does not hold exactly one value, the list
    of its values is empty, and neither function emits [<set type="Color"/>]:
    [to_xml] answers the null pointer and [print_xml] stops at its check. *)
Lemma empty_color_set_not_emitted :
  EuropaXML.isEnumerated Examples.empty_color = true
  /\ EuropaXML.isSingleton Examples.empty_color = false
  /\ EuropaXML.getValues Examples.empty_color = []
  /\ EuropaXML.to_xml Examples.empty_color = None
  /\ EuropaXML.print_xml Examples.empty_color ""
     <> (Ok tt, "<set type=" +:+ dq +:+ "Color" +:+ dq +:+ "/>").
Proof. repeat split; discriminate. Qed.

(** C10, as the sources have it.  An observation without parameters is
    written as the one element [<Observation on="NAME" predicate="PRED" />].
    An observation with [n >= 1] parameters, none of which has an empty
    domain, is written as the tag [<Observation on="NAME" predicate="PRED">],
    then for each index from 0 to [n - 1], in this order, the element
    [<Assert name="PARAM">] that holds what [print_xml] writes for the domain
    of the parameter, then [</Observation>]. *)
Theorem observation_xml {europa : EuropaXML.Europa}
    (o : Observer.Observation) (out : FILE) :
  let on := Observer.getObjectName o in
  let predicate := Observer.getPredicate o in
  let n := Observer.countParameters o in
  (n = O ->
     Observer.printXML o out
     = (Ok tt, out +:+ "<Observation on=" +:+ dq +:+ on +:+ dq
               +:+ " predicate=" +:+ dq +:+ predicate +:+ dq +:+ " />"))
  /\ ((1 <= n)%nat ->
      (forall i, (i < n)%nat -> EuropaXML.isEmpty (Observer.parameter o i).2 = false) ->
      Observer.printXML o out
      = (Ok tt, out +:+ "<Observation on=" +:+ dq +:+ on +:+ dq
                +:+ " predicate=" +:+ dq +:+ predicate +:+ dq +:+ ">"
                +:+ Observer.concat_text (Observer.assert_text o <$> seq 0 n)
                +:+ "</Observation>")).
Proof.
  intros on predicate n. unfold Observer.printXML. fold n. split.
  - intros ->. reflexivity.
  - intros Hn Hne. destruct n as [| n'] eqn:En; [lia |].
    cbn [Nat.eqb]. rewrite XMLFacts.fprintf_then. unfold mbind, io_bind.
    rewrite XMLFacts.print_asserts_text by (intros j Hj; apply Hne; lia).
    rewrite XMLFacts.fprintf_last, !append_assoc. reflexivity.
Qed.

Lemma observation_xml_witness :
  Observer.printXML Examples.seen_observation ""
  = (Ok tt, "<Observation on=" +:+ dq +:+ "camera" +:+ dq
            +:+ " predicate=" +:+ dq +:+ "Seen" +:+ dq +:+ ">"
            +:+ Observer.concat_text
                  (Observer.assert_text Examples.seen_observation <$> seq 0 2)
            +:+ "</Observation>").
Proof.
  apply (proj2 (observation_xml (europa := Examples.small_europa)
                  Examples.seen_observation "")).
  - cbn. lia.
  - intros [| [| i]] Hi; [reflexivity | reflexivity | cbn in Hi; lia].
Defined.

(** C10, as it is stated, fails on an observation whose one parameter has an
    empty domain: [print_xml] stops at its check after the opening tags were
    written, so that neither [</Assert>] nor [</Observation>] is written,
    whatever the serialisation of the domain is taken to be. *)
Lemma void_observation_not_closed :
  Observer.countParameters Examples.void_observation = 1%nat
  /\ Observer.printXML Examples.void_observation ""
     = (Fatal "print_xml<AbstractDomain>: Unknown domain type.",
        "<Observation on=" +:+ dq +:+ "camera" +:+ dq +:+ " predicate=" +:+ dq
        +:+ "Seen" +:+ dq +:+ ">" +:+ "<Assert name=" +:+ dq +:+ "color" +:+ dq +:+ ">")
  /\ ~ exists serialisation,
         Observer.printXML Examples.void_observation ""
         = (Ok tt, "<Observation on=" +:+ dq +:+ "camera" +:+ dq +:+ " predicate=" +:+ dq
                   +:+ "Seen" +:+ dq +:+ ">" +:+ "<Assert name=" +:+ dq +:+ "color"
                   +:+ dq +:+ ">" +:+ serialisation +:+ "</Assert>" +:+ "</Observation>").
Proof.
  split; [reflexivity |]. split; [reflexivity |].
  intros [serialisation H]. discriminate H.
Qed.

(** * Further properties *)

(** ** Priorities *)

Module PriorityMore.
Import Priority.

Section Agent.

Variable queryTimelineModes : TeleoReactorId -> list LabelStr * list LabelStr.
Variable getReactorCount : Z.
Variable getOwner : LabelStr -> option TeleoReactorId.

Local Abbreviation externals := (externals queryTimelineModes).
Local Abbreviation priority_loop := (priority_loop getOwner).
Local Abbreviation getPriority_fuel := (getPriority_fuel queryTimelineModes getReactorCount getOwner).
Local Abbreviation getPriority := (getPriority queryTimelineModes getReactorCount getOwner).
Local Abbreviation agent_of := (agent_of queryTimelineModes getReactorCount getOwner).
Local Abbreviation sort_for := (sort_for queryTimelineModes getReactorCount getOwner).
Local Abbreviation sort_while := (sort_while queryTimelineModes getReactorCount getOwner).
Local Abbreviation sort_fuel := (sort_fuel queryTimelineModes getReactorCount getOwner).
Local Abbreviation sort := (sort queryTimelineModes getReactorCount getOwner).

(** No priority is returned for a reactor one of whose external timelines
    has no owner. *)
Lemma unowned_not_Ok fuel R callCount p timeline :
  timeline ∈ externals R -> getOwner timeline = None ->
  getPriority_fuel fuel R callCount <> Ok p.
Proof.
  intros Hin Ho H. destruct fuel as [| fuel]; [discriminate |].
  destruct (PriorityFacts.getPriority_fuel_cases queryTimelineModes getReactorCount
              getOwner fuel R callCount)
    as [[_ E] | [(_ & Hnil & _) | (_ & _ & E)]]; try rewrite E in H.
  - discriminate.
  - rewrite Hnil in Hin. inversion Hin.
  - destruct (priority_loop _ (externals R) 0) as [m | | |] eqn:El; try discriminate.
    apply PriorityFacts.priority_loop_Ok in El as (ps & Hps & _).
    apply list_elem_of_lookup in Hin as [i Hi].
    destruct (Forall2_lookup_l _ _ _ _ _ Hps Hi) as (q & _ & S & Ho' & _).
    congruence.
Qed.

(** On a reactor of the agent [getPriority()] returns a priority or stops
    at the guard on the depth. *)
Lemma getPriority_agent_outcome agentReactors R :
  agent_of agentReactors -> R ∈ agentReactors ->
  getPriority R 0 = Fatal cycle_detected \/ exists p, getPriority R 0 = Ok p.
Proof.
  intros Hag HR. pose proof (agent_count_int _ _ _ _ Hag) as Hn.
  unfold Priority.getPriority.
  destruct (getPriority_fuel _ R 0) as [p | msg | |] eqn:E.
  - right. exists p. reflexivity.
  - left. f_equal.
    eapply PriorityFacts.getPriority_fuel_Fatal; [exact Hag | exact HR | | exact E]. lia.
  - exfalso. exact (PriorityFacts.getPriority_fuel_defined _ _ _ _ _ _ E).
  - exfalso. apply PriorityFacts.getPriority_fuel_enough in E; [exact E | lia | exact Hn | lia].
Qed.

(** The [for] loop asks for the priority of every reactor from the current
    index on, as soon as there are two: it stops at the guard when one of
    them leads to a cycle. *)
Lemma sort_for_cycle agentReactors rest : forall pre x swapped,
  agent_of agentReactors ->
  (forall r, r ∈ x :: rest -> r ∈ agentReactors) ->
  Exists (reaches_cycle queryTimelineModes getOwner) rest
  \/ (reaches_cycle queryTimelineModes getOwner x /\ rest <> []) ->
  sort_for (length rest) (length pre) (pre ++ x :: rest) swapped = Fatal cycle_detected.
Proof.
  induction rest as [| y rest IH]; intros pre x swapped Hag Hin Hcyc.
  - destruct Hcyc as [Hex | [_ Hne]]; [inversion Hex | congruence].
  - cbn [length Priority.sort_for]. unfold at_index.
    rewrite (list_lookup_middle pre (y :: rest) x (length pre)) by reflexivity.
    cbn [mbind result_bind rbind].
    replace (pre ++ x :: y :: rest) with ((pre ++ [x]) ++ y :: rest)
      by (rewrite <- app_assoc; reflexivity).
    rewrite (list_lookup_middle (pre ++ [x]) rest y (length pre + 1))
      by (rewrite length_app; reflexivity).
    cbn [mbind result_bind rbind].
    assert (Hx : x ∈ agentReactors) by (apply Hin; rewrite !elem_of_cons; auto).
    assert (Hy : y ∈ agentReactors) by (apply Hin; rewrite !elem_of_cons; auto).
    destruct (getPriority_agent_outcome agentReactors y Hag Hy) as [Ey | [py Ey]];
      rewrite Ey; [reflexivity |]. cbn [mbind result_bind rbind].
    destruct (getPriority_agent_outcome agentReactors x Hag Hx) as [Ex | [px Ex]];
      rewrite Ex; [reflexivity |]. cbn [mbind result_bind rbind].
    assert (Hrest : Exists (reaches_cycle queryTimelineModes getOwner) rest).
    { destruct Hcyc as [Hex | [Hcx _]].
      - apply Exists_cons in Hex as [Hcy | Hex]; [| exact Hex].
        rewrite (PriorityFacts.getPriority_cycle _ _ _ agentReactors y Hag Hy Hcy) in Ey.
        discriminate.
      - rewrite (PriorityFacts.getPriority_cycle _ _ _ agentReactors x Hag Hx Hcx) in Ex.
        discriminate. }
    destruct (py <? px).
    + assert (E : <[(length pre + 1)%nat := x]>
                    (<[length pre := y]> ((pre ++ [x]) ++ y :: rest))
                  = (pre ++ [y]) ++ x :: rest).
      { rewrite <- !app_assoc. cbn [app].
        replace (length pre) with (length pre + 0)%nat at 2 by lia.
        rewrite insert_app_r. cbn [insert list_insert].
        rewrite insert_app_r. reflexivity. }
      rewrite E.
      replace (length pre + 1)%nat with (length (pre ++ [y]))
        by (rewrite length_app; reflexivity).
      apply IH; [exact Hag | | left; exact Hrest].
      intros r Hr. apply Hin. rewrite !elem_of_cons in *. tauto.
    + replace (length pre + 1)%nat with (length (pre ++ [x]))
        by (rewrite length_app; reflexivity).
      apply IH; [exact Hag | | left; exact Hrest].
      intros r Hr. apply Hin. rewrite !elem_of_cons in *. tauto.
Qed.

(** A pass that completes has asked for the priority of every reactor from
    the current index on, when there are two or more. *)
Lemma sort_for_Ok_priorities rest : forall pre x swapped out,
  rest <> [] ->
  sort_for (length rest) (length pre) (pre ++ x :: rest) swapped = Ok out ->
  forall r, r ∈ x :: rest -> exists p, getPriority r 0 = Ok p.
Proof.
  induction rest as [| y rest IH]; intros pre x swapped out Hne H; [congruence |].
  cbn [length Priority.sort_for] in H. unfold at_index in H.
  rewrite (list_lookup_middle pre (y :: rest) x (length pre)) in H by reflexivity.
  cbn [mbind result_bind rbind] in H.
  replace (pre ++ x :: y :: rest) with ((pre ++ [x]) ++ y :: rest) in H
    by (rewrite <- app_assoc; reflexivity).
  rewrite (list_lookup_middle (pre ++ [x]) rest y (length pre + 1)) in H
    by (rewrite length_app; reflexivity).
  cbn [mbind result_bind rbind] in H.
  destruct (getPriority y 0) as [py | | |] eqn:Ey; try discriminate.
  cbn [mbind result_bind rbind] in H.
  destruct (getPriority x 0) as [px | | |] eqn:Ex; try discriminate.
  cbn [mbind result_bind rbind] in H.
  assert (Hxy : forall r, r = x \/ r = y -> exists p, getPriority r 0 = Ok p).
  { intros r [-> | ->]; eauto. }
  destruct rest as [| z rest'].
  { intros r Hr. rewrite !elem_of_cons, elem_of_nil in Hr. apply Hxy. tauto. }
  destruct (py <? px).
  - assert (E : <[(length pre + 1)%nat := x]>
                  (<[length pre := y]> ((pre ++ [x]) ++ y :: z :: rest'))
                = (pre ++ [y]) ++ x :: z :: rest').
    { rewrite <- !app_assoc. cbn [app].
      replace (length pre) with (length pre + 0)%nat at 2 by lia.
      rewrite insert_app_r. cbn [insert list_insert].
      rewrite insert_app_r. reflexivity. }
    rewrite E in H.
    replace (length pre + 1)%nat with (length (pre ++ [y])) in H
      by (rewrite length_app; reflexivity).
    pose proof (IH (pre ++ [y]) x true out ltac:(discriminate) H) as G.
    intros r Hr. apply elem_of_cons in Hr as [-> | Hr]; [eauto |].
    apply elem_of_cons in Hr as [-> | Hr]; [eauto |].
    apply G. apply elem_of_cons. auto.
  - replace (length pre + 1)%nat with (length (pre ++ [x])) in H
      by (rewrite length_app; reflexivity).
    pose proof (IH (pre ++ [x]) y swapped out ltac:(discriminate) H) as G.
    intros r Hr. apply elem_of_cons in Hr as [-> | Hr]; [eauto |].
    apply G. exact Hr.
Qed.

End Agent.

End PriorityMore.

Module SortMore.
Import Priority SortSpec.

Section Sort.

Variable queryTimelineModes : TeleoReactorId -> list LabelStr * list LabelStr.
Variable getReactorCount : Z.
Variable getOwner : LabelStr -> option TeleoReactorId.
Variable prio : nat -> Z.

Local Abbreviation sort_while := (sort_while queryTimelineModes getReactorCount getOwner).
Local Abbreviation priorities_of :=
  (priorities_of queryTimelineModes getReactorCount getOwner prio).

(** A pass over a sequence that is in order swaps nothing. *)
Lemma bubble_sorted rest : forall x,
  Sorted (by_priority prio) (x :: rest) -> bubble prio x rest = (x :: rest, false).
Proof.
  induction rest as [| y rest IH]; intros x Hs; [reflexivity |].
  apply Sorted_inv in Hs as [Hs Hhd]. apply HdRel_inv in Hhd.
  unfold by_priority in Hhd. cbn [bubble].
  rewrite (proj2 (Z.ltb_ge (prio y) (prio x))) by lia.
  rewrite (IH y Hs). reflexivity.
Qed.

(** One turn of the [while] loop is one pass over the sequence. *)
Lemma sort_while_pass fuel x rest :
  priorities_of (x :: rest) ->
  sort_while (S fuel) (Z.of_nat (length (x :: rest)) - 1) (x :: rest) true
  = sort_while fuel (Z.of_nat (length (x :: rest)) - 1)
      (bubble prio x rest).1 (bubble prio x rest).2.
Proof.
  intros Hp. cbn [Priority.sort_while].
  replace (Z.to_nat (Z.of_nat (length (x :: rest)) - 1)) with (length rest)
    by (cbn [length]; lia).
  pose proof (SortFacts.sort_for_bubble queryTimelineModes getReactorCount getOwner prio
                rest [] x false Hp) as E.
  cbn [length app] in E. rewrite E. reflexivity.
Qed.

(** A sequence that is in order is returned as it is. *)
Lemma sort_while_in_order fuel l :
  priorities_of l -> Sorted (by_priority prio) l ->
  sort_while (S fuel) (Z.of_nat (length l) - 1) l true = Ok l.
Proof.
  intros Hp Hs. destruct l as [| x rest].
  - cbn [Priority.sort_while].
    change (Z.to_nat (Z.of_nat (length (@nil nat)) - 1)) with O.
    cbn [Priority.sort_for mbind result_bind rbind].
    apply SortFacts.sort_while_done.
  - rewrite sort_while_pass by exact Hp. rewrite (bubble_sorted rest x Hs).
    apply SortFacts.sort_while_done.
Qed.

End Sort.

(** With at most one reactor nothing is compared. *)
Lemma sort_short queryTimelineModes getReactorCount getOwner (reactors : list nat) :
  (length reactors <= 1)%nat ->
  Priority.sort queryTimelineModes getReactorCount getOwner reactors = Ok reactors.
Proof.
  intros Hlen. destruct reactors as [| x [| y rest]]; [reflexivity | reflexivity |].
  cbn [length] in Hlen. lia.
Qed.

End SortMore.

(** X1.  A priority that [getPriority] returns at the depth [callCount] lies
    between 0 and [getReactorCount - 1 - callCount]: the priority of a
    reactor is less than the number of reactors of the agent. *)
Theorem getPriority_range
    (queryTimelineModes : nat -> list LabelStr * list LabelStr)
    (getReactorCount : Z) (getOwner : LabelStr -> option nat)
    (R : nat) (callCount p : Z) :
  0 <= callCount -> getReactorCount <= INT_MAX ->
  Priority.getPriority queryTimelineModes getReactorCount getOwner R callCount = Ok p ->
  0 <= p <= getReactorCount - 1 - callCount.
Proof.
  intros Hc Hn H. unfold Priority.getPriority in H.
  eapply PriorityFacts.getPriority_fuel_bounds; [exact Hc | exact Hn | exact H].
Qed.

Lemma getPriority_range_witness : 0 <= 2 <= 3 - 1 - 0.
Proof.
  apply (getPriority_range Examples.pipeline_modes 3 Examples.pipeline_owner 2%nat 0 2);
    [lia | unfold INT_MAX; lia | reflexivity].
Defined.

(** X2.  The depth at which [getPriority] is entered does not change a
    priority that it returns: what is returned at the depth [callCount] is
    returned at every smaller depth, and by [getPriority()]. *)
Theorem getPriority_depth_irrelevant
    (queryTimelineModes : nat -> list LabelStr * list LabelStr)
    (getReactorCount : Z) (getOwner : LabelStr -> option nat)
    (R : nat) (callCount callCount' p : Z) :
  0 <= callCount' <= callCount -> getReactorCount <= INT_MAX ->
  Priority.getPriority queryTimelineModes getReactorCount getOwner R callCount = Ok p ->
  Priority.getPriority queryTimelineModes getReactorCount getOwner R callCount' = Ok p.
Proof.
  intros Hc Hn H. unfold Priority.getPriority in *.
  eapply PriorityFacts.getPriority_fuel_mono; [| exact Hc | exact Hn | exact H]. lia.
Qed.

Lemma getPriority_depth_irrelevant_witness :
  Priority.getPriority Examples.pipeline_modes 3 Examples.pipeline_owner 1%nat 0 = Ok 1.
Proof.
  apply (getPriority_depth_irrelevant Examples.pipeline_modes 3 Examples.pipeline_owner
           1%nat 1 0 1); [lia | unfold INT_MAX; lia | reflexivity].
Defined.

(** X3.  An external timeline without owner stops [getPriority]: no priority
    is returned for a reactor that has one, at any depth, and when it is the
    first external timeline and the depth is below the reactor count the
    call stops with "Invalid id for" and the name of the timeline. *)
Theorem getPriority_unowned_timeline
    (queryTimelineModes : nat -> list LabelStr * list LabelStr)
    (getReactorCount : Z) (getOwner : LabelStr -> option nat)
    (R : nat) (callCount : Z) (timeline : LabelStr) :
  timeline ∈ Priority.externals queryTimelineModes R ->
  getOwner timeline = None ->
  (forall p,
     Priority.getPriority queryTimelineModes getReactorCount getOwner R callCount <> Ok p)
  /\ (callCount < getReactorCount ->
      head (Priority.externals queryTimelineModes R) = Some timeline ->
      Priority.getPriority queryTimelineModes getReactorCount getOwner R callCount
      = Fatal ("Invalid id for " +:+ timeline)).
Proof.
  intros Hin Ho. split.
  - intros p. apply PriorityMore.unowned_not_Ok with timeline; assumption.
  - intros Hlt Hhd. unfold Priority.getPriority.
    rewrite PriorityFacts.getPriority_fuel_unfold.
    rewrite (proj2 (Z.ltb_lt callCount getReactorCount)) by exact Hlt.
    cbn [checkError mbind result_bind rbind].
    destruct (Priority.externals queryTimelineModes R) as [| t ts]; [discriminate |].
    injection Hhd as ->. cbn [Priority.priority_loop]. rewrite Ho. reflexivity.
Qed.

Lemma getPriority_unowned_timeline_witness :
  (forall p, Priority.getPriority Examples.orphan_modes 1 Examples.orphan_owner 0%nat 0
             <> Ok p)
  /\ (0 < 1 ->
      head (Priority.externals Examples.orphan_modes 0%nat) = Some "ghost" ->
      Priority.getPriority Examples.orphan_modes 1 Examples.orphan_owner 0%nat 0
      = Fatal ("Invalid id for " +:+ "ghost")).
Proof.
  apply (getPriority_unowned_timeline Examples.orphan_modes 1 Examples.orphan_owner
           0%nat 0 "ghost").
  - apply list_elem_of_singleton. reflexivity.
  - reflexivity.
Defined.

(** X4.  [sort] returns a vector of no reactor or of one reactor as it is,
    whatever the dependencies are: with [count <= 0] the loop compares
    nothing and [getPriority] is not called, so that a single reactor that
    observes a timeline of its own passes without the cycle check. *)
Theorem sort_short_vector
    (queryTimelineModes : nat -> list LabelStr * list LabelStr)
    (getReactorCount : Z) (getOwner : LabelStr -> option nat)
    (reactors : list nat) :
  (length reactors <= 1)%nat ->
  Priority.sort queryTimelineModes getReactorCount getOwner reactors = Ok reactors.
Proof.
  apply SortMore.sort_short.
Qed.

Lemma sort_short_vector_witness :
  Priority.sort Examples.loop_modes 2 Examples.loop_owner [1%nat] = Ok [1%nat].
Proof.
  apply (sort_short_vector Examples.loop_modes 2 Examples.loop_owner [1%nat]).
  cbn. lia.
Defined.

(** X5.  [sort] of two or more reactors of the agent, one of which leads to
    a cycle of the dependencies, stops with "Cycle detected in reactor
    specification": the first pass asks for the priority of every reactor
    of the vector. *)
Theorem sort_detects_cycle
    (queryTimelineModes : nat -> list LabelStr * list LabelStr)
    (getReactorCount : Z) (getOwner : LabelStr -> option nat)
    (agentReactors reactors : list nat) :
  Priority.agent_of queryTimelineModes getReactorCount getOwner agentReactors ->
  (forall r, r ∈ reactors -> r ∈ agentReactors) ->
  (2 <= length reactors)%nat ->
  Z.of_nat (length reactors) <= INT_MAX + 1 ->
  Exists (Priority.reaches_cycle queryTimelineModes getOwner) reactors ->
  Priority.sort queryTimelineModes getReactorCount getOwner reactors
  = Fatal Priority.cycle_detected.
Proof.
  intros Hag Hsub Hlen Hint Hcyc.
  unfold Priority.sort, Priority.sort_fuel.
  rewrite SortFacts.count_of_size by exact Hint.
  destruct reactors as [| x [| y rest]]; cbn [length] in Hlen; try lia.
  cbn [Priority.sort_while].
  replace (Z.to_nat (Z.of_nat (length (x :: y :: rest)) - 1)) with (S (length rest))
    by (cbn [length]; lia).
  pose proof (PriorityMore.sort_for_cycle queryTimelineModes getReactorCount getOwner
                agentReactors (y :: rest) [] x false Hag Hsub) as E.
  cbn [length app] in E. rewrite E; [reflexivity |].
  apply Exists_cons in Hcyc as [Hx | Hrest]; [right | left; exact Hrest].
  split; [exact Hx | discriminate].
Qed.

Lemma sort_detects_cycle_witness :
  Priority.sort Examples.loop_modes 2 Examples.loop_owner [1%nat; 0%nat]
  = Fatal Priority.cycle_detected.
Proof.
  apply (sort_detects_cycle Examples.loop_modes 2 Examples.loop_owner
           Examples.loop_reactors [1%nat; 0%nat]).
  - exact ExampleFacts.loop_agent.
  - intros r Hr. unfold Examples.loop_reactors.
    rewrite !elem_of_cons, elem_of_nil in *. tauto.
  - cbn. lia.
  - vm_compute. discriminate.
  - apply Exists_cons_tl, Exists_cons_hd. exact ExampleFacts.loop_cycle.
Defined.

(** X6.  [sort] is idempotent: a vector that [sort] returned is returned
    unchanged when it is sorted again. *)
Theorem sort_idempotent
    (queryTimelineModes : nat -> list LabelStr * list LabelStr)
    (getReactorCount : Z) (getOwner : LabelStr -> option nat)
    (reactors sorted : list nat) :
  Z.of_nat (length reactors) <= INT_MAX + 1 ->
  Priority.sort queryTimelineModes getReactorCount getOwner reactors = Ok sorted ->
  Priority.sort queryTimelineModes getReactorCount getOwner sorted = Ok sorted.
Proof.
  intros Hint H.
  destruct (Nat.le_gt_cases (length reactors) 1) as [Hshort | Hlong].
  { rewrite SortMore.sort_short in H by exact Hshort. injection H as <-.
    apply SortMore.sort_short, Hshort. }
  set (prio := Priority.priority_of queryTimelineModes getReactorCount getOwner).
  assert (Hp : Priority.priorities_of queryTimelineModes getReactorCount getOwner
                 prio reactors).
  { destruct reactors as [| x [| y rest]]; cbn [length] in Hlong; try lia.
    pose proof H as H'. unfold Priority.sort, Priority.sort_fuel in H'.
    rewrite SortFacts.count_of_size in H' by exact Hint.
    cbn [Priority.sort_while] in H'.
    replace (Z.to_nat (Z.of_nat (length (x :: y :: rest)) - 1)) with (S (length rest))
      in H' by (cbn [length]; lia).
    destruct (Priority.sort_for _ _ _ (S (length rest)) 0 (x :: y :: rest) false)
      as [out | | |] eqn:E; try discriminate.
    intros r Hr.
    pose proof (PriorityMore.sort_for_Ok_priorities queryTimelineModes getReactorCount
                  getOwner (y :: rest) [] x false out ltac:(discriminate)) as G.
    cbn [length app] in G. destruct (G E r Hr) as [p Ep].
    unfold prio, Priority.priority_of. rewrite Ep. reflexivity. }
  destruct (SortFacts.sort_while_sorted queryTimelineModes getReactorCount getOwner prio
              (S (SortSpec.inversions prio reactors)) reactors ltac:(lia) Hp)
    as (sorted' & Hs & Hperm & Hsorted & _).
  assert (sorted' = sorted) as ->.
  { unfold Priority.sort, Priority.sort_fuel in H.
    rewrite SortFacts.count_of_size in H by exact Hint.
    rewrite Hs in H; [congruence |].
    pose proof (SortFacts.inversions_bound prio reactors). lia. }
  unfold Priority.sort, Priority.sort_fuel.
  rewrite SortFacts.count_of_size by (rewrite <- Hperm; exact Hint).
  apply (SortMore.sort_while_in_order queryTimelineModes getReactorCount getOwner prio);
    [| exact Hsorted].
  eapply SortFacts.priorities_of_Permutation; [exact Hperm | exact Hp].
Qed.

Lemma sort_idempotent_witness :
  Priority.sort Examples.pipeline_modes 3 Examples.pipeline_owner [0; 1; 1; 2]%nat
  = Ok [0; 1; 1; 2]%nat.
Proof.
  apply (sort_idempotent Examples.pipeline_modes 3 Examples.pipeline_owner
           [2; 1; 0; 1]%nat [0; 1; 1; 2]%nat).
  - vm_compute. discriminate.
  - reflexivity.
Defined.

(** ** The factory table in use *)

Module FactoryMore.
Import Factory FactoryUse.

Lemma registerFactory_other name factory (t t' : gmap string Id) other :
  registerFactory name factory t = Ok t' -> other <> name ->
  t' !! other = t !! other.
Proof.
  unfold registerFactory, map_insert.
  destruct (bool_decide (getFactory name t = noId)); [| discriminate].
  cbn [checkError mbind result_bind rbind].
  destruct (t !! name); intros [= <-] Hne; [reflexivity |].
  apply lookup_insert_ne. congruence.
Qed.

Lemma register_all_other regs : forall (t t' : gmap string Id) other,
  register_all regs t = Ok t' -> other ∉ regs.*1 -> t' !! other = t !! other.
Proof.
  induction regs as [| [n f] regs IH]; intros t t' other H Hnot; cbn in H.
  - congruence.
  - destruct (registerFactory n f t) as [t1 | | |] eqn:E; try discriminate.
    cbn in H. cbn in Hnot. apply not_elem_of_cons in Hnot as [Hne Hnot].
    rewrite (IH t1 t' other H Hnot).
    eapply registerFactory_other; [exact E | exact Hne].
Qed.

Lemma registerFactory_cases name factory (t : gmap string Id) :
  registerFactory name factory t = Ok (map_insert name factory t)
  \/ registerFactory name factory t = Fatal ("Already registered " +:+ name).
Proof.
  unfold registerFactory.
  destruct (bool_decide (getFactory name t = noId)); [left | right]; reflexivity.
Qed.

(** A sequence of registrations stops only at a name that is taken. *)
Lemma register_all_outcome regs : forall (t : gmap string Id),
  (exists t', register_all regs t = Ok t')
  \/ exists name, name ∈ regs.*1
       /\ register_all regs t = Fatal ("Already registered " +:+ name).
Proof.
  induction regs as [| [n f] regs IH]; intros t; cbn [register_all].
  - left. eauto.
  - destruct (registerFactory_cases n f t) as [E0 | E0]; rewrite E0;
      cbn [mbind result_bind rbind].
    + destruct (IH (map_insert n f t)) as [[t' E] | (name & Hin & E)].
      * left. eauto.
      * right. exists name. split; [cbn; apply elem_of_cons; auto | exact E].
    + right. exists n. split; [cbn; apply elem_of_cons; auto | reflexivity].
Qed.

(** The registrations of constructed factories all pass exactly when their
    names differ from each other and from the names of the table. *)
Lemma register_all_Ok_iff regs : forall (t : gmap string Id),
  Forall (fun p => p.2 <> noId) regs -> proper t ->
  (exists t', register_all regs t = Ok t')
  <-> NoDup regs.*1 /\ forall name, name ∈ regs.*1 -> t !! name = None.
Proof.
  induction regs as [| [n f] regs IH]; intros t Hv Hp.
  - cbn. split; [| eauto]. intros _. split; [constructor |].
    intros name Hin. inversion Hin.
  - apply Forall_cons in Hv as [Hf Hv]. cbn in Hf. cbn [register_all fmap list_fmap fst].
    destruct (t !! n) as [g |] eqn:En.
    + rewrite FactoryFacts.registerFactory_taken
        by (unfold getFactory; rewrite En; eauto).
      split.
      * intros [t' H]. discriminate.
      * intros [_ Hfree]. rewrite Hfree in En by (apply elem_of_cons; auto). discriminate.
    + rewrite FactoryFacts.registerFactory_fresh by exact En.
      cbn [mbind result_bind rbind]. rewrite IH; [| exact Hv |].
      * rewrite NoDup_cons. split.
        -- intros [Hnd Hfree]. split; [split; [| exact Hnd] |].
           ++ intros Hin. apply Hfree in Hin. rewrite lookup_insert_eq in Hin. discriminate.
           ++ intros name [-> | Hin]%elem_of_cons; [exact En |].
              specialize (Hfree name Hin).
              destruct (decide (n = name)) as [-> | Hne].
              ** rewrite lookup_insert_eq in Hfree. discriminate.
              ** rewrite lookup_insert_ne in Hfree by exact Hne. exact Hfree.
        -- intros [[Hnotin Hnd] Hfree]. split; [exact Hnd |].
           intros name Hin. rewrite lookup_insert_ne by (intros ->; contradiction).
           apply Hfree, elem_of_cons. auto.
      * intros name g. destruct (decide (n = name)) as [-> | Hne].
        -- rewrite lookup_insert_eq. congruence.
        -- rewrite lookup_insert_ne by exact Hne. apply Hp.
Qed.





End FactoryMore.

(** X7.  The constructors of factories all register exactly when the names
    of the factories differ from each other; when two share a name, the
    sequence stops with "Already registered" and one of the names. *)
Theorem factory_names_distinct (regs : list (LabelStr * Factory.Id)) :
  Forall (fun p => p.2 <> Factory.noId) regs ->
  ((exists lookupTable, Factory.register_all regs Factory.initial = Ok lookupTable)
   <-> NoDup regs.*1)
  /\ (~ NoDup regs.*1 ->
      exists name, name ∈ regs.*1
        /\ Factory.register_all regs Factory.initial
           = Fatal ("Already registered " +:+ name)).
Proof.
  intros Hv.
  assert (Hiff : (exists t, Factory.register_all regs Factory.initial = Ok t)
                 <-> NoDup regs.*1).
  { rewrite (FactoryMore.register_all_Ok_iff regs Factory.initial Hv).
    - split; [tauto |]. intros Hnd. split; [exact Hnd |].
      intros name _. apply lookup_empty.
    - intros n f. unfold Factory.initial. rewrite lookup_empty. discriminate. }
  split; [exact Hiff |]. intros Hdup.
  destruct (FactoryMore.register_all_outcome regs Factory.initial) as [Hok | Hfail];
    [| exact Hfail].
  exfalso. apply Hdup, Hiff, Hok.
Qed.

Lemma factory_names_distinct_witness :
  ((exists lookupTable,
       Factory.register_all Examples.two_factories Factory.initial = Ok lookupTable)
   <-> NoDup Examples.two_factories.*1)
  /\ (~ NoDup Examples.two_factories.*1 ->
      exists name, name ∈ Examples.two_factories.*1
        /\ Factory.register_all Examples.two_factories Factory.initial
           = Fatal ("Already registered " +:+ name)).
Proof.
  apply (factory_names_distinct Examples.two_factories).
  repeat constructor; discriminate.
Defined.

(** X8.  Registrations do not touch the names they do not mention: after a
    sequence of registrations that passed, [getFactory] answers for every
    other name what it answered before. *)
Theorem registration_keeps_other_names
    (regs : list (LabelStr * Factory.Id))
    (lookupTable lookupTable' : gmap string Factory.Id) (other : LabelStr) :
  Factory.register_all regs lookupTable = Ok lookupTable' ->
  other ∉ regs.*1 ->
  Factory.getFactory other lookupTable' = Factory.getFactory other lookupTable.
Proof.
  intros H Hnot. unfold Factory.getFactory.
  rewrite (FactoryMore.register_all_other regs lookupTable lookupTable' other H Hnot).
  reflexivity.
Qed.

Lemma registration_keeps_other_names_witness :
  Factory.getFactory "DbCore"
    (<["Deliberative" := Factory.handle 3]> Examples.two_factories_table)
  = Factory.getFactory "DbCore" Examples.two_factories_table.
Proof.
  apply (registration_keeps_other_names [("Deliberative", Factory.handle 3)]
           Examples.two_factories_table).
  - reflexivity.
  - cbn. intros Hin. apply list_elem_of_singleton in Hin. discriminate.
Defined.

(** X9.  [createInstance] looks the component up among the registered
    factories: for a name under which none was registered it stops with the
    name and "has not been registered.", and for a registered name it
    returns what [createInstance] of the factory registered under the name
    returns. *)
Theorem createInstance_by_name
    (Factory_createInstance : positive -> LabelStr -> TinyXML.TiXmlElement -> result nat)
    (regs : list (LabelStr * Factory.Id)) (lookupTable : gmap string Factory.Id)
    (agentName component : LabelStr) (configData : TinyXML.TiXmlElement) :
  Forall (fun p => p.2 <> Factory.noId) regs ->
  Factory.register_all regs Factory.initial = Ok lookupTable ->
  (component ∉ regs.*1 ->
     FactoryUse.createInstance Factory_createInstance agentName component configData
       lookupTable
     = Fatal (component +:+ " has not been registered."))
  /\ (forall key, (component, Factory.handle key) ∈ regs ->
        FactoryUse.createInstance Factory_createInstance agentName component configData
          lookupTable
        = Factory_createInstance key agentName configData).
Proof.
  intros Hv H.
  apply FactoryFacts.register_all_bindings in H as [Hp Hb]; [| exact Hv |].
  2: { intros n f. unfold Factory.initial. rewrite lookup_empty. discriminate. }
  unfold FactoryUse.createInstance, Factory.getFactory. split.
  - intros Hnot. destruct (lookupTable !! component) as [g |] eqn:E; [| reflexivity].
    exfalso. apply Hb in E as [E | E].
    + unfold Factory.initial in E. rewrite lookup_empty in E. discriminate.
    + apply Hnot. apply list_elem_of_fmap. exists (component, g). auto.
  - intros key Hin. rewrite (proj2 (Hb component (Factory.handle key))) by auto.
    reflexivity.
Qed.

Lemma createInstance_by_name_witness :
  ("Simulator" ∉ Examples.two_factories.*1 ->
     FactoryUse.createInstance Examples.numbered_factory "agent" "Simulator"
       Examples.hasty_config Examples.two_factories_table
     = Fatal ("Simulator" +:+ " has not been registered."))
  /\ (forall key, ("Simulator", Factory.handle key) ∈ Examples.two_factories ->
        FactoryUse.createInstance Examples.numbered_factory "agent" "Simulator"
          Examples.hasty_config Examples.two_factories_table
        = Examples.numbered_factory key "agent" Examples.hasty_config).
Proof.
  apply (createInstance_by_name Examples.numbered_factory Examples.two_factories
           Examples.two_factories_table "agent" "Simulator" Examples.hasty_config).
  - repeat constructor; discriminate.
  - reflexivity.
Defined.



(** ** The counters and the construction of a reactor *)

Section ReactorMore.

Variables TokenId Observation Servers ObserverId Derived : Type.
Variable Token_toString : TokenId -> string.
Variable synchronize :
  Reactor.TeleoReactor -> Reactor.World TokenId Derived ->
  result (bool * Reactor.World TokenId Derived).
Variable resume :
  Reactor.TeleoReactor -> Reactor.World TokenId Derived ->
  result (Reactor.World TokenId Derived).
Variable handleInit :
  Reactor.TeleoReactor -> TICK -> Servers -> ObserverId ->
  Reactor.World TokenId Derived -> result (Reactor.World TokenId Derived).
Variable handleTickStart :
  Reactor.TeleoReactor -> Reactor.World TokenId Derived ->
  result (Reactor.World TokenId Derived).
Variable handleNotify :
  Reactor.TeleoReactor -> Observation -> Reactor.World TokenId Derived ->
  result (Reactor.World TokenId Derived).
Variable handleRequest :
  Reactor.TeleoReactor -> TokenId -> Reactor.World TokenId Derived ->
  result (Reactor.World TokenId Derived).
Variable handleRecall :
  Reactor.TeleoReactor -> TokenId -> Reactor.World TokenId Derived ->
  result (Reactor.World TokenId Derived).

Local Abbreviation step :=
  (Reactor.step TokenId Observation Servers ObserverId Derived Token_toString synchronize
     resume handleInit handleTickStart handleNotify handleRequest handleRecall).
Local Abbreviation run :=
  (Reactor.run TokenId Observation Servers ObserverId Derived Token_toString synchronize
     resume handleInit handleTickStart handleNotify handleRequest handleRecall).
Local Abbreviation is_synchronize :=
  (ReactorSpec.is_synchronize TokenId Observation Servers ObserverId).
Local Abbreviation is_resume :=
  (ReactorSpec.is_resume TokenId Observation Servers ObserverId).
Local Abbreviation is_reset :=
  (ReactorSpec.is_reset TokenId Observation Servers ObserverId).
Local Abbreviation count_calls :=
  (ReactorSpec.count_calls TokenId Observation Servers ObserverId).

(** A call that does not set the counters back adds one to the counter of
    its kind and leaves the other. *)
Lemma step_counts c this w this' w' a b :
  Reactor.m_syncCount this = Some a -> Reactor.m_searchCount this = Some b ->
  is_reset c = false ->
  step c this w = Ok (this', w') ->
  Reactor.m_syncCount this' = Some (a + (if is_synchronize c then 1 else 0))
  /\ Reactor.m_searchCount this' = Some (b + (if is_resume c then 1 else 0)).
Proof.
  intros Ha Hb Hreset. destruct c; cbn in Hreset; try discriminate; cbn [Reactor.step].
  - unfold Reactor.doSynchronize.
    destruct (synchronize _ w) as [[ok w1] | | |]; try discriminate.
    cbn. intros [= <- _]. cbn. rewrite Ha, Hb. cbn. split; f_equal; lia.
  - unfold Reactor.doResume. destruct (resume _ w) as [w1 | | |]; try discriminate.
    cbn. intros [= <- _]. cbn. rewrite Ha, Hb. cbn. split; f_equal; lia.
  - destruct (handleNotify _ _ _) as [w1 | | |]; try discriminate.
    cbn. intros [= <- _]. rewrite Ha, Hb. split; f_equal; lia.
  - destruct (Reactor.request _ _ _ _ _ _ _) as [w1 | | |]; try discriminate.
    cbn. intros [= <- _]. rewrite Ha, Hb. split; f_equal; lia.
  - destruct (Reactor.recall _ _ _ _ _ _ _) as [w1 | | |]; try discriminate.
    cbn. intros [= <- _]. rewrite Ha, Hb. split; f_equal; lia.
Qed.

Lemma run_counts calls : forall this w this' w' a b,
  Reactor.m_syncCount this = Some a -> Reactor.m_searchCount this = Some b ->
  Forall (fun c => is_reset c = false) calls ->
  run calls this w = Ok (this', w') ->
  Reactor.m_syncCount this' = Some (a + count_calls is_synchronize calls)
  /\ Reactor.m_searchCount this' = Some (b + count_calls is_resume calls).
Proof.
  unfold ReactorSpec.count_calls.
  induction calls as [| c calls IH]; intros this w this' w' a b Ha Hb Hreset;
    cbn [Reactor.run].
  - intros [= <- _]. cbn. rewrite Ha, Hb. split; f_equal; lia.
  - apply Forall_cons in Hreset as [Hc Hreset].
    destruct (step c this w) as [[this1 w1] | | |] eqn:E; try discriminate.
    cbn [mbind result_bind rbind]. intros H.
    destruct (step_counts c this w this1 w1 a b Ha Hb Hc E) as [Ha1 Hb1].
    destruct (IH this1 w1 this' w' _ _ Ha1 Hb1 Hreset H) as [-> ->].
    cbn [List.filter]. destruct (is_synchronize c), (is_resume c); cbn [length];
      split; f_equal; lia.
Qed.

(** X11.  The counters of a reactor count the calls of the tick: after
    [doHandleTickStart] and any calls that are neither [doHandleInit] nor
    [doHandleTickStart], [m_syncCount] is the number of the [doSynchronize]
    calls among them and [m_searchCount] the number of the [doResume]
    calls. *)
Theorem counters_count_calls_of_tick
    (calls : list (Reactor.call TokenId Observation Servers ObserverId))
    (this this' : Reactor.TeleoReactor) (w w' : Reactor.World TokenId Derived) :
  Forall (fun c => is_reset c = false) calls ->
  run (Reactor.CallHandleTickStart _ _ _ _ :: calls) this w = Ok (this', w') ->
  Reactor.m_syncCount this' = Some (count_calls is_synchronize calls)
  /\ Reactor.m_searchCount this' = Some (count_calls is_resume calls).
Proof.
  intros Hreset. cbn [Reactor.run Reactor.step]. unfold Reactor.doHandleTickStart.
  destruct (handleTickStart _ w) as [w1 | | |]; try discriminate.
  cbn [mbind result_bind rbind]. intros H.
  apply (run_counts calls _ _ _ _ 0 0) in H; [exact H | reflexivity | reflexivity | exact Hreset].
Qed.

End ReactorMore.

Section ReactorGoals.

Variables TokenId Observation Servers ObserverId Derived : Type.
Variable Token_toString : TokenId -> string.
Variable synchronize :
  Reactor.TeleoReactor -> Reactor.World TokenId Derived ->
  result (bool * Reactor.World TokenId Derived).
Variable resume :
  Reactor.TeleoReactor -> Reactor.World TokenId Derived ->
  result (Reactor.World TokenId Derived).
Variable handleInit :
  Reactor.TeleoReactor -> TICK -> Servers -> ObserverId ->
  Reactor.World TokenId Derived -> result (Reactor.World TokenId Derived).
Variable handleTickStart :
  Reactor.TeleoReactor -> Reactor.World TokenId Derived ->
  result (Reactor.World TokenId Derived).
Variable handleNotify :
  Reactor.TeleoReactor -> Observation -> Reactor.World TokenId Derived ->
  result (Reactor.World TokenId Derived).
Variable handleRequest :
  Reactor.TeleoReactor -> TokenId -> Reactor.World TokenId Derived ->
  result (Reactor.World TokenId Derived).
Variable handleRecall :
  Reactor.TeleoReactor -> TokenId -> Reactor.World TokenId Derived ->
  result (Reactor.World TokenId Derived).

Local Abbreviation step :=
  (Reactor.step TokenId Observation Servers ObserverId Derived Token_toString synchronize
     resume handleInit handleTickStart handleNotify handleRequest handleRecall).
Local Abbreviation run :=
  (Reactor.run TokenId Observation Servers ObserverId Derived Token_toString synchronize
     resume handleInit handleTickStart handleNotify handleRequest handleRecall).
Local Abbreviation goal_log := (ReactorSpec.goal_log TokenId Derived).
Local Abbreviation goal_events :=
  (ReactorSpec.goal_events TokenId Observation Servers ObserverId).

Lemma goal_log_record (e : Reactor.event TokenId) (w : Reactor.World TokenId Derived) :
  goal_log (Reactor.record _ _ e w)
  = goal_log w ++ (if ReactorSpec.is_goal_event _ e then [e] else []).
Proof.
  unfold ReactorSpec.goal_log. cbn [Reactor.record Reactor.journal].
  rewrite List.filter_app. cbn [List.filter].
  destruct (ReactorSpec.is_goal_event _ e); reflexivity.
Qed.

(** With virtual methods that leave the goals of the log as they are, a
    call adds the goal it delivers and nothing else. *)
Lemma step_goal_log c this w this' w' :
  (forall r w0 ok w1, synchronize r w0 = Ok (ok, w1) -> goal_log w1 = goal_log w0) ->
  (forall r w0 w1, resume r w0 = Ok w1 -> goal_log w1 = goal_log w0) ->
  (forall r t s o w0 w1, handleInit r t s o w0 = Ok w1 -> goal_log w1 = goal_log w0) ->
  (forall r w0 w1, handleTickStart r w0 = Ok w1 -> goal_log w1 = goal_log w0) ->
  (forall r n w0 w1, handleNotify r n w0 = Ok w1 -> goal_log w1 = goal_log w0) ->
  (forall r g w0 w1, handleRequest r g w0 = Ok w1 -> goal_log w1 = goal_log w0) ->
  (forall r g w0 w1, handleRecall r g w0 = Ok w1 -> goal_log w1 = goal_log w0) ->
  step c this w = Ok (this', w') ->
  goal_log w' = goal_log w ++ goal_events c.
Proof.
  intros Hsync Hresume Hinit Htick Hnotify Hrequest Hrecall.
  destruct c; cbn [Reactor.step ReactorSpec.goal_events]; rewrite ?app_nil_r.
  - unfold Reactor.doSynchronize.
    destruct (synchronize _ w) as [[ok w1] | | |] eqn:E; try discriminate.
    cbn. intros [= _ <-]. eapply Hsync, E.
  - unfold Reactor.doResume. destruct (resume _ w) as [w1 | | |] eqn:E; try discriminate.
    cbn. intros [= _ <-]. eapply Hresume, E.
  - unfold Reactor.doHandleInit.
    destruct (handleInit _ _ _ _ _) as [w1 | | |] eqn:E; try discriminate.
    cbn [mbind result_bind rbind]. intros [= _ <-].
    rewrite (Hinit _ _ _ _ _ _ E), !goal_log_record. cbn. rewrite !app_nil_r. reflexivity.
  - unfold Reactor.doHandleTickStart.
    destruct (handleTickStart _ _) as [w1 | | |] eqn:E; try discriminate.
    cbn. intros [= _ <-]. eapply Htick, E.
  - destruct (handleNotify _ _ _) as [w1 | | |] eqn:E; try discriminate.
    cbn. intros [= _ <-]. eapply Hnotify, E.
  - unfold Reactor.request, Reactor.agent_log.
    destruct (Reactor.agentTick _ _ w) as [tick |]; [| discriminate].
    cbn [mbind result_bind rbind].
    destruct (handleRequest _ _ _) as [w1 | | |] eqn:E; try discriminate.
    intros [= _ <-].
    rewrite (Hrequest _ _ _ _ E), !goal_log_record. cbn. rewrite app_nil_r. reflexivity.
  - unfold Reactor.recall, Reactor.agent_log.
    destruct (Reactor.agentTick _ _ w) as [tick |]; [| discriminate].
    cbn [mbind result_bind rbind].
    destruct (handleRecall _ _ _) as [w1 | | |] eqn:E; try discriminate.
    intros [= _ <-].
    rewrite (Hrecall _ _ _ _ E), !goal_log_record. cbn. rewrite app_nil_r. reflexivity.
Qed.

(** X25.  The log of the agent lists the goals that were delivered, in the
    order of the deliveries: when the virtual methods leave the goals of the
    log as they are, a sequence of calls on a reactor that returns has added
    to them one [logRequest] for each [request] and one [logRecall] for each
    [recall], in the order of the calls, and nothing else. *)
Theorem agent_log_lists_goals_in_order
    (calls : list (Reactor.call TokenId Observation Servers ObserverId))
    (this this' : Reactor.TeleoReactor) (w w' : Reactor.World TokenId Derived) :
  (forall r w0 ok w1, synchronize r w0 = Ok (ok, w1) -> goal_log w1 = goal_log w0) ->
  (forall r w0 w1, resume r w0 = Ok w1 -> goal_log w1 = goal_log w0) ->
  (forall r t s o w0 w1, handleInit r t s o w0 = Ok w1 -> goal_log w1 = goal_log w0) ->
  (forall r w0 w1, handleTickStart r w0 = Ok w1 -> goal_log w1 = goal_log w0) ->
  (forall r n w0 w1, handleNotify r n w0 = Ok w1 -> goal_log w1 = goal_log w0) ->
  (forall r g w0 w1, handleRequest r g w0 = Ok w1 -> goal_log w1 = goal_log w0) ->
  (forall r g w0 w1, handleRecall r g w0 = Ok w1 -> goal_log w1 = goal_log w0) ->
  run calls this w = Ok (this', w') ->
  goal_log w' = goal_log w ++ concat (goal_events <$> calls).
Proof.
  intros Hsync Hresume Hinit Htick Hnotify Hrequest Hrecall.
  revert this w. induction calls as [| c calls IH]; intros this w; cbn [Reactor.run].
  - intros [= _ <-]. cbn. rewrite app_nil_r. reflexivity.
  - destruct (step c this w) as [[this1 w1] | | |] eqn:E; try discriminate.
    cbn [mbind result_bind rbind]. intros H.
    rewrite (IH _ _ H),
      (step_goal_log c this w this1 w1 Hsync Hresume Hinit Htick Hnotify Hrequest Hrecall E).
    cbn [fmap list_fmap concat]. rewrite app_assoc. reflexivity.
Qed.

End ReactorGoals.

Lemma agent_log_lists_goals_in_order_witness :
  exists this' w',
    Reactor.run nat unit unit unit (list nat) Examples.show_goal
      Examples.idle_synchronize Examples.idle Examples.idle_init Examples.idle
      Examples.idle_notify Examples.keep_goal Examples.drop_goal
      [Reactor.CallRequest _ _ _ _ 7%nat; Reactor.CallSynchronize _ _ _ _;
       Reactor.CallRecall _ _ _ _ 7%nat; Reactor.CallRequest _ _ _ _ 8%nat]
      Examples.nav_reactor Examples.tick3_world = Ok (this', w')
    /\ ReactorSpec.goal_log nat (list nat) w'
       = [Reactor.LogRequest _ 7%nat; Reactor.LogRecall _ 7%nat;
          Reactor.LogRequest _ 8%nat].
Proof.
  eexists _, _. split; [reflexivity |].
  refine (agent_log_lists_goals_in_order nat unit unit unit (list nat) Examples.show_goal
            Examples.idle_synchronize Examples.idle Examples.idle_init Examples.idle
            Examples.idle_notify Examples.keep_goal Examples.drop_goal
            [Reactor.CallRequest _ _ _ _ 7%nat; Reactor.CallSynchronize _ _ _ _;
             Reactor.CallRecall _ _ _ _ 7%nat; Reactor.CallRequest _ _ _ _ 8%nat]
            Examples.nav_reactor _ Examples.tick3_world _ _ _ _ _ _ _ _ eq_refl).
  - intros r w0 ok w1 [= _ <-]. reflexivity.
  - intros r w0 w1 [= <-]. reflexivity.
  - intros r t s o w0 w1 [= <-]. reflexivity.
  - intros r w0 w1 [= <-]. reflexivity.
  - intros r n w0 w1 [= <-]. reflexivity.
  - intros r g w0 w1 [= <-]. reflexivity.
  - intros r g w0 w1 [= <-]. reflexivity.
Defined.

Lemma counters_count_calls_of_tick_witness :
  Reactor.m_syncCount
    (Reactor.set_search (Some 2) 0 (Reactor.set_sync (Some 1) 0 Examples.nav_reactor))
  = Some (ReactorSpec.count_calls nat unit unit unit
            (ReactorSpec.is_synchronize nat unit unit unit)
            [Reactor.CallResume _ _ _ _; Reactor.CallSynchronize _ _ _ _;
             Reactor.CallRequest _ _ _ _ 7%nat; Reactor.CallResume _ _ _ _])
  /\ Reactor.m_searchCount
       (Reactor.set_search (Some 2) 0 (Reactor.set_sync (Some 1) 0 Examples.nav_reactor))
     = Some (ReactorSpec.count_calls nat unit unit unit
               (ReactorSpec.is_resume nat unit unit unit)
               [Reactor.CallResume _ _ _ _; Reactor.CallSynchronize _ _ _ _;
                Reactor.CallRequest _ _ _ _ 7%nat; Reactor.CallResume _ _ _ _]).
Proof.
  eapply (counters_count_calls_of_tick nat unit unit unit (list nat) Examples.show_goal
            Examples.idle_synchronize Examples.idle Examples.idle_init Examples.idle
            Examples.idle_notify Examples.keep_goal Examples.drop_goal
            [Reactor.CallResume _ _ _ _; Reactor.CallSynchronize _ _ _ _;
             Reactor.CallRequest _ _ _ _ 7%nat; Reactor.CallResume _ _ _ _]
            Examples.nav_reactor _ Examples.tick3_world).
  - repeat constructor.
  - reflexivity.
Defined.

(** X12.  Constructing a reactor from its configuration is constructing it
    from the values read there: with the attributes [name] and [latency]
    present, the outcome is that of the other constructor on the name, on
    the numbers that [atoi] reads for [latency] and [lookAhead], and on the
    flag read from [log]; when [lookAhead] is absent, the final tick of the
    agent stands for it. *)
Theorem make_from_xml_is_make
    (atoi : string -> Z) (TICK_of_int : Z -> TICK)
    (string_cast_bool : bool -> option string -> bool) (agentFinalTick : option TICK)
    (agentName : LabelStr) (configData : TinyXML.TiXmlElement) (logDefault : bool)
    (name text : string) (lookAhead : TICK) :
  TinyXML.Attribute "name" configData = Some name ->
  TinyXML.Attribute "latency" configData = Some text ->
  match TinyXML.Attribute "lookAhead" configData with
  | Some ahead => Some (TICK_of_int (atoi ahead))
  | None => agentFinalTick
  end = Some lookAhead ->
  Reactor.make_from_xml atoi TICK_of_int string_cast_bool agentFinalTick
    agentName configData logDefault
  = Reactor.make agentName name lookAhead (TICK_of_int (atoi text))
      (string_cast_bool logDefault (TinyXML.Attribute "log" configData)).
Proof.
  intros Hname Htext Hahead.
  unfold Reactor.make_from_xml, Reactor.make, Reactor.getLookAheadFromXML,
    Reactor.extractData.
  rewrite Hname, Htext. cbn [mbind result_bind rbind].
  destruct (TinyXML.Attribute "lookAhead" configData) as [ahead |].
  - injection Hahead as <-. reflexivity.
  - rewrite Hahead. reflexivity.
Qed.

Lemma make_from_xml_is_make_witness :
  Reactor.make_from_xml Examples.read_int id (fun b _ => b) (Some 100)
    "agent" Examples.patient_config false
  = Reactor.make "agent" "nav" 100 (id (Examples.read_int "5"))
      ((fun b _ => b) false (TinyXML.Attribute "log" Examples.patient_config)).
Proof.
  apply (make_from_xml_is_make Examples.read_int id (fun b _ => b) (Some 100)
           "agent" Examples.patient_config false "nav" "5" 100);
    reflexivity.
Defined.

(** ** More on domains and observations as XML *)

Module XMLMore.
Import TinyXML EuropaXML Observer XMLSpec.

Lemma append_length (a b : string) :
  String.length (a +:+ b) = (String.length a + String.length b)%nat.
Proof.
  induction a as [| x a IH]; [reflexivity |].
  rewrite append_String. cbn [String.length]. rewrite IH. reflexivity.
Qed.

(** Adding a text that is not empty changes the stream. *)
Lemma append_changes (out : FILE) (c : ascii) (text : string) :
  out +:+ String c text <> out.
Proof.
  intros H. apply (f_equal String.length) in H. rewrite append_length in H.
  cbn [String.length] in H. lia.
Qed.

Lemma appends_fprintf (text : string) : appends (fprintf text).
Proof. intros out. reflexivity. Qed.

Lemma appends_mret {A} (a : A) : appends (mret a : io A).
Proof. intros out. cbn. rewrite append_empty_r. reflexivity. Qed.

Lemma appends_checkError (cond : bool) (msg : string) : appends (io_checkError cond msg).
Proof. intros out. cbn. rewrite append_empty_r. reflexivity. Qed.

Lemma appends_bind {A B} (m : io A) (k : A -> io B) :
  appends m -> (forall a, appends (k a)) -> appends (m ≫= k).
Proof.
  intros Hm Hk out. unfold mbind, io_bind.
  rewrite (Hm out). destruct (m "") as [[a | msg | |] t]; cbn [fst snd];
    try reflexivity.
  rewrite (Hk a (out +:+ t)), (Hk a t). cbn [fst snd].
  rewrite append_assoc. reflexivity.
Qed.

Lemma foldl_LinkEndChild {A} (f : A -> TiXmlElement) (values : list A) :
  forall tag attrs children,
    foldl (fun elem i => LinkEndChild (f i) elem) (Element tag attrs children) values
    = Element tag attrs (children ++ (f <$> values)).
Proof.
  induction values as [| v values IH]; intros tag attrs children; cbn [foldl].
  - rewrite app_nil_r. reflexivity.
  - cbn [LinkEndChild]. rewrite IH, <- app_assoc. reflexivity.
Qed.

Section Domains.

Context {europa : Europa}.

Lemma appends_domain_val_print_xml (domain : AbstractDomain) (value : double) :
  appends (domain_val_print_xml domain value).
Proof.
  unfold domain_val_print_xml.
  destruct (isEntity domain); [apply appends_fprintf |].
  destruct (is_bool (getTypeName domain)); [apply appends_fprintf |].
  destruct (isNumeric domain); [| apply appends_fprintf].
  apply appends_bind; [apply appends_fprintf |]. intros _.
  destruct (is_int (getTypeName domain)); apply appends_fprintf.
Qed.

Lemma appends_print_values (domain : AbstractDomain) (values : list double) :
  appends (print_values domain values).
Proof.
  induction values as [| v values IH]; cbn [print_values].
  - apply appends_mret.
  - apply appends_bind; [apply appends_domain_val_print_xml | intros _; exact IH].
Qed.

Lemma appends_print_xml (domain : AbstractDomain) : appends (print_xml domain).
Proof.
  unfold print_xml. apply appends_bind; [apply appends_checkError |]. intros _.
  destruct (isSingleton domain); [apply appends_domain_val_print_xml |].
  destruct (isEnumerated domain).
  { destruct (getValues domain) as [| v values]; [apply appends_fprintf |].
    apply appends_bind; [apply appends_fprintf |]. intros _.
    apply appends_bind; [apply appends_print_values |]. intros _.
    apply appends_fprintf. }
  destruct (isInterval domain); [apply appends_fprintf | apply appends_mret].
Qed.

Lemma appends_print_asserts (o : Observation) (todo : nat) : forall i,
  appends (print_asserts o todo i).
Proof.
  induction todo as [| todo IH]; intros i; cbn [print_asserts].
  - apply appends_mret.
  - apply appends_bind; [apply appends_fprintf |]. intros _.
    apply appends_bind; [apply appends_print_xml |]. intros _.
    apply appends_bind; [apply appends_fprintf |]. intros _. apply IH.
Qed.

(** What [domain_val_print_xml] writes begins with the opening of a tag. *)
Lemma value_text_tag (domain : AbstractDomain) (value : double) :
  exists rest, value_text domain value = String "<" rest.
Proof.
  unfold value_text, domain_val_print_xml.
  destruct (isEntity domain); [eexists; reflexivity |].
  destruct (is_bool (getTypeName domain)); [eexists; reflexivity |].
  destruct (isNumeric domain); [| eexists; reflexivity].
  rewrite XMLFacts.fprintf_then.
  destruct (is_int (getTypeName domain)); rewrite XMLFacts.fprintf_last; cbn [snd];
    rewrite append_empty_l, !append_String; eexists; reflexivity.
Qed.

(** The loop over the parameters stops at the first one whose domain is
    empty, after the opening of its [Assert] element. *)
Lemma print_asserts_stops (o : Observation) (todo : nat) : forall i k out,
  (i <= k < i + todo)%nat ->
  (forall j, (i <= j < k)%nat -> isEmpty (parameter o j).2 = false) ->
  isEmpty (parameter o k).2 = true ->
  print_asserts o todo i out
  = (Fatal "print_xml<AbstractDomain>: Unknown domain type.",
     out +:+ concat_text (assert_text o <$> seq i (k - i))
     +:+ "<Assert name=" +:+ dq +:+ (parameter o k).1 +:+ dq +:+ ">").
Proof.
  induction todo as [| todo IH]; intros i k out Hk Hbefore Hempty; [lia |].
  cbn [print_asserts]. rewrite XMLFacts.fprintf_then. unfold mbind at 1, io_bind at 1.
  destruct (decide (i = k)) as [-> | Hne].
  - rewrite XMLFacts.print_xml_empty by exact Hempty.
    replace (k - k)%nat with O by lia. cbn [seq fmap list_fmap concat_text foldr].
    rewrite append_empty_l. reflexivity.
  - rewrite XMLFacts.print_xml_text by (apply Hbefore; lia).
    rewrite XMLFacts.fprintf_then.
    rewrite (IH (S i) k) by (try lia; try assumption; intros j Hj; apply Hbefore; lia).
    replace (k - i)%nat with (S (k - S i)) by lia.
    cbn [seq fmap list_fmap concat_text foldr]. unfold assert_text at 2.
    rewrite !append_assoc. reflexivity.
Qed.

End Domains.

End XMLMore.

(** X13.  A domain that is not empty, holds more than one value, is not
    enumerated and is an interval is serialised as the element [interval]
    with its type and with [min] and [max], the texts that
    [domain_val_to_str] gives for the two bounds; [to_xml] builds the element
    and [print_xml] writes it.  For a numeric domain of an integer type that
    is not a boolean type the text of a bound is [+inf], [-inf] or the bound
    as a decimal integer. *)
Theorem interval_domain_element {europa : EuropaXML.Europa}
    (domain : EuropaXML.AbstractDomain) (out : FILE) :
  EuropaXML.isEmpty domain = false ->
  EuropaXML.isSingleton domain = false ->
  EuropaXML.isEnumerated domain = false ->
  EuropaXML.isInterval domain = true ->
  let type := EuropaXML.getTypeName domain in
  let text := fun bound =>
    EuropaXML.domain_val_to_str domain bound EuropaXML.symbolic_default in
  let min := text (EuropaXML.getLowerBound domain) in
  let max := text (EuropaXML.getUpperBound domain) in
  EuropaXML.to_xml domain
  = Some (TinyXML.Element "interval" [("type", type); ("min", min); ("max", max)] [])
  /\ EuropaXML.print_xml domain out
     = (Ok tt, out +:+ "<interval type=" +:+ dq +:+ type +:+ dq +:+ " min=" +:+ dq
               +:+ min +:+ dq +:+ " max=" +:+ dq +:+ max +:+ dq +:+ "/>")
  /\ (EuropaXML.isNumeric domain = true -> EuropaXML.is_bool type = false ->
      EuropaXML.is_int type = true ->
      forall bound,
        text bound = "+inf" \/ text bound = "-inf"
        \/ (text bound = show_int (EuropaXML.double_to_int bound)
            /\ is_decimal (text bound) = true)).
Proof.
  intros Hne Hs He Hi type text min max. split; [| split].
  - unfold EuropaXML.to_xml. rewrite Hne, Hs, He, Hi. reflexivity.
  - unfold EuropaXML.print_xml, io_checkError. rewrite Hne, Hs, He, Hi. reflexivity.
  - intros Hnum Hbool Hint bound. unfold text, EuropaXML.domain_val_to_str.
    fold type. rewrite Hbool, Hnum, Hint.
    destruct (EuropaXML.symbolic_default && _); [auto |].
    destruct (EuropaXML.symbolic_default && _); [auto |].
    right. right. split; [reflexivity | apply show_int_decimal].
Qed.

Lemma interval_domain_element_witness :
  EuropaXML.to_xml Examples.zero_to_ten
  = Some (TinyXML.Element "interval" [("type", "int"); ("min", "0"); ("max", "10")] [])
  /\ EuropaXML.print_xml Examples.zero_to_ten ""
     = (Ok tt, "<interval type=" +:+ dq +:+ "int" +:+ dq +:+ " min=" +:+ dq
               +:+ "0" +:+ dq +:+ " max=" +:+ dq +:+ "10" +:+ dq +:+ "/>").
Proof.
  pose proof (interval_domain_element (europa := Examples.small_europa)
                Examples.zero_to_ten "" eq_refl eq_refl eq_refl eq_refl) as [H1 [H2 _]].
  split; [exact H1 | exact H2].
Defined.

(** X14.  [to_xml] of an enumerated domain that is not empty and does not
    hold exactly one value is the element [set] with the type of the domain
    and one child for each value, in the order of the values: the element
    that [domain_val_to_xml] builds for the value. *)
Theorem enumerated_domain_children {europa : EuropaXML.Europa}
    (domain : EuropaXML.AbstractDomain) :
  EuropaXML.isEmpty domain = false ->
  EuropaXML.isSingleton domain = false ->
  EuropaXML.isEnumerated domain = true ->
  EuropaXML.to_xml domain
  = Some (TinyXML.Element "set" [("type", EuropaXML.getTypeName domain)]
            (EuropaXML.domain_val_to_xml domain <$> EuropaXML.getValues domain)).
Proof.
  intros Hne Hs He. unfold EuropaXML.to_xml. rewrite Hne, Hs, He.
  cbn [negb TinyXML.new_element TinyXML.SetAttribute TinyXML.set_attribute].
  rewrite XMLMore.foldl_LinkEndChild. reflexivity.
Qed.

Lemma enumerated_domain_children_witness :
  EuropaXML.to_xml Examples.two_colors
  = Some (TinyXML.Element "set" [("type", "Color")]
            (EuropaXML.domain_val_to_xml Examples.two_colors <$> [1; 2])).
Proof.
  apply (enumerated_domain_children (europa := Examples.small_europa) Examples.two_colors);
    reflexivity.
Defined.

(** X15.  The two serialisers agree on when there is an element: [to_xml]
    answers the null pointer exactly when [print_xml] leaves the stream as it
    was, be it that it stopped at its check or that it returned. *)
Theorem to_xml_null_iff_nothing_written {europa : EuropaXML.Europa}
    (domain : EuropaXML.AbstractDomain) (out : FILE) :
  EuropaXML.to_xml domain = None <-> (EuropaXML.print_xml domain out).2 = out.
Proof.
  destruct (EuropaXML.isEmpty domain) eqn:Hne.
  { rewrite XMLFacts.print_xml_empty by exact Hne.
    unfold EuropaXML.to_xml. rewrite Hne. cbn. tauto. }
  unfold EuropaXML.to_xml, EuropaXML.print_xml, io_checkError. rewrite Hne.
  unfold mbind at 1, io_bind at 1. cbn [negb checkError].
  destruct (EuropaXML.isSingleton domain).
  { rewrite XMLFacts.domain_val_print_xml_text. cbn [snd].
    destruct (XMLMore.value_text_tag domain (EuropaXML.getSingletonValue domain))
      as [rest ->].
    split; [discriminate |]. intros H. exfalso. exact (XMLMore.append_changes _ _ _ H). }
  destruct (EuropaXML.isEnumerated domain).
  { split; [discriminate |]. intros H. exfalso.
    destruct (EuropaXML.getValues domain) as [| v values].
    - rewrite XMLFacts.fprintf_last in H. cbn [snd] in H.
      rewrite append_String in H. exact (XMLMore.append_changes _ _ _ H).
    - rewrite XMLFacts.fprintf_then in H. unfold mbind, io_bind in H.
      rewrite XMLFacts.print_values_text, XMLFacts.fprintf_last in H. cbn [snd] in H.
      rewrite !append_assoc, append_String in H.
      exact (XMLMore.append_changes _ _ _ H). }
  destruct (EuropaXML.isInterval domain).
  { split; [discriminate |]. intros H. exfalso.
    rewrite XMLFacts.fprintf_last in H. cbn [snd] in H.
    rewrite append_String in H. exact (XMLMore.append_changes _ _ _ H). }
  cbn. tauto.
Qed.

(** X16.  The two serialisers agree on every value: what
    [domain_val_print_xml] writes for a value of a domain is the tag, closed
    in place, of the element that [domain_val_to_xml] builds for it, with the
    attributes of the element in their order. *)
Theorem value_text_is_element_text {europa : EuropaXML.Europa}
    (domain : EuropaXML.AbstractDomain) (value : EuropaXML.double) (out : FILE) :
  EuropaXML.domain_val_print_xml domain value out
  = (Ok tt, out +:+ XMLSpec.childless_text (EuropaXML.domain_val_to_xml domain value)).
Proof.
  unfold EuropaXML.domain_val_print_xml, EuropaXML.domain_val_to_xml.
  destruct (EuropaXML.isEntity domain);
    [| destruct (EuropaXML.is_bool (EuropaXML.getTypeName domain));
       [| destruct (EuropaXML.isNumeric domain);
          [destruct (EuropaXML.is_int (EuropaXML.getTypeName domain)) |]]].
  all: try rewrite XMLFacts.fprintf_then_last.
  all: try rewrite XMLFacts.fprintf_last.
  all: cbn [TinyXML.new_element TinyXML.SetAttribute TinyXML.set_attribute
            XMLSpec.childless_text foldr XMLSpec.attribute_text fst snd String.eqb
            Ascii.eqb Bool.eqb].
  all: unfold XMLSpec.attribute_text; cbn [fst snd].
  all: rewrite ?append_assoc; reflexivity.
Qed.

(** X17.  [print_xml] and [printXML] only add to the stream: what the stream
    held stays at its beginning, also when the call stops at a check, and
    neither the outcome nor the text that is added depends on what the
    stream held. *)
Theorem printing_only_appends {europa : EuropaXML.Europa}
    (domain : EuropaXML.AbstractDomain) (o : Observer.Observation) (out : FILE) :
  EuropaXML.print_xml domain out
  = ((EuropaXML.print_xml domain "").1, out +:+ (EuropaXML.print_xml domain "").2)
  /\ Observer.printXML o out
     = ((Observer.printXML o "").1, out +:+ (Observer.printXML o "").2).
Proof.
  split; [apply XMLMore.appends_print_xml |].
  revert out. change (XMLSpec.appends (Observer.printXML o)). unfold Observer.printXML.
  destruct (Nat.eqb (Observer.countParameters o) 0); [apply XMLMore.appends_fprintf |].
  apply XMLMore.appends_bind; [apply XMLMore.appends_fprintf |]. intros _.
  apply XMLMore.appends_bind; [apply XMLMore.appends_print_asserts |]. intros _.
  apply XMLMore.appends_fprintf.
Qed.

(** X18.  [printXML] stops at the first parameter whose domain is empty: the
    opening tag, the [Assert] elements of the parameters before it and the
    opening of its own [Assert] element are written, and nothing after. *)
Theorem printXML_stops_at_empty_domain {europa : EuropaXML.Europa}
    (o : Observer.Observation) (k : nat) (out : FILE) :
  (k < Observer.countParameters o)%nat ->
  (forall j, (j < k)%nat -> EuropaXML.isEmpty (Observer.parameter o j).2 = false) ->
  EuropaXML.isEmpty (Observer.parameter o k).2 = true ->
  Observer.printXML o out
  = (Fatal "print_xml<AbstractDomain>: Unknown domain type.",
     out +:+ "<Observation on=" +:+ dq +:+ Observer.getObjectName o +:+ dq
     +:+ " predicate=" +:+ dq +:+ Observer.getPredicate o +:+ dq +:+ ">"
     +:+ Observer.concat_text (Observer.assert_text o <$> seq 0 k)
     +:+ "<Assert name=" +:+ dq +:+ (Observer.parameter o k).1 +:+ dq +:+ ">").
Proof.
  intros Hk Hbefore Hempty. unfold Observer.printXML.
  destruct (Observer.countParameters o) as [| n] eqn:En; [lia |].
  cbn [Nat.eqb]. rewrite XMLFacts.fprintf_then. unfold mbind at 1, io_bind at 1.
  rewrite (XMLMore.print_asserts_stops o (S n) 0 k)
    by (try lia; try assumption; intros j Hj; apply Hbefore; lia).
  replace (k - 0)%nat with k by lia. rewrite !append_assoc. reflexivity.
Qed.

Lemma printXML_stops_at_empty_domain_witness :
  Observer.printXML Examples.void_observation "log:"
  = (Fatal "print_xml<AbstractDomain>: Unknown domain type.",
     "log:" +:+ "<Observation on=" +:+ dq +:+ "camera" +:+ dq
     +:+ " predicate=" +:+ dq +:+ "Seen" +:+ dq +:+ ">"
     +:+ Observer.concat_text (Observer.assert_text Examples.void_observation <$> seq 0 0)
     +:+ "<Assert name=" +:+ dq +:+ "color" +:+ dq +:+ ">").
Proof.
  apply (printXML_stops_at_empty_domain (europa := Examples.small_europa)
           Examples.void_observation 0 "log:").
  - cbn. lia.
  - intros j Hj. lia.
  - reflexivity.
Defined.

(** ** Observations by value *)

Lemma to_unsigned_small (z : Z) : 0 <= z < 2 ^ 32 -> to_unsigned z = z.
Proof. intros H. unfold to_unsigned. apply Z.mod_small. exact H. Qed.

Module ByValueFacts.
Import EuropaXML ObservationByValue.

Section ByValue.

Context {europa : Europa}.

(** Pushing keeps the count equal to the size of the vector, as long as an
    [unsigned int] holds the size. *)
Lemma push_all (pairs : list (LabelStr * AbstractDomain)) : forall o,
  m_parameterCount o = Z.of_nat (length (m_parameters o)) ->
  Z.of_nat (length (m_parameters o) + length pairs) < 2 ^ 32 ->
  let o' := foldl (fun o nameValuePair => push_back nameValuePair.1 nameValuePair.2 o)
              o pairs in
  m_parameterCount o' = Z.of_nat (length (m_parameters o'))
  /\ m_parameters o' = m_parameters o ++ pairs
  /\ m_objectName o' = m_objectName o /\ m_predicateName o' = m_predicateName o.
Proof.
  induction pairs as [| [name dom] pairs IH]; intros o Hcount Hsize;
    cbn [foldl fst snd] in *.
  - rewrite app_nil_r. auto.
  - cbn [length] in Hsize.
    destruct (IH (push_back name dom o)) as (H1 & H2 & H3 & H4).
    + cbn [push_back m_parameterCount m_parameters]. rewrite length_app.
      cbn [length]. rewrite to_unsigned_small by lia. lia.
    + cbn [push_back m_parameters]. rewrite length_app. cbn [length]. lia.
    + rewrite H1, H2, H3, H4.
      cbn [push_back m_parameters m_objectName m_predicateName].
      rewrite <- app_assoc. auto.
Qed.

Lemma fmap_seq_lookup {A B} (l : list A) : forall (g : nat -> B) (f : A -> B),
  (forall i x, l !! i = Some x -> g i = f x) ->
  g <$> seq 0 (length l) = f <$> l.
Proof.
  induction l as [| x l IH]; intros g f Hg; [reflexivity |].
  cbn [length seq fmap list_fmap]. rewrite (Hg O x) by reflexivity. f_equal.
  rewrite <- fmap_S_seq, <- list_fmap_compose.
  apply IH. intros i y Hi. cbn. apply Hg. exact Hi.
Qed.

(** The [Assert] element of a pair of a name and a domain. *)
Lemma assert_text_pushed objectName predicateName spare
    (pairs : list (LabelStr * AbstractDomain)) i nameValuePair :
  Z.of_nat (length pairs) < 2 ^ 32 ->
  pairs !! i = Some nameValuePair ->
  Observer.assert_text (as_Observation spare (pushed objectName predicateName pairs)) i
  = "<Assert name=" +:+ dq +:+ nameValuePair.1 +:+ dq +:+ ">"
    +:+ Observer.domain_text nameValuePair.2 +:+ "</Assert>".
Proof.
  intros Hsize Hi.
  destruct (push_all pairs (make objectName predicateName))
    as (Hcount & Hparams & _); [reflexivity | cbn; lia |].
  fold (pushed objectName predicateName pairs) in Hcount, Hparams.
  cbn [make m_parameters app] in Hparams.
  unfold Observer.assert_text, as_Observation. cbn [Observer.parameter].
  unfold operator_index, countParameters.
  rewrite Hcount, Hparams, Z.eqb_refl, Hi. reflexivity.
Qed.

End ByValue.

End ByValueFacts.

(** X19.  An observation by value gives back the parameters that were
    pushed on it, in the order of the pushes: after [push_back] of the pairs
    [pairs] on a new observation, fewer than [2^32] of them,
    [countParameters()] is their number, [operator[]] passes its check and
    answers the pair of each index below it, and an index from their number
    on is outside the vector. *)
Theorem pushed_parameters_are_kept {europa : EuropaXML.Europa}
    (objectName predicateName : LabelStr)
    (pairs : list (LabelStr * EuropaXML.AbstractDomain)) (index : nat) :
  Z.of_nat (length pairs) < 2 ^ 32 ->
  let o := ObservationByValue.pushed objectName predicateName pairs in
  ObservationByValue.countParameters o = Z.of_nat (length pairs)
  /\ (forall nameValuePair, pairs !! index = Some nameValuePair ->
        ObservationByValue.operator_index o index = Ok nameValuePair)
  /\ ((length pairs <= index)%nat ->
      ObservationByValue.operator_index o index = Undefined).
Proof.
  intros Hsize o.
  destruct (ByValueFacts.push_all pairs (ObservationByValue.make objectName predicateName))
    as (Hcount & Hparams & _); [reflexivity | cbn; lia |].
  fold (ObservationByValue.pushed objectName predicateName pairs) in Hcount, Hparams.
  fold o in Hcount, Hparams. cbn [ObservationByValue.make ObservationByValue.m_parameters app]
    in Hparams.
  unfold ObservationByValue.operator_index, ObservationByValue.countParameters.
  rewrite Hcount, Hparams, Z.eqb_refl. cbn [checkError mbind result_bind rbind].
  split; [reflexivity |]. split.
  - intros nameValuePair ->. reflexivity.
  - intros Hge. rewrite (lookup_ge_None_2 pairs index Hge). reflexivity.
Qed.

Lemma pushed_parameters_are_kept_witness :
  ObservationByValue.countParameters
    (ObservationByValue.pushed "camera" "Seen"
       [("count", Examples.forty_two); ("color", Examples.two_colors)])
  = Z.of_nat 2
  /\ (forall nameValuePair,
        [("count", Examples.forty_two); ("color", Examples.two_colors)] !! 1%nat
        = Some nameValuePair ->
        ObservationByValue.operator_index
          (ObservationByValue.pushed "camera" "Seen"
             [("count", Examples.forty_two); ("color", Examples.two_colors)]) 1
        = Ok nameValuePair)
  /\ ((2 <= 1)%nat ->
      ObservationByValue.operator_index
        (ObservationByValue.pushed "camera" "Seen"
           [("count", Examples.forty_two); ("color", Examples.two_colors)]) 1
      = Undefined).
Proof.
  apply (pushed_parameters_are_kept (europa := Examples.small_europa) "camera" "Seen"
           [("count", Examples.forty_two); ("color", Examples.two_colors)] 1).
  vm_compute. reflexivity.
Defined.

(** X20.  An observation by value is written with its parameters in the
    order in which they were pushed: with no parameter it is the one tag
    closed in place, and with parameters, fewer than [2^32] and none with an
    empty domain, it is the opening tag, one [Assert] element for each pair
    in the order of the pushes, holding what [print_xml] writes for the
    domain of the pair, and the closing tag. *)
Theorem pushed_parameters_are_written {europa : EuropaXML.Europa}
    (objectName predicateName : LabelStr)
    (pairs : list (LabelStr * EuropaXML.AbstractDomain))
    (spare : LabelStr * EuropaXML.AbstractDomain) (out : FILE) :
  Z.of_nat (length pairs) < 2 ^ 32 ->
  Forall (fun nameValuePair => EuropaXML.isEmpty nameValuePair.2 = false) pairs ->
  let o := ObservationByValue.as_Observation spare
             (ObservationByValue.pushed objectName predicateName pairs) in
  Observer.printXML o out
  = match pairs with
    | [] =>
        (Ok tt, out +:+ "<Observation on=" +:+ dq +:+ objectName +:+ dq
                +:+ " predicate=" +:+ dq +:+ predicateName +:+ dq +:+ " />")
    | _ =>
        (Ok tt, out +:+ "<Observation on=" +:+ dq +:+ objectName +:+ dq
                +:+ " predicate=" +:+ dq +:+ predicateName +:+ dq +:+ ">"
                +:+ Observer.concat_text
                      ((fun nameValuePair =>
                          "<Assert name=" +:+ dq +:+ nameValuePair.1 +:+ dq +:+ ">"
                          +:+ Observer.domain_text nameValuePair.2 +:+ "</Assert>")
                       <$> pairs)
                +:+ "</Observation>")
    end.
Proof.
  intros Hsize Hne o.
  destruct (ByValueFacts.push_all pairs (ObservationByValue.make objectName predicateName))
    as (Hcount & Hparams & Hobj & Hpred); [reflexivity | cbn; lia |].
  fold (ObservationByValue.pushed objectName predicateName pairs)
    in Hcount, Hparams, Hobj, Hpred.
  cbn [ObservationByValue.make ObservationByValue.m_parameters
       ObservationByValue.m_objectName ObservationByValue.m_predicateName app]
    in Hparams, Hobj, Hpred.
  assert (Hn : Observer.countParameters o = length pairs).
  { unfold o, ObservationByValue.as_Observation, Observer.countParameters,
      ObservationByValue.countParameters. cbn [Observer.m_parameterCount].
    rewrite Hcount, Hparams. lia. }
  unfold Observer.printXML. rewrite Hn.
  unfold Observer.getObjectName, Observer.getPredicate, o.
  cbn [ObservationByValue.as_Observation Observer.m_objectName Observer.m_predicateName].
  rewrite Hobj, Hpred.
  destruct pairs as [| nameValuePair pairs'] eqn:Epairs; [reflexivity |].
  rewrite <- Epairs in *. replace (Nat.eqb (length pairs) 0) with false
    by (rewrite Epairs; reflexivity).
  rewrite XMLFacts.fprintf_then. unfold mbind, io_bind.
  rewrite XMLFacts.print_asserts_text.
  - rewrite XMLFacts.fprintf_last, !append_assoc.
    rewrite (ByValueFacts.fmap_seq_lookup pairs _
               (fun nameValuePair =>
                  "<Assert name=" +:+ dq +:+ nameValuePair.1 +:+ dq +:+ ">"
                  +:+ Observer.domain_text nameValuePair.2 +:+ "</Assert>")).
    + reflexivity.
    + intros i x Hi. apply ByValueFacts.assert_text_pushed; assumption.
  - intros j Hj.
    destruct (lookup_lt_is_Some_2 pairs j ltac:(lia)) as [x Hx].
    cbn [ObservationByValue.as_Observation Observer.parameter].
    unfold ObservationByValue.operator_index, ObservationByValue.countParameters.
    rewrite Hcount, Hparams, Z.eqb_refl, Hx. cbn [checkError mbind result_bind rbind].
    rewrite Forall_forall in Hne. apply Hne. apply list_elem_of_lookup. eauto.
Qed.

Lemma pushed_parameters_are_written_witness :
  Observer.printXML
    (ObservationByValue.as_Observation ("", Examples.empty_color)
       (ObservationByValue.pushed "camera" "Seen"
          [("count", Examples.forty_two); ("color", Examples.two_colors)])) ""
  = (Ok tt, "" +:+ "<Observation on=" +:+ dq +:+ "camera" +:+ dq
            +:+ " predicate=" +:+ dq +:+ "Seen" +:+ dq +:+ ">"
            +:+ Observer.concat_text
                  ((fun nameValuePair =>
                      "<Assert name=" +:+ dq +:+ nameValuePair.1 +:+ dq +:+ ">"
                      +:+ Observer.domain_text nameValuePair.2 +:+ "</Assert>")
                   <$> [("count", Examples.forty_two); ("color", Examples.two_colors)])
            +:+ "</Observation>").
Proof.
  apply (pushed_parameters_are_written (europa := Examples.small_europa) "camera" "Seen"
           [("count", Examples.forty_two); ("color", Examples.two_colors)]
           ("", Examples.empty_color) "").
  - vm_compute. reflexivity.
  - repeat constructor.
Defined.

(** ** The history of tick timings *)

(** X21.  The history of a monitor only grows at its end: after the ticks
    [ticks] were reported one after the other, [getData()] is what it was,
    followed by the ticks in the order of the reports, for a
    [PerformanceMonitor] and for a [StatisticsCollector] alike. *)
Theorem monitor_history_grows
    (ticks : list (Monitor.timeval * Monitor.timeval)) (m : Monitor.monitor) :
  Monitor.getData (Monitor.report ticks m) = Monitor.getData m ++ ticks.
Proof.
  revert m. unfold Monitor.report.
  induction ticks as [| [synchTime deliberationTime] ticks IH]; intros m; cbn [foldl].
  - rewrite app_nil_r. reflexivity.
  - rewrite IH. cbn [fst snd]. destruct m; cbn [Monitor.addTickData Monitor.getData];
      rewrite <- app_assoc; reflexivity.
Qed.

(** ** The assembly *)

Module AssemblyFacts.
Import Assembly AssemblySpec.

(** From the index of [rest] on, the loop rewrites [rest]. *)
Lemma include_path_loop_rest (rest : list ascii) : forall pre fuel,
  Z.of_nat (length (pre ++ rest)) < 2 ^ 32 ->
  (length rest < fuel)%nat ->
  include_path_loop fuel (Z.of_nat (length pre)) (pre ++ rest)
  = Ok (pre ++ (colon_for_semicolon <$> rest)).
Proof.
  induction rest as [| c rest IH]; intros pre fuel Hsize Hfuel.
  - cbn [fmap list_fmap]. rewrite app_nil_r. destruct fuel; cbn [include_path_loop];
      rewrite (proj2 (Z.ltb_ge _ _)) by lia; reflexivity.
  - destruct fuel as [| fuel]; [cbn [length] in Hfuel; lia |].
    cbn [include_path_loop].
    rewrite (proj2 (Z.ltb_lt _ _)) by (rewrite length_app; cbn [length]; lia).
    rewrite Nat2Z.id, (list_lookup_middle pre rest c (length pre)) by reflexivity.
    rewrite length_app in Hsize. cbn [length] in Hsize, Hfuel.
    rewrite to_unsigned_small by lia.
    replace (Z.of_nat (length pre) + 1) with (Z.of_nat (length (pre ++ [colon_for_semicolon c])))
      by (rewrite length_app; cbn [length]; lia).
    assert (E : (if Ascii.eqb c ";"%char
                 then <[length pre := ":"%char]> (pre ++ c :: rest) else pre ++ c :: rest)
                = (pre ++ [colon_for_semicolon c]) ++ rest).
    { unfold colon_for_semicolon. rewrite <- app_assoc. cbn [app].
      destruct (Ascii.eqb c ";"%char); [| reflexivity].
      replace (length pre) with (length pre + 0)%nat at 1 by lia.
      rewrite insert_app_r. reflexivity. }
    rewrite E, IH.
    + rewrite <- app_assoc. reflexivity.
    + rewrite !length_app. cbn [length]. lia.
    + lia.
Qed.

Lemma exports_with_writer (requests : list (TICK * Z)) : forall s writer,
  m_ppw s = Some writer ->
  let '(replies, s') := exports requests s in
  replies = (fun _ => "DONE") <$> requests
  /\ m_ppw s' = Some writer /\ created s' = created s /\ deleted s' = deleted s
  /\ written s' = written s ++ ((fun r => (writer, r.1, r.2)) <$> requests).
Proof.
  induction requests as [| [tick attempt] requests IH]; intros s writer Hw;
    cbn [exports].
  - rewrite app_nil_r. auto.
  - unfold exportToPlanWorks, getPPW. rewrite Hw.
    specialize (IH {| m_ppw := m_ppw s; created := created s;
                      written := written s ++ [(writer, tick, attempt)];
                      deleted := deleted s |} writer Hw).
    destruct (exports requests _) as [replies s'].
    destruct IH as (-> & H1 & H2 & H3 & H4). cbn in H2, H3, H4.
    rewrite H4, <- app_assoc. cbn. auto.
Qed.

Lemma Schema_new_one s : one_schema s -> one_schema (Schema_new s).2.
Proof.
  intros [Hlive Hbelow]. unfold Schema_new. cbn [snd s_instance live allocated].
  destruct (s_instance s) as [old |] eqn:E; cbn [Schema_destroy live allocated s_instance].
  - rewrite Hlive. specialize (Hbelow old eq_refl).
    unfold one_schema. simpl.
    rewrite Nat.eqb_refl, (proj2 (Nat.eqb_neq (allocated s) old)) by lia. simpl.
    split; [reflexivity |]. intros x [= <-]. lia.
  - rewrite Hlive. unfold one_schema. simpl. split; [reflexivity |].
    intros x [= <-]. lia.
Qed.

Lemma schema_step_one c s : one_schema s -> one_schema (schema_step c s).
Proof.
  intros H. destruct c; cbn [schema_step]; [| apply Schema_new_one, H].
  unfold Schema_instance. cbn [snd].
  destruct (s_instance s); [exact H | apply Schema_new_one, H].
Qed.

Lemma schema_step_instance c s : is_Some (s_instance (schema_step c s)).
Proof.
  destruct c; cbn [schema_step]; [| cbn; eauto].
  unfold Schema_instance. cbn [snd].
  destruct (s_instance s) eqn:E; [rewrite E; eauto | cbn; eauto].
Qed.

End AssemblyFacts.

(** X22.  The loop of [playTransactions] over an include path of fewer than
    [2^32] characters ends, and leaves the path with a colon in the place of
    every semicolon and every other character as it was: no semicolon is
    left. *)
Theorem include_path_separators (path : list ascii) :
  Z.of_nat (length path) < 2 ^ 32 ->
  Assembly.include_path path = Ok (AssemblySpec.colon_for_semicolon <$> path)
  /\ ";"%char ∉ AssemblySpec.colon_for_semicolon <$> path.
Proof.
  intros Hsize. split.
  - apply (AssemblyFacts.include_path_loop_rest path [] (S (length path)));
      [exact Hsize | lia].
  - intros Hin. apply list_elem_of_fmap in Hin as (c & Hc & _).
    unfold AssemblySpec.colon_for_semicolon in Hc.
    destruct (Ascii.eqb c ";"%char) eqn:E; [discriminate |].
    apply Ascii.eqb_neq in E. congruence.
Qed.

Lemma include_path_separators_witness :
  Assembly.include_path (list_ascii_of_string "a;b;/c")
  = Ok (list_ascii_of_string "a:b:/c").
Proof.
  apply (include_path_separators (list_ascii_of_string "a;b;/c")).
  vm_compute. reflexivity.
Defined.

(** X23.  Every export of an assembly replies [DONE].  The first export
    creates the writer, the later ones use it again: all that is written
    goes to this one writer, in the order of the exports.  The destructor
    deletes no writer. *)
Theorem exports_share_one_writer (requests : list (TICK * Z)) :
  (Assembly.exports requests Assembly.constructed).1
  = (fun _ => "DONE") <$> requests
  /\ Assembly.m_ppw (Assembly.exports requests Assembly.constructed).2
     = match requests with [] => None | _ => Some O end
  /\ Assembly.created (Assembly.exports requests Assembly.constructed).2
     = Nat.min 1 (length requests)
  /\ Assembly.written (Assembly.exports requests Assembly.constructed).2
     = (fun r => (O, r.1, r.2)) <$> requests
  /\ Assembly.deleted
       (Assembly.destroy (Assembly.exports requests Assembly.constructed).2) = [].
Proof.
  assert (Hdestroy : forall s, Assembly.destroy s = s)
    by (intros s; unfold Assembly.destroy; destruct (Assembly.m_ppw s); reflexivity).
  rewrite Hdestroy.
  destruct requests as [| [tick attempt] requests]; [cbn; auto |].
  cbn [Assembly.exports]. unfold Assembly.exportToPlanWorks, Assembly.getPPW.
  cbn [Assembly.m_ppw Assembly.constructed Assembly.created Assembly.written
       Assembly.deleted].
  pose proof (AssemblyFacts.exports_with_writer requests
    {| Assembly.m_ppw := Some O; Assembly.created := 1;
       Assembly.written := [] ++ [(O, tick, attempt)];
       Assembly.deleted := [] |} O eq_refl) as H.
  destruct (Assembly.exports requests _) as [replies s'].
  destruct H as (-> & H1 & H2 & H3 & H4). cbn in H2, H3, H4.
  cbn [fst snd length]. rewrite H1, H2, H3, H4. cbn. auto.
Qed.

(** X24.  Whatever calls of [Schema::instance()] and [new Schema()] were
    made, one [Schema] exists at most, and it is the one [s_instance] points
    to.  After a first call there is an instance, and [instance()] returns it
    and changes nothing. *)
Theorem schema_is_a_singleton (calls : list Assembly.schema_call) :
  Assembly.live (AssemblySpec.schema_run calls Assembly.no_schema)
  = option_list (Assembly.s_instance (AssemblySpec.schema_run calls Assembly.no_schema))
  /\ match calls with
     | [] => Assembly.s_instance (AssemblySpec.schema_run calls Assembly.no_schema) = None
     | _ => exists x,
         Assembly.Schema_instance (AssemblySpec.schema_run calls Assembly.no_schema)
         = (Some x, AssemblySpec.schema_run calls Assembly.no_schema)
     end.
Proof.
  assert (Hone : forall s, AssemblySpec.one_schema s ->
                           AssemblySpec.one_schema (AssemblySpec.schema_run calls s)).
  { unfold AssemblySpec.schema_run.
    induction calls as [| c calls IH]; intros s Hs; cbn [foldl]; [exact Hs |].
    apply IH, AssemblyFacts.schema_step_one, Hs. }
  split.
  - apply Hone. split; [reflexivity | discriminate].
  - destruct calls as [| c0 calls0] eqn:Ecalls; [reflexivity |].
    rewrite <- Ecalls.
    assert (Hlast : exists calls' c, calls = calls' ++ [c]).
    { destruct (@exists_last _ calls) as (calls' & c & ->); [congruence | eauto]. }
    destruct Hlast as (calls' & c & ->).
    unfold AssemblySpec.schema_run. rewrite foldl_app. cbn [foldl].
    destruct (AssemblyFacts.schema_step_instance c
                (foldl (fun s c => Assembly.schema_step c s) Assembly.no_schema calls'))
      as [x Hx].
    exists x. unfold Assembly.Schema_instance. rewrite Hx. rewrite Hx. reflexivity.
Qed.
